(** * Hybrid retrieval engine of [scripts/rag.py]

    A shallow embedding of [SimpleEmbedder], [FAISSVectorStore] and
    [HybridSearchEngine], and the properties of the specification that are
    settled on it.

    Conventions of the embedding.
    - A Python [float] is read as a real number ([R]): [math.log] is [ln],
      [math.sqrt] is [sqrt], [round(x, 4)] is rounding to the nearest
      multiple of 1/10000, halves to the even neighbour.
    - A Python [dict] (and [Counter]) is an association list in insertion
      order: assigning to a present key keeps its place, a new key goes last.
    - A raised exception is a value of [exn]; functions that can raise return
      a [Result].  An object attribute that is only created by a method
      ([_vectors], [_inverted_index]) is an [option] field.
    - Texts are ASCII strings.
    - [FAISSVectorStore] is modelled on its fallback path ([import faiss]
      fails, [_use_faiss = False]), the one that is code of this repository. *)

From Stdlib Require Import Reals Lra Lia ZArith List String Ascii Bool Arith.
From Stdlib Require Import Permutation Sorted.
Import ListNotations.

Open Scope string_scope.
Open Scope list_scope.
Open Scope R_scope.

(** ** Exceptions and results *)

Inductive exn : Type :=
| AttributeError (attr : string)
| IndexError
| ZeroDivisionError
| UserError (class_name : string).

Inductive Result (A : Type) : Type :=
| Ok (a : A)
| Raise (e : exn).

Arguments Ok {A} a.
Arguments Raise {A} e.

Definition bind {A B : Type} (r : Result A) (f : A -> Result B) : Result B :=
  match r with
  | Ok a => f a
  | Raise e => Raise e
  end.

Notation "x <- r ;; k" := (bind r (fun x => k))
  (at level 61, r at next level, right associativity).

Fixpoint mapM {A B : Type} (f : A -> Result B) (l : list A) : Result (list B) :=
  match l with
  | [] => Ok []
  | x :: l' => y <- f x ;; ys <- mapM f l' ;; Ok (y :: ys)
  end.

Fixpoint foldM {A B : Type} (f : B -> A -> Result B) (l : list A) (b : B)
  : Result B :=
  match l with
  | [] => Ok b
  | x :: l' => b' <- f b x ;; foldM f l' b'
  end.

(** The error classes the specification names. *)
Definition IndexNotBuilt : exn := UserError "IndexNotBuilt".
Definition EmptyCorpus : exn := UserError "EmptyCorpus".
Definition DimensionMismatch : exn := UserError "DimensionMismatch".

(** ** Python lists *)

(** [l[i]] *)
Definition py_index {A : Type} (l : list A) (i : nat) : Result A :=
  match nth_error l i with
  | Some x => Ok x
  | None => Raise IndexError
  end.

(** [l[i] = v] *)
Fixpoint py_assign {A : Type} (l : list A) (i : nat) (v : A) : Result (list A) :=
  match l, i with
  | [], _ => Raise IndexError
  | _ :: l', O => Ok (v :: l')
  | x :: l', S i' => r <- py_assign l' i' v ;; Ok (x :: r)
  end.

(** [l[:k]]: the first [k] elements, and for a negative [k] all but the last
    [-k]. *)
Definition py_slice_to {A : Type} (l : list A) (k : Z) : list A :=
  if (0 <=? k)%Z then firstn (Z.to_nat k) l
  else firstn (List.length l - Z.to_nat (- k)) l.

(** [enumerate(l)] *)
Fixpoint enumerate_from {A : Type} (i : nat) (l : list A) : list (nat * A) :=
  match l with
  | [] => []
  | x :: l' => (i, x) :: enumerate_from (S i) l'
  end.

Definition enumerate {A : Type} (l : list A) : list (nat * A) :=
  enumerate_from 0 l.

(** ** Python dicts *)

Section Dict.
Context {K V : Type} (eqb : K -> K -> bool).

Fixpoint dict_get (d : list (K * V)) (k : K) : option V :=
  match d with
  | [] => None
  | (k', v) :: d' => if eqb k k' then Some v else dict_get d' k
  end.

Definition dict_mem (d : list (K * V)) (k : K) : bool :=
  match dict_get d k with
  | Some _ => true
  | None => false
  end.

(** [d[k] = v] *)
Fixpoint dict_set (d : list (K * V)) (k : K) (v : V) : list (K * V) :=
  match d with
  | [] => [(k, v)]
  | (k', v') :: d' =>
      if eqb k k' then (k', v) :: d' else (k', v') :: dict_set d' k v
  end.

(** [d.get(k, dflt)] *)
Definition dict_get_default (d : list (K * V)) (k : K) (dflt : V) : V :=
  match dict_get d k with
  | Some v => v
  | None => dflt
  end.
End Dict.

(** [c[k] += 1] on a [Counter] of integers. *)
Definition counter_incr (c : list (string * nat)) (k : string)
  : list (string * nat) :=
  dict_set String.eqb c k (dict_get_default String.eqb c k 0%nat + 1)%nat.

(** [Counter(tokens)] *)
Definition Counter (tokens : list string) : list (string * nat) :=
  fold_left counter_incr tokens [].

(** [set(tokens)], enumerated in order of first occurrence.  (Python's
    enumeration order of a set of strings is unspecified; it only decides
    which coordinate of the vectors a term gets.) *)
Fixpoint py_set (l : list string) : list string :=
  match l with
  | [] => []
  | x :: l' => x :: filter (fun y => negb (String.eqb x y)) (py_set l')
  end.

(** ** Tokenizer: [re.findall(r"\w+", text.lower())] *)

Definition lower_ascii (c : ascii) : ascii :=
  let n := nat_of_ascii c in
  if ((65 <=? n) && (n <=? 90))%nat then ascii_of_nat (n + 32) else c.

Fixpoint lower (s : string) : string :=
  match s with
  | EmptyString => EmptyString
  | String c s' => String (lower_ascii c) (lower s')
  end.

Definition is_word (c : ascii) : bool :=
  let n := nat_of_ascii c in
  (((48 <=? n) && (n <=? 57)) || ((65 <=? n) && (n <=? 90))
   || (n =? 95) || ((97 <=? n) && (n <=? 122)))%nat.

Definition flush (cur : string) : list string :=
  match cur with
  | EmptyString => []
  | _ => [cur]
  end.

Fixpoint findall_word (cur : string) (s : string) : list string :=
  match s with
  | EmptyString => flush cur
  | String c s' =>
      if is_word c then findall_word (String.append cur (String c EmptyString)) s'
      else flush cur ++ findall_word EmptyString s'
  end.

Definition tokenize (text : string) : list string :=
  findall_word EmptyString (lower text).

(** ** Numbers *)

(** Nearest integer, a half going to the even neighbour. *)
Definition round_half_even (x : R) : Z :=
  let f := Int_part x in
  let d := x - IZR f in
  if Rlt_dec d (1 / 2) then f
  else if Rlt_dec (1 / 2) d then (f + 1)%Z
  else if Z.even f then f else (f + 1)%Z.

(** [round(x, 4)] *)
Definition round4 (x : R) : R := IZR (round_half_even (x * 10000)) / 10000.

(** [sum(l)] *)
Definition py_sum (l : list R) : R := fold_left Rplus l 0.

(** [sum(a * b for a, b in zip(u, v))] *)
Definition dot (u v : list R) : R :=
  py_sum (map (fun ab => fst ab * snd ab) (combine u v)).

(** [x / y] on floats *)
Definition py_div (x y : R) : Result R :=
  if Req_dec_T y 0 then Raise ZeroDivisionError else Ok (x / y).

(** [x or 1.0] *)
Definition or_one (x : R) : R := if Req_dec_T x 0 then 1 else x.

(** [max(l)] of a non-empty list given as head and tail. *)
Definition py_max (x : R) (l : list R) : R :=
  fold_left (fun m y => if Rlt_dec m y then y else m) l x.

(** [l.sort(key=key, reverse=True)]: a stable sort into descending order;
    elements with equal keys keep their relative order. *)
Section Sort.
Context {A : Type} (key : A -> R).

Fixpoint insert_desc (x : A) (l : list A) : list A :=
  match l with
  | [] => [x]
  | y :: l' =>
      if Rlt_dec (key x) (key y) then y :: insert_desc x l' else x :: y :: l'
  end.

Fixpoint sort_desc (l : list A) : list A :=
  match l with
  | [] => []
  | x :: l' => insert_desc x (sort_desc l')
  end.
End Sort.

(** ** Documents and results *)

(** A document is a [dict]; the engine reads its keys ["id"] and ["content"],
    both through [.get] with a default. *)
Record Document : Type := mkDocument {
  doc_id : option string;
  doc_content : option string
}.

(** [doc.get("content", "")] *)
Definition content_of (doc : Document) : string :=
  match doc_content doc with
  | Some c => c
  | None => EmptyString
  end.

(** The keys of the [merged] dict: an explicit id, or the integer given as
    default to [.get("id", ...)]. *)
Inductive DocKey : Type :=
| KeyId (s : string)
| KeyPos (i : nat).

Definition DocKey_eqb (a b : DocKey) : bool :=
  match a, b with
  | KeyId s, KeyId s' => String.eqb s s'
  | KeyPos i, KeyPos i' => Nat.eqb i i'
  | _, _ => false
  end.

(** [doc.get("id", dflt)] *)
Definition id_of (doc : Document) (dflt : nat) : DocKey :=
  match doc_id doc with
  | Some s => KeyId s
  | None => KeyPos dflt
  end.

(** An entry of the list returned by the vector store. *)
Record VectorResult : Type := mkVectorResult {
  vr_document : Document;
  vr_relevance_score : R
}.

(** A value of the [merged] dict. *)
Record Merged : Type := mkMerged {
  m_document : Document;
  m_semantic_score : R;
  m_keyword_score : R
}.

(** An entry of the list returned by the hybrid search. *)
Record SearchResult : Type := mkSearchResult {
  document : Document;
  relevance_score : R;
  semantic_score : R;
  keyword_score : R
}.

(** ** Embedders *)

(** What [FAISSVectorStore] asks of its embedder: [fit] and [encode], both
    methods of a stateful object, each of which may raise. *)
Class Embedder (E : Type) : Type := {
  emb_fit : E -> list string -> E * Result unit;
  emb_encode : E -> list string -> E * Result (list (list R))
}.

(** [idf(w) = log((n + 1) / (df + 1)) + 1] *)
Definition smoothed_idf (n df : nat) : R :=
  ln (INR (n + 1) / INR (df + 1)) + 1.

Module SimpleEmbedder.

Record t : Type := mk {
  vocab : list (string * nat);
  idf : list (string * R);
  fitted : bool
}.

Definition init : t := {| vocab := []; idf := []; fitted := false |}.

Definition _tokenize (text : string) : list string := tokenize text.

(** The inner two loops of [fit] for one document. *)
Definition count_document (doc_freq : list (string * nat)) (doc : string)
  : list (string * nat) :=
  fold_left counter_incr (py_set (_tokenize doc)) doc_freq.

Definition fit (self : t) (documents : list string) : t :=
  let doc_freq := fold_left count_document documents [] in
  let n := List.length documents in
  let idf := map (fun wdf => (fst wdf, smoothed_idf n (snd wdf))) doc_freq in
  let vocab := map (fun iw => (fst (snd iw), fst iw)) (enumerate idf) in
  {| vocab := vocab; idf := idf; fitted := true |}.

(** The body of the loop of [encode] over [tf.items()].  The division is
    by [len(tokens)], which is positive whenever [tf] has an item. *)
Definition encode_term (self : t) (tokens : list string) (vec : list R)
    (tc : string * nat) : Result (list R) :=
  let (token, count) := tc in
  match dict_get String.eqb (vocab self) token with
  | Some idx =>
      py_assign vec idx
        (INR count / INR (List.length tokens)
         * dict_get_default String.eqb (idf self) token 1)
  | None => Ok vec
  end.

(** The body of the loop of [encode] over [texts]. *)
Definition encode_text (self : t) (text : string) : Result (list R) :=
  let tokens := _tokenize text in
  let tf := Counter tokens in
  vec <- foldM (encode_term self tokens) tf
           (repeat 0 (List.length (vocab self))) ;;
  let norm := or_one (sqrt (py_sum (map (fun v => v * v) vec))) in
  Ok (map (fun v => v / norm) vec).

Definition encode (self : t) (texts : list string)
  : t * Result (list (list R)) :=
  let self := if fitted self then self else fit self texts in
  (self, mapM (encode_text self) texts).

End SimpleEmbedder.

#[export] Instance SimpleEmbedder_Embedder : Embedder SimpleEmbedder.t := {
  emb_fit := fun self documents => (SimpleEmbedder.fit self documents, Ok tt);
  emb_encode := SimpleEmbedder.encode
}.

(** [get_embedder(use_sentence_transformers=False)] *)
Definition get_embedder_simple : SimpleEmbedder.t := SimpleEmbedder.init.

(** ** Vector store *)

Module FAISSVectorStore.
Section WithEmbedder.
Context {E : Type} `{Embedder E}.

Record t : Type := mk {
  embedder : E;
  documents : list Document;
  _vectors : option (list (list R))
}.

Definition init (embedder : E) : t :=
  {| embedder := embedder; documents := []; _vectors := None |}.

Definition add_documents (self : t) (docs : list Document)
  : t * Result unit :=
  let texts := map content_of docs in
  let (emb, fitted) := emb_fit (embedder self) texts in
  match fitted with
  | Raise e =>
      ({| embedder := emb; documents := docs; _vectors := _vectors self |},
       Raise e)
  | Ok _ =>
      let (emb, r) := emb_encode emb texts in
      match r with
      | Ok vectors =>
          ({| embedder := emb; documents := docs; _vectors := Some vectors |},
           Ok tt)
      | Raise e =>
          ({| embedder := emb; documents := docs; _vectors := _vectors self |},
           Raise e)
      end
  end.

Definition _brute_force_search (self : t) (query_vec : list R) (top_k : Z)
  : Result (list VectorResult) :=
  match _vectors self with
  | None => Raise (AttributeError "_vectors")
  | Some vectors =>
      let scores :=
        map (fun iv => (dot query_vec (snd iv), fst iv))
            (enumerate vectors) in
      let scores := sort_desc fst scores in
      mapM (fun si =>
              doc <- py_index (documents self) (snd si) ;;
              Ok {| vr_document := doc;
                    vr_relevance_score := round4 (fst si) |})
           (py_slice_to scores top_k)
  end.

Definition search (self : t) (query : string) (top_k : Z)
  : t * Result (list VectorResult) :=
  let (emb, r) := emb_encode (embedder self) [query] in
  let self := {| embedder := emb; documents := documents self;
                 _vectors := _vectors self |} in
  (self, q_vec <- r ;;
         q <- py_index q_vec 0 ;;
         _brute_force_search self q top_k).
End WithEmbedder.
Arguments t E : clear implicits.
End FAISSVectorStore.

(** ** Hybrid search *)

Module HybridSearchEngine.

Record t : Type := mk {
  semantic_weight : R;
  keyword_weight : R;
  vector_store : FAISSVectorStore.t SimpleEmbedder.t;
  documents : list Document;
  _inverted_index : option (list (string * list nat))
}.

Definition init (semantic_weight : R) : t :=
  {| semantic_weight := semantic_weight;
     keyword_weight := 1 - semantic_weight;
     vector_store := FAISSVectorStore.init get_embedder_simple;
     documents := [];
     _inverted_index := None |}.

(** [index.setdefault(token, []).append(i)] *)
Definition posting_append (index : list (string * list nat)) (i : nat)
    (token : string) : list (string * list nat) :=
  dict_set String.eqb index token
    (dict_get_default String.eqb index token [] ++ [i]).

(** The body of the loop of [add_documents] over [enumerate(documents)]. *)
Definition index_document (index : list (string * list nat))
    (id : nat * Document) : list (string * list nat) :=
  fold_left (fun ix token => posting_append ix (fst id) token)
    (py_set (tokenize (content_of (snd id)))) index.

Definition build_inverted_index (docs : list Document)
  : list (string * list nat) :=
  fold_left index_document (enumerate docs) [].

Definition add_documents (self : t) (docs : list Document)
  : t * Result unit :=
  let (vs, r) := FAISSVectorStore.add_documents (vector_store self) docs in
  match r with
  | Ok _ =>
      ({| semantic_weight := semantic_weight self;
          keyword_weight := keyword_weight self;
          vector_store := vs;
          documents := docs;
          _inverted_index := Some (build_inverted_index docs) |}, Ok tt)
  | Raise e =>
      ({| semantic_weight := semantic_weight self;
          keyword_weight := keyword_weight self;
          vector_store := vs;
          documents := docs;
          _inverted_index := _inverted_index self |}, Raise e)
  end.

(** [scores[doc_idx] += idf] *)
Definition score_add (idf : R) (scores : list (nat * R)) (doc_idx : nat)
  : list (nat * R) :=
  dict_set Nat.eqb scores doc_idx
    (dict_get_default Nat.eqb scores doc_idx 0 + idf).

(** The body of the loop of [_keyword_search] over the query tokens. *)
Definition _keyword_token (self : t) (scores : list (nat * R))
    (token : string) : Result (list (nat * R)) :=
  match _inverted_index self with
  | None => Raise (AttributeError "_inverted_index")
  | Some index =>
      match dict_get String.eqb index token with
      | Some matching_docs =>
          let idf :=
            smoothed_idf (List.length (documents self))
                         (List.length matching_docs) in
          Ok (fold_left (score_add idf) matching_docs scores)
      | None => Ok scores
      end
  end.

Definition _keyword_search (self : t) (query : string)
  : Result (list (nat * R)) :=
  let query_tokens := tokenize query in
  scores <- foldM (_keyword_token self) query_tokens [] ;;
  match scores with
  | [] => Ok []
  | kv :: rest =>
      let max_score := py_max (snd kv) (map snd rest) in
      mapM (fun kv => q <- py_div (snd kv) max_score ;; Ok (fst kv, q))
           scores
  end.

(** The body of the first merge loop, over [enumerate(semantic_results)]. *)
Definition merge_semantic (merged : list (DocKey * Merged))
    (ir : nat * VectorResult) : list (DocKey * Merged) :=
  let (i, result) := ir in
  let doc_id := id_of (vr_document result) i in
  dict_set DocKey_eqb merged doc_id
    {| m_document := vr_document result;
       m_semantic_score := vr_relevance_score result;
       m_keyword_score := 0 |}.

(** The body of the second merge loop, over [keyword_scores.items()]. *)
Definition merge_keyword (self : t) (merged : list (DocKey * Merged))
    (ks : nat * R) : Result (list (DocKey * Merged)) :=
  let (doc_idx, score) := ks in
  doc <- py_index (documents self) doc_idx ;;
  let doc_id := id_of doc doc_idx in
  match dict_get DocKey_eqb merged doc_id with
  | Some data =>
      Ok (dict_set DocKey_eqb merged doc_id
            {| m_document := m_document data;
               m_semantic_score := m_semantic_score data;
               m_keyword_score := score |})
  | None =>
      Ok (dict_set DocKey_eqb merged doc_id
            {| m_document := doc;
               m_semantic_score := 0;
               m_keyword_score := score |})
  end.

Definition merge (self : t) (semantic_results : list VectorResult)
    (keyword_scores : list (nat * R)) : Result (list (DocKey * Merged)) :=
  foldM (merge_keyword self) keyword_scores
    (fold_left merge_semantic (enumerate semantic_results) []).

(** The body of the loop that computes the combined score. *)
Definition combine_scores (self : t) (data : Merged) : SearchResult :=
  let combined :=
    semantic_weight self * m_semantic_score data
    + keyword_weight self * m_keyword_score data in
  {| document := m_document data;
     relevance_score := round4 combined;
     semantic_score := round4 (m_semantic_score data);
     keyword_score := round4 (m_keyword_score data) |}.

(** The end of [search]: combined scores, sort, truncation. *)
Definition rank (self : t) (merged : list (DocKey * Merged)) (top_k : Z)
  : list SearchResult :=
  let results := map (fun kd => combine_scores self (snd kd)) merged in
  py_slice_to (sort_desc relevance_score results) top_k.

Definition search (self : t) (query : string) (top_k : Z)
  : t * Result (list SearchResult) :=
  let (vs, r) := FAISSVectorStore.search (vector_store self) query
                   (top_k * 2)%Z in
  let self := {| semantic_weight := semantic_weight self;
                 keyword_weight := keyword_weight self;
                 vector_store := vs;
                 documents := documents self;
                 _inverted_index := _inverted_index self |} in
  (self, semantic_results <- r ;;
         keyword_scores <- _keyword_search self query ;;
         merged <- merge self semantic_results keyword_scores ;;
         Ok (rank self merged top_k)).

End HybridSearchEngine.

(** [create_rag_engine(documents, hybrid=True, semantic_weight)] *)
Definition create_rag_engine (docs : list Document) (semantic_weight : R)
  : HybridSearchEngine.t * Result unit :=
  HybridSearchEngine.add_documents (HybridSearchEngine.init semantic_weight)
    docs.

(** * Properties *)

(** ** Results and lists *)

Lemma mapM_Ok_map {A B : Type} (f : A -> Result B) (g : A -> B) (l : list A) :
  (forall x, In x l -> f x = Ok (g x)) -> mapM f l = Ok (map g l).
Proof.
  induction l as [|x l IH]; intros Hf; simpl; [reflexivity|].
  rewrite (Hf x (or_introl eq_refl)). simpl.
  rewrite IH by (intros y Hy; apply Hf; right; exact Hy).
  reflexivity.
Qed.

Lemma foldM_Ok_fold {A B : Type} (P : B -> Prop) (f : B -> A -> Result B)
    (g : B -> A -> B) (l : list A) :
  (forall b x, In x l -> P b -> f b x = Ok (g b x) /\ P (g b x)) ->
  forall b, P b -> foldM f l b = Ok (fold_left g l b) /\ P (fold_left g l b).
Proof.
  induction l as [|x l IH]; intros Hf b Hb; simpl; [split; [reflexivity|exact Hb]|].
  destruct (Hf b x (or_introl eq_refl) Hb) as [E Hg]. rewrite E. simpl.
  apply IH; [|exact Hg].
  intros b' y Hy Hb'. apply Hf; [right; exact Hy|exact Hb'].
Qed.

(** Assignment at a position, doing nothing out of range: what [py_assign]
    computes when it does not raise. *)
Fixpoint list_update {A : Type} (l : list A) (i : nat) (v : A) : list A :=
  match l, i with
  | [], _ => []
  | _ :: l', O => v :: l'
  | x :: l', S i' => x :: list_update l' i' v
  end.

Lemma list_update_length {A : Type} (l : list A) (i : nat) (v : A) :
  List.length (list_update l i v) = List.length l.
Proof.
  revert i; induction l as [|x l IH]; intros [|i]; simpl; auto.
Qed.

Lemma py_assign_Ok {A : Type} (l : list A) (i : nat) (v : A) :
  (i < List.length l)%nat -> py_assign l i v = Ok (list_update l i v).
Proof.
  revert i; induction l as [|x l IH]; intros [|i] Hi; simpl in *; try lia.
  - reflexivity.
  - rewrite IH by lia. reflexivity.
Qed.

Lemma enumerate_from_length {A : Type} (s : nat) (l : list A) :
  List.length (enumerate_from s l) = List.length l.
Proof.
  revert s; induction l as [|x l IH]; intros s; simpl; auto.
Qed.

Lemma enumerate_from_In {A : Type} (s : nat) (l : list A) (i : nat) (x : A) :
  In (i, x) (enumerate_from s l) ->
  (s <= i < s + List.length l)%nat /\ nth_error l (i - s) = Some x.
Proof.
  revert s; induction l as [|y l IH]; intros s Hin; simpl in *; [tauto|].
  destruct Hin as [E|Hin].
  - inversion E; subst. split; [lia|]. now rewrite Nat.sub_diag.
  - destruct (IH _ Hin) as [Hr Hn]. split; [lia|].
    replace (i - s)%nat with (S (i - S s)) by lia. exact Hn.
Qed.

Lemma enumerate_from_app {A : Type} (s : nat) (l l' : list A) :
  enumerate_from s (l ++ l')
  = enumerate_from s l ++ enumerate_from (s + List.length l) l'.
Proof.
  revert s; induction l as [|x l IH]; intros s; simpl.
  - now rewrite Nat.add_0_r.
  - rewrite IH. now rewrite Nat.add_succ_r.
Qed.

Lemma enumerate_from_map_snd {A : Type} (s : nat) (l : list A) :
  map snd (enumerate_from s l) = l.
Proof.
  revert s; induction l as [|x l IH]; intros s; simpl; [|rewrite IH]; auto.
Qed.

(** ** Dicts *)

Section DictFacts.
Context {K V : Type} (eqb : K -> K -> bool).
Hypothesis eqb_spec : forall a b, eqb a b = true <-> a = b.

Lemma eqb_refl_true (a : K) : eqb a a = true.
Proof. now apply eqb_spec. Qed.

Lemma dict_get_In (d : list (K * V)) (k : K) (v : V) :
  dict_get eqb d k = Some v -> In (k, v) d.
Proof.
  induction d as [|[k' v'] d IH]; simpl; [discriminate|].
  destruct (eqb k k') eqn:E.
  - intros H; inversion H; subst. apply eqb_spec in E; subst. now left.
  - intros H; right; auto.
Qed.

Lemma dict_get_None_keys (d : list (K * V)) (k : K) :
  dict_get eqb d k = None <-> ~ In k (map fst d).
Proof.
  induction d as [|[k' v'] d IH]; simpl; [tauto|].
  destruct (eqb k k') eqn:E.
  - apply eqb_spec in E; subst. split; [discriminate|intros H; exfalso; auto].
  - rewrite IH. split; [|tauto].
    intros H [H'|H']; [|tauto]. subst.
    rewrite eqb_refl_true in E. discriminate.
Qed.

Lemma dict_set_keys_present (d : list (K * V)) (k : K) (v : V) :
  In k (map fst d) -> map fst (dict_set eqb d k v) = map fst d.
Proof.
  induction d as [|[k' v'] d IH]; simpl; [tauto|].
  destruct (eqb k k') eqn:E; simpl; [reflexivity|].
  intros [H|H]; [subst; rewrite eqb_refl_true in E; discriminate|].
  now rewrite IH.
Qed.

Lemma dict_set_keys_absent (d : list (K * V)) (k : K) (v : V) :
  ~ In k (map fst d) -> dict_set eqb d k v = d ++ [(k, v)].
Proof.
  induction d as [|[k' v'] d IH]; simpl; [reflexivity|].
  intros H. destruct (eqb k k') eqn:E.
  - apply eqb_spec in E; subst. exfalso; auto.
  - rewrite IH by tauto. reflexivity.
Qed.

Lemma dict_get_set_same (d : list (K * V)) (k : K) (v : V) :
  dict_get eqb (dict_set eqb d k v) k = Some v.
Proof.
  induction d as [|[k' v'] d IH]; simpl.
  - now rewrite eqb_refl_true.
  - destruct (eqb k k') eqn:E; simpl; rewrite E; auto.
Qed.

Lemma dict_get_set_other (d : list (K * V)) (k k0 : K) (v : V) :
  k0 <> k -> dict_get eqb (dict_set eqb d k v) k0 = dict_get eqb d k0.
Proof.
  intros Hne. induction d as [|[k' v'] d IH]; simpl.
  - destruct (eqb k0 k) eqn:E; [apply eqb_spec in E; contradiction|reflexivity].
  - destruct (eqb k k') eqn:E; simpl.
    + apply eqb_spec in E; subst.
      destruct (eqb k0 k') eqn:E'; [apply eqb_spec in E'; contradiction|].
      reflexivity.
    + destruct (eqb k0 k'); auto.
Qed.

Lemma dict_set_length_le (d : list (K * V)) (k : K) (v : V) :
  (List.length d <= List.length (dict_set eqb d k v))%nat.
Proof.
  induction d as [|[k' v'] d IH]; simpl; [lia|].
  destruct (eqb k k'); simpl; lia.
Qed.

Lemma dict_keys_dec (k : K) (l : list K) : {In k l} + {~ In k l}.
Proof.
  apply in_dec. intros a b. destruct (eqb a b) eqn:E.
  - left. now apply eqb_spec.
  - right. intros H. apply eqb_spec in H. congruence.
Qed.

Lemma dict_set_NoDup (d : list (K * V)) (k : K) (v : V) :
  NoDup (map fst d) -> NoDup (map fst (dict_set eqb d k v)).
Proof.
  intros Hd. destruct (dict_keys_dec k (map fst d)) as [Hin|Hin].
  - now rewrite dict_set_keys_present.
  - rewrite dict_set_keys_absent by exact Hin.
    rewrite map_app. simpl. apply NoDup_app; [exact Hd| |].
    + constructor; [intros []|constructor].
    + intros a Ha [E|[]]. subst. contradiction.
Qed.
End DictFacts.

Lemma String_eqb_spec (a b : string) : String.eqb a b = true <-> a = b.
Proof. apply String.eqb_eq. Qed.

Lemma Nat_eqb_spec (a b : nat) : Nat.eqb a b = true <-> a = b.
Proof. apply Nat.eqb_eq. Qed.

Lemma DocKey_eqb_spec (a b : DocKey) : DocKey_eqb a b = true <-> a = b.
Proof.
  destruct a as [s|i], b as [s'|i']; simpl.
  - rewrite String.eqb_eq. split; [intros ->; reflexivity|intros H; now inversion H].
  - split; discriminate.
  - split; discriminate.
  - rewrite Nat.eqb_eq. split; [intros ->; reflexivity|intros H; now inversion H].
Qed.

(** ** The frequency embedder *)

(** Every index of the vocabulary is a position of the vector. *)
Definition vocab_ok (self : SimpleEmbedder.t) : Prop :=
  forall w i, dict_get String.eqb (SimpleEmbedder.vocab self) w = Some i ->
              (i < List.length (SimpleEmbedder.vocab self))%nat.

(** The vector [encode] builds for a text before normalisation, and its
    normalisation, as total functions. *)
Definition raw_term (self : SimpleEmbedder.t) (tokens : list string)
    (vec : list R) (tc : string * nat) : list R :=
  match dict_get String.eqb (SimpleEmbedder.vocab self) (fst tc) with
  | Some idx =>
      list_update vec idx
        (INR (snd tc) / INR (List.length tokens)
         * dict_get_default String.eqb (SimpleEmbedder.idf self) (fst tc) 1)
  | None => vec
  end.

Definition raw_vector (self : SimpleEmbedder.t) (tokens : list string)
  : list R :=
  fold_left (raw_term self tokens) (Counter tokens)
    (repeat 0 (List.length (SimpleEmbedder.vocab self))).

Definition sum_squares (vec : list R) : R :=
  py_sum (map (fun v => v * v) vec).

Definition normalize (vec : list R) : list R :=
  map (fun v => v / or_one (sqrt (sum_squares vec))) vec.

Lemma init_vocab_ok : vocab_ok SimpleEmbedder.init.
Proof. intros w i H. discriminate H. Qed.

Lemma fit_fitted (self : SimpleEmbedder.t) (docs : list string) :
  SimpleEmbedder.fitted (SimpleEmbedder.fit self docs) = true.
Proof. reflexivity. Qed.

Lemma fit_vocab_ok (self : SimpleEmbedder.t) (docs : list string) :
  vocab_ok (SimpleEmbedder.fit self docs).
Proof.
  intros w i H. apply (dict_get_In _ String_eqb_spec) in H.
  unfold SimpleEmbedder.fit in *. simpl in *.
  rewrite length_map. unfold enumerate in *.
  apply in_map_iff in H. destruct H as [[j [w' x]] [E Hin]].
  simpl in E. inversion E; subst.
  apply enumerate_from_In in Hin. rewrite enumerate_from_length. lia.
Qed.

Lemma raw_term_length (self : SimpleEmbedder.t) tokens vec tc :
  List.length (raw_term self tokens vec tc) = List.length vec.
Proof.
  unfold raw_term. destruct (dict_get _ _ _); [apply list_update_length|reflexivity].
Qed.

Lemma raw_vector_length (self : SimpleEmbedder.t) tokens :
  List.length (raw_vector self tokens)
  = List.length (SimpleEmbedder.vocab self).
Proof.
  unfold raw_vector.
  generalize (Counter tokens) as tf.
  assert (G : forall tf vec,
             List.length (fold_left (raw_term self tokens) tf vec)
             = List.length vec).
  { induction tf as [|tc tf IH]; intros vec; simpl; [reflexivity|].
    rewrite IH. apply raw_term_length. }
  intros tf. rewrite G. apply repeat_length.
Qed.

Lemma normalize_length (vec : list R) :
  List.length (normalize vec) = List.length vec.
Proof. unfold normalize. apply length_map. Qed.

Lemma encode_text_Ok (self : SimpleEmbedder.t) (text : string) :
  vocab_ok self ->
  SimpleEmbedder.encode_text self text
  = Ok (normalize (raw_vector self (tokenize text))).
Proof.
  intros Hv. unfold SimpleEmbedder.encode_text, SimpleEmbedder._tokenize.
  destruct (foldM_Ok_fold
              (fun vec => List.length vec
                          = List.length (SimpleEmbedder.vocab self))
              (SimpleEmbedder.encode_term self (tokenize text))
              (raw_term self (tokenize text))
              (Counter (tokenize text))) with
    (b := repeat 0 (List.length (SimpleEmbedder.vocab self))) as [E _].
  - intros vec [token count] _ Hlen.
    unfold SimpleEmbedder.encode_term, raw_term. simpl.
    destruct (dict_get String.eqb (SimpleEmbedder.vocab self) token) as [idx|] eqn:G.
    + rewrite py_assign_Ok by (rewrite Hlen; eapply Hv; eauto).
      split; [reflexivity|]. now rewrite list_update_length.
    + split; [reflexivity|exact Hlen].
  - apply repeat_length.
  - rewrite E. reflexivity.
Qed.

(** [encode] on a fitted embedder: no refit, no exception. *)
Lemma encode_fitted (self : SimpleEmbedder.t) (texts : list string) :
  SimpleEmbedder.fitted self = true -> vocab_ok self ->
  SimpleEmbedder.encode self texts
  = (self, Ok (map (fun text => normalize (raw_vector self (tokenize text)))
                   texts)).
Proof.
  intros Hf Hv. unfold SimpleEmbedder.encode. rewrite Hf. f_equal.
  apply mapM_Ok_map. intros text _. now apply encode_text_Ok.
Qed.

(** [encode] on an embedder that was never fitted fits it on the texts. *)
Lemma encode_unfitted (self : SimpleEmbedder.t) (texts : list string) :
  SimpleEmbedder.fitted self = false ->
  SimpleEmbedder.encode self texts
  = (SimpleEmbedder.fit self texts,
     Ok (map (fun text =>
                normalize (raw_vector (SimpleEmbedder.fit self texts)
                                      (tokenize text))) texts)).
Proof.
  intros Hf. unfold SimpleEmbedder.encode. rewrite Hf. f_equal.
  apply mapM_Ok_map. intros text _. apply encode_text_Ok, fit_vocab_ok.
Qed.

(** ** The stable descending sort *)

Section SortFacts.
Context {A : Type} (key : A -> R).

Lemma insert_desc_perm (x : A) (l : list A) :
  Permutation (insert_desc key x l) (x :: l).
Proof.
  induction l as [|y l IH]; simpl; [reflexivity|].
  destruct (Rlt_dec (key x) (key y)); [|reflexivity].
  rewrite IH. apply perm_swap.
Qed.

Lemma sort_desc_perm (l : list A) : Permutation (sort_desc key l) l.
Proof.
  induction l as [|x l IH]; simpl; [reflexivity|].
  rewrite insert_desc_perm. now constructor.
Qed.

Lemma sort_desc_length (l : list A) :
  List.length (sort_desc key l) = List.length l.
Proof. apply Permutation_length, sort_desc_perm. Qed.

Lemma sort_desc_In (l : list A) (x : A) : In x (sort_desc key l) <-> In x l.
Proof.
  split; apply Permutation_in; [|symmetry]; apply sort_desc_perm.
Qed.

(** Descending by key: every element's key is at least the key of every
    later element. *)
Definition desc (a b : A) : Prop := key b <= key a.

Lemma insert_desc_sorted (x : A) (l : list A) :
  StronglySorted desc l -> StronglySorted desc (insert_desc key x l).
Proof.
  induction l as [|y l IH]; intros Hs; simpl.
  - constructor; constructor.
  - inversion Hs as [|? ? Hs' Hall]; subst.
    destruct (Rlt_dec (key x) (key y)) as [Hlt|Hge].
    + constructor; [now apply IH|].
      apply Forall_forall. intros z Hz.
      apply (Permutation_in _ (insert_desc_perm x l)) in Hz.
      destruct Hz as [<-|Hz]; [unfold desc; lra|].
      rewrite Forall_forall in Hall. now apply Hall.
    + constructor; [exact Hs|].
      constructor; [unfold desc; lra|].
      apply Forall_forall. intros z Hz.
      rewrite Forall_forall in Hall. specialize (Hall z Hz).
      unfold desc in *. lra.
Qed.

Lemma sort_desc_sorted (l : list A) : StronglySorted desc (sort_desc key l).
Proof.
  induction l as [|x l IH]; simpl; [constructor|].
  now apply insert_desc_sorted.
Qed.

(** A list that is already in descending order is left as it is. *)
Lemma sort_desc_sorted_id (l : list A) :
  StronglySorted desc l -> sort_desc key l = l.
Proof.
  induction l as [|x l IH]; intros Hs; simpl; [reflexivity|].
  inversion Hs as [|? ? Hs' Hall]; subst.
  rewrite IH by exact Hs'.
  destruct l as [|y l]; simpl; [reflexivity|].
  destruct (Rlt_dec (key x) (key y)) as [Hlt|Hge]; [|reflexivity].
  inversion Hall as [|? ? Hy _]; subst. unfold desc in Hy. lra.
Qed.

(** Stability: the elements of any one key keep their relative order. *)
Lemma insert_desc_filter (p : A -> bool) (x : A) (l : list A) :
  (forall y, In y l -> p y = true -> p x = true -> key y = key x) ->
  StronglySorted desc l ->
  filter p (insert_desc key x l) = filter p (x :: l).
Proof.
  induction l as [|y l IH]; intros Hk Hs; [reflexivity|].
  inversion Hs as [|? ? Hs' Hall]; subst.
  simpl. destruct (Rlt_dec (key x) (key y)) as [Hlt|Hge]; [|reflexivity].
  simpl. rewrite IH; [|intros z Hz; apply Hk; now right|exact Hs'].
  simpl. assert (Hy := Hk y (or_introl eq_refl)).
  destruct (p y), (p x); try reflexivity.
  specialize (Hy eq_refl eq_refl). lra.
Qed.

Lemma sort_desc_stable (p : A -> bool) (l : list A) :
  (forall x y, In x l -> In y l -> p x = true -> p y = true ->
               key x = key y) ->
  filter p (sort_desc key l) = filter p l.
Proof.
  induction l as [|x l IH]; intros Hk; [reflexivity|].
  simpl sort_desc. rewrite insert_desc_filter.
  - simpl. rewrite IH; [reflexivity|].
    intros a b Ha Hb. apply Hk; now right.
  - intros y Hy Py Px. apply Hk; [right; exact (proj1 (sort_desc_In l y) Hy)|now left|auto|auto].
  - apply sort_desc_sorted.
Qed.
End SortFacts.

Lemma firstn_incl {A : Type} (n : nat) (l : list A) (x : A) :
  In x (firstn n l) -> In x l.
Proof.
  intros H. rewrite <- (firstn_skipn n l). apply in_or_app. now left.
Qed.

Lemma py_slice_to_In {A : Type} (l : list A) (k : Z) (x : A) :
  In x (py_slice_to l k) -> In x l.
Proof.
  unfold py_slice_to. destruct (0 <=? k)%Z; apply firstn_incl.
Qed.

Lemma py_slice_to_nonneg {A : Type} (l : list A) (k : Z) :
  (0 <= k)%Z -> py_slice_to l k = firstn (Z.to_nat k) l.
Proof.
  intros H. unfold py_slice_to.
  destruct (0 <=? k)%Z eqn:E; [reflexivity|]. apply Z.leb_gt in E. lia.
Qed.

Lemma py_index_nth {A : Type} (l : list A) (i : nat) (d : A) :
  (i < List.length l)%nat -> py_index l i = Ok (nth i l d).
Proof.
  intros H. unfold py_index.
  rewrite (nth_error_nth' l d H). reflexivity.
Qed.

(** ** The vector store after [add_documents] *)

Definition no_document : Document :=
  {| doc_id := None; doc_content := None |}.

(** The embedder after [fit] on the texts of a corpus. *)
Definition fitted_on (docs : list Document) : SimpleEmbedder.t :=
  SimpleEmbedder.fit SimpleEmbedder.init (map content_of docs).

(** The vector of a text under a fitted embedder. *)
Definition text_vector (emb : SimpleEmbedder.t) (text : string) : list R :=
  normalize (raw_vector emb (tokenize text)).

Definition doc_vectors (docs : list Document) : list (list R) :=
  map (text_vector (fitted_on docs)) (map content_of docs).

Definition indexed_store (docs : list Document)
  : FAISSVectorStore.t SimpleEmbedder.t :=
  {| FAISSVectorStore.embedder := fitted_on docs;
     FAISSVectorStore.documents := docs;
     FAISSVectorStore._vectors := Some (doc_vectors docs) |}.

(** The sorted list [scores] of [_brute_force_search]. *)
Definition semantic_scores (docs : list Document) (query : string)
  : list (R * nat) :=
  sort_desc fst
    (map (fun iv => (dot (text_vector (fitted_on docs) query) (snd iv), fst iv))
         (enumerate (doc_vectors docs))).

(** The list [_brute_force_search] returns. *)
Definition vector_results (docs : list Document) (query : string) (top_k : Z)
  : list VectorResult :=
  map (fun si => {| vr_document := nth (snd si) docs no_document;
                    vr_relevance_score := round4 (fst si) |})
      (py_slice_to (semantic_scores docs query) top_k).

Lemma fitted_on_ok (docs : list Document) : vocab_ok (fitted_on docs).
Proof. apply fit_vocab_ok. Qed.

Lemma doc_vectors_length (docs : list Document) :
  List.length (doc_vectors docs) = List.length docs.
Proof. unfold doc_vectors. now rewrite !length_map. Qed.

Lemma vs_add_documents_indexed (vs : FAISSVectorStore.t SimpleEmbedder.t)
    (docs : list Document) :
  FAISSVectorStore.add_documents vs docs = (indexed_store docs, Ok tt).
Proof.
  unfold FAISSVectorStore.add_documents.
  cbn [emb_fit emb_encode SimpleEmbedder_Embedder].
  rewrite encode_fitted; [reflexivity|reflexivity|apply fit_vocab_ok].
Qed.

Lemma semantic_scores_In (docs : list Document) (query : string) (s : R)
    (i : nat) :
  In (s, i) (semantic_scores docs query) -> (i < List.length docs)%nat.
Proof.
  unfold semantic_scores. intros H. apply sort_desc_In in H.
  apply in_map_iff in H. destruct H as [[j v] [E Hin]].
  simpl in E. inversion E; subst.
  apply enumerate_from_In in Hin. rewrite doc_vectors_length in Hin. lia.
Qed.

Lemma semantic_scores_length (docs : list Document) (query : string) :
  List.length (semantic_scores docs query) = List.length docs.
Proof.
  unfold semantic_scores. rewrite sort_desc_length, length_map.
  unfold enumerate. now rewrite enumerate_from_length, doc_vectors_length.
Qed.

Lemma vs_search_indexed (docs : list Document) (query : string) (top_k : Z) :
  FAISSVectorStore.search (indexed_store docs) query top_k
  = (indexed_store docs, Ok (vector_results docs query top_k)).
Proof.
  unfold FAISSVectorStore.search. simpl emb_encode.
  unfold indexed_store at 1. simpl FAISSVectorStore.embedder.
  rewrite encode_fitted; [|reflexivity|apply fitted_on_ok].
  simpl. f_equal.
  unfold FAISSVectorStore._brute_force_search. simpl.
  apply mapM_Ok_map. intros [s i] Hin. simpl.
  apply py_slice_to_In in Hin. apply semantic_scores_In in Hin.
  rewrite (py_index_nth docs i no_document Hin). reflexivity.
Qed.

(** ** The inverted index after [add_documents] *)

Lemma py_set_In (l : list string) (x : string) : In x (py_set l) <-> In x l.
Proof.
  induction l as [|y l IH]; simpl; [tauto|].
  rewrite filter_In, IH. destruct (String.eqb y x) eqn:E; simpl.
  - apply String.eqb_eq in E. subst. split; [intros [H|[H ?]]; auto|auto].
  - apply String.eqb_neq in E. split.
    + intros [H|[H _]]; auto.
    + intros [H|H]; auto.
Qed.

Lemma py_set_NoDup (l : list string) : NoDup (py_set l).
Proof.
  induction l as [|y l IH]; simpl; constructor.
  - rewrite filter_In. intros [_ H]. rewrite String.eqb_refl in H. discriminate.
  - now apply NoDup_filter.
Qed.

(** Every posting list is duplicate-free and holds positions below [j]. *)
Definition postings_below (j : nat) (index : list (string * list nat)) : Prop :=
  forall token p, dict_get String.eqb index token = Some p ->
                  NoDup p /\ Forall (fun i => (i < j)%nat) p.

Lemma index_tokens_inv (j : nat) (tokens : list string) :
  NoDup tokens ->
  forall index,
    (forall token p, dict_get String.eqb index token = Some p ->
       NoDup p /\ Forall (fun i => (i <= j)%nat) p
       /\ (In j p -> ~ In token tokens)) ->
    postings_below (S j)
      (fold_left (fun ix token => HybridSearchEngine.posting_append ix j token)
                 tokens index).
Proof.
  induction 1 as [|t tokens Ht Hnd IH]; intros index Hinv; simpl.
  - intros token p Hp. destruct (Hinv _ _ Hp) as (H1 & H2 & _).
    split; [exact H1|]. eapply Forall_impl; [|exact H2]. simpl. intros; lia.
  - apply IH. intros token p Hp.
    unfold HybridSearchEngine.posting_append in Hp.
    destruct (String.eqb token t) eqn:E.
    + apply String.eqb_eq in E. subst token.
      rewrite (dict_get_set_same _ String_eqb_spec) in Hp.
      inversion Hp; subst p; clear Hp.
      unfold dict_get_default.
      destruct (dict_get String.eqb index t) as [p0|] eqn:G.
      * destruct (Hinv _ _ G) as (H1 & H2 & H3).
        split; [|split].
        -- apply NoDup_app; [exact H1|constructor; [intros []|constructor]|].
           intros a Ha [<-|[]]. apply H3 in Ha. apply Ha. now left.
        -- apply Forall_app; split; [exact H2|]. constructor; [lia|constructor].
        -- intros _. exact Ht.
      * simpl. split; [|split].
        -- constructor; [intros []|constructor].
        -- constructor; [lia|constructor].
        -- intros _. exact Ht.
    + apply String.eqb_neq in E.
      rewrite (dict_get_set_other _ String_eqb_spec) in Hp by exact E.
      destruct (Hinv _ _ Hp) as (H1 & H2 & H3).
      split; [exact H1|split; [exact H2|]].
      intros Hj Hin. apply (H3 Hj). now right.
Qed.

Lemma index_document_inv (j : nat) (doc : Document) index :
  postings_below j index ->
  postings_below (S j) (HybridSearchEngine.index_document index (j, doc)).
Proof.
  intros Hinv. unfold HybridSearchEngine.index_document. simpl.
  apply index_tokens_inv; [apply py_set_NoDup|].
  intros token p Hp. destruct (Hinv _ _ Hp) as [H1 H2].
  split; [exact H1|split].
  - eapply Forall_impl; [|exact H2]. simpl. intros; lia.
  - intros Hj. rewrite Forall_forall in H2. apply H2 in Hj. lia.
Qed.

Lemma build_inverted_index_inv (docs : list Document) :
  postings_below (List.length docs)
    (HybridSearchEngine.build_inverted_index docs).
Proof.
  unfold HybridSearchEngine.build_inverted_index, enumerate.
  assert (G : forall l s index, postings_below s index ->
              postings_below (s + List.length l)
                (fold_left HybridSearchEngine.index_document
                           (enumerate_from s l) index)).
  { induction l as [|d l IH]; intros s index Hinv; simpl.
    - now rewrite Nat.add_0_r.
    - replace (s + S (List.length l))%nat with (S s + List.length l)%nat by lia.
      apply IH. now apply index_document_inv. }
  apply (G docs 0%nat []). intros token p Hp. discriminate Hp.
Qed.

Lemma posting_length_le (j : nat) (p : list nat) :
  NoDup p -> Forall (fun i => (i < j)%nat) p -> (List.length p <= j)%nat.
Proof.
  intros Hnd Hall.
  assert (H : (List.length p <= List.length (seq 0 j))%nat).
  { apply NoDup_incl_length; [exact Hnd|].
    intros i Hi. rewrite Forall_forall in Hall. apply in_seq.
    specialize (Hall i Hi). lia. }
  now rewrite length_seq in H.
Qed.

(** ** The smoothed inverse document frequency *)

Lemma smoothed_idf_ge_1 (n df : nat) : (df <= n)%nat -> 1 <= smoothed_idf n df.
Proof.
  intros H. unfold smoothed_idf.
  assert (Hdf : 0 < INR (df + 1)) by (apply lt_0_INR; lia).
  assert (Hle : INR (df + 1) <= INR (n + 1)) by (apply le_INR; lia).
  assert (H1 : 1 <= INR (n + 1) / INR (df + 1)).
  { apply (Rmult_le_reg_r (INR (df + 1))); [exact Hdf|].
    unfold Rdiv. rewrite Rmult_assoc, Rinv_l by lra. lra. }
  assert (H0 : 0 <= ln (INR (n + 1) / INR (df + 1))).
  { rewrite <- ln_1. destruct H1 as [H1|H1].
    - left. apply ln_increasing; lra.
    - rewrite <- H1. lra. }
  lra.
Qed.

(** ** The engine after [add_documents] *)

Definition indexed_from (e0 : HybridSearchEngine.t) (docs : list Document)
  : HybridSearchEngine.t :=
  {| HybridSearchEngine.semantic_weight :=
       HybridSearchEngine.semantic_weight e0;
     HybridSearchEngine.keyword_weight :=
       HybridSearchEngine.keyword_weight e0;
     HybridSearchEngine.vector_store := indexed_store docs;
     HybridSearchEngine.documents := docs;
     HybridSearchEngine._inverted_index :=
       Some (HybridSearchEngine.build_inverted_index docs) |}.

(** The engine [HybridSearchEngine(semantic_weight)] after
    [add_documents(docs)]. *)
Definition indexed (semantic_weight : R) (docs : list Document)
  : HybridSearchEngine.t :=
  indexed_from (HybridSearchEngine.init semantic_weight) docs.

Lemma add_documents_indexed (e0 : HybridSearchEngine.t)
    (docs : list Document) :
  HybridSearchEngine.add_documents e0 docs = (indexed_from e0 docs, Ok tt).
Proof.
  unfold HybridSearchEngine.add_documents.
  rewrite vs_add_documents_indexed. reflexivity.
Qed.

Lemma create_rag_engine_indexed (docs : list Document) (sw : R) :
  create_rag_engine docs sw = (indexed sw docs, Ok tt).
Proof. apply add_documents_indexed. Qed.

(** ** Keyword scoring *)

Definition Rsum (l : list R) : R := fold_right Rplus 0 l.

(** The weight one occurrence of a query token adds to document [d]. *)
Definition token_weight (docs : list Document) (d : nat) (token : string) : R :=
  match dict_get String.eqb (HybridSearchEngine.build_inverted_index docs)
                 token with
  | Some p =>
      if existsb (Nat.eqb d) p
      then smoothed_idf (List.length docs) (List.length p)
      else 0
  | None => 0
  end.

(** The loop of [_keyword_search] over the query tokens, on an indexed
    engine. *)
Definition keyword_token (docs : list Document) (scores : list (nat * R))
    (token : string) : list (nat * R) :=
  match dict_get String.eqb (HybridSearchEngine.build_inverted_index docs)
                 token with
  | Some p =>
      fold_left
        (HybridSearchEngine.score_add
           (smoothed_idf (List.length docs) (List.length p))) p scores
  | None => scores
  end.

Definition accumulated_scores (docs : list Document) (query : string)
  : list (nat * R) :=
  fold_left (keyword_token docs) (tokenize query) [].

Definition max_score (scores : list (nat * R)) : R :=
  match scores with
  | [] => 0
  | kv :: rest => py_max (snd kv) (map snd rest)
  end.

Definition keyword_scores (docs : list Document) (query : string)
  : list (nat * R) :=
  let acc := accumulated_scores docs query in
  map (fun kv => (fst kv, snd kv / max_score acc)) acc.

(** Accumulated scores: distinct keys, positions of the corpus, values at
    least 1. *)
Definition scores_ok (n : nat) (scores : list (nat * R)) : Prop :=
  NoDup (map fst scores)
  /\ Forall (fun kv => (fst kv < n)%nat /\ 1 <= snd kv) scores.

Lemma dict_set_Forall {K V : Type} (eqb : K -> K -> bool)
    (P : K * V -> Prop) (d : list (K * V)) (k : K) (v : V) :
  (forall a b, eqb a b = true <-> a = b) ->
  Forall P d -> P (k, v) -> Forall P (dict_set eqb d k v).
Proof.
  intros Hs Hd Hk. induction d as [|[k' v'] d IH]; simpl.
  - constructor; [exact Hk|constructor].
  - inversion Hd; subst. destruct (eqb k k') eqn:E.
    + apply Hs in E. subst. constructor; assumption.
    + constructor; auto.
Qed.

Lemma score_add_ok (n : nat) (idf : R) (scores : list (nat * R)) (d : nat) :
  1 <= idf -> (d < n)%nat -> scores_ok n scores ->
  scores_ok n (HybridSearchEngine.score_add idf scores d).
Proof.
  intros Hi Hd [Hnd Hall]. unfold HybridSearchEngine.score_add. split.
  - now apply (dict_set_NoDup _ Nat_eqb_spec).
  - apply dict_set_Forall; [apply Nat_eqb_spec|exact Hall|].
    simpl. split; [exact Hd|]. unfold dict_get_default.
    destruct (dict_get Nat.eqb scores d) as [v|] eqn:G; [|lra].
    apply (dict_get_In _ Nat_eqb_spec) in G.
    rewrite Forall_forall in Hall. specialize (Hall _ G). simpl in Hall. lra.
Qed.

Lemma score_add_get (idf : R) (p : list nat) :
  NoDup p ->
  forall scores d,
    dict_get_default Nat.eqb
      (fold_left (HybridSearchEngine.score_add idf) p scores) d 0
    = dict_get_default Nat.eqb scores d 0
      + (if existsb (Nat.eqb d) p then idf else 0).
Proof.
  induction 1 as [|i p Hi Hnd IH]; intros scores d; simpl; [lra|].
  rewrite IH. unfold HybridSearchEngine.score_add at 1.
  unfold dict_get_default at 1.
  destruct (Nat.eqb d i) eqn:E; simpl.
  - apply Nat.eqb_eq in E. subst d.
    rewrite (dict_get_set_same _ Nat_eqb_spec).
    replace (existsb (Nat.eqb i) p) with false; [lra|].
    symmetry. apply not_true_is_false. intros H.
    apply existsb_exists in H. destruct H as [x [Hx E]].
    apply Nat.eqb_eq in E. subst. contradiction.
  - apply Nat.eqb_neq in E.
    rewrite (dict_get_set_other _ Nat_eqb_spec) by exact E.
    reflexivity.
Qed.

Lemma keyword_token_ok (docs : list Document) scores token :
  scores_ok (List.length docs) scores ->
  scores_ok (List.length docs) (keyword_token docs scores token).
Proof.
  intros Hs. unfold keyword_token.
  destruct (dict_get String.eqb _ token) as [p|] eqn:G; [|exact Hs].
  destruct (build_inverted_index_inv docs _ _ G) as [Hnd Hall].
  assert (Hidf : 1 <= smoothed_idf (List.length docs) (List.length p))
    by (apply smoothed_idf_ge_1; now apply posting_length_le).
  revert Hidf. generalize (smoothed_idf (List.length docs) (List.length p)).
  intros idf Hidf. clear G Hnd. revert scores Hs.
  induction p as [|i p IH]; intros scores Hs; simpl; [exact Hs|].
  inversion Hall; subst. apply IH; [assumption|].
  now apply score_add_ok.
Qed.

Lemma accumulated_scores_ok (docs : list Document) (query : string) :
  scores_ok (List.length docs) (accumulated_scores docs query).
Proof.
  unfold accumulated_scores.
  assert (G : forall ts scores, scores_ok (List.length docs) scores ->
              scores_ok (List.length docs)
                        (fold_left (keyword_token docs) ts scores)).
  { induction ts as [|t ts IH]; intros scores Hs; simpl; [exact Hs|].
    apply IH. now apply keyword_token_ok. }
  apply G. split; constructor.
Qed.

Lemma accumulated_scores_get (docs : list Document) (query : string) (d : nat) :
  dict_get_default Nat.eqb (accumulated_scores docs query) d 0
  = Rsum (map (token_weight docs d) (tokenize query)).
Proof.
  unfold accumulated_scores.
  assert (G : forall ts scores,
              dict_get_default Nat.eqb
                (fold_left (keyword_token docs) ts scores) d 0
              = dict_get_default Nat.eqb scores d 0
                + Rsum (map (token_weight docs d) ts)).
  { induction ts as [|t ts IH]; intros scores; simpl; [lra|].
    rewrite IH. unfold keyword_token at 1, token_weight at 2.
    destruct (dict_get String.eqb _ t) as [p|] eqn:E; [|lra].
    destruct (build_inverted_index_inv docs _ _ E) as [Hnd _].
    rewrite score_add_get by exact Hnd. lra. }
  rewrite G. unfold dict_get_default. simpl. lra.
Qed.

Lemma py_max_ge_head (l : list R) (x : R) : x <= py_max x l.
Proof.
  revert x; induction l as [|y l IH]; intros x; simpl; [lra|].
  destruct (Rlt_dec x y); [|apply IH].
  apply Rle_trans with y; [lra|apply IH].
Qed.

Lemma py_max_ge (l : list R) (x y : R) : In y l -> y <= py_max x l.
Proof.
  revert x; induction l as [|z l IH]; intros x Hy; simpl; [contradiction|].
  destruct Hy as [->|Hy]; [|now apply IH].
  destruct (Rlt_dec x y).
  - apply py_max_ge_head.
  - apply Rle_trans with x; [lra|apply py_max_ge_head].
Qed.

Lemma py_max_In (l : list R) (x : R) : In (py_max x l) (x :: l).
Proof.
  revert x; induction l as [|y l IH]; intros x; simpl; [now left|].
  destruct (Rlt_dec x y).
  - right. apply IH.
  - destruct (IH x) as [H|H]; [now left|right; now right].
Qed.

Lemma max_score_ge (scores : list (nat * R)) (d : nat) (v : R) :
  In (d, v) scores -> v <= max_score scores.
Proof.
  destruct scores as [|[d0 v0] rest]; simpl; [contradiction|].
  intros [E|H].
  - inversion E; subst. apply py_max_ge_head.
  - apply py_max_ge. apply in_map_iff. now exists (d, v).
Qed.

Lemma max_score_In (scores : list (nat * R)) :
  scores <> [] -> In (max_score scores) (map snd scores).
Proof.
  destruct scores as [|[d0 v0] rest]; [congruence|]. intros _.
  simpl. apply py_max_In.
Qed.

Lemma max_score_ge_1 (n : nat) (scores : list (nat * R)) :
  scores_ok n scores -> scores <> [] -> 1 <= max_score scores.
Proof.
  intros [_ Hall] Hne. apply max_score_In in Hne.
  apply in_map_iff in Hne. destruct Hne as [[d v] [E Hin]].
  rewrite Forall_forall in Hall. specialize (Hall _ Hin).
  simpl in *. rewrite <- E. tauto.
Qed.

Lemma keyword_search_indexed (e0 : HybridSearchEngine.t)
    (docs : list Document) (query : string) :
  HybridSearchEngine._keyword_search (indexed_from e0 docs) query
  = Ok (keyword_scores docs query).
Proof.
  unfold HybridSearchEngine._keyword_search.
  destruct (foldM_Ok_fold (fun _ => True)
              (HybridSearchEngine._keyword_token (indexed_from e0 docs))
              (keyword_token docs) (tokenize query)) with (b := @nil (nat * R))
    as [E _].
  - intros scores token _ _. split; [|exact I].
    unfold HybridSearchEngine._keyword_token, keyword_token. simpl.
    destruct (dict_get String.eqb _ token); reflexivity.
  - exact I.
  - rewrite E. simpl. unfold keyword_scores.
    fold (accumulated_scores docs query).
    pose proof (accumulated_scores_ok docs query) as Hok.
    destruct (accumulated_scores docs query) as [|kv rest] eqn:Hacc;
      [reflexivity|].
    assert (Hm : 1 <= max_score (kv :: rest))
      by (eapply max_score_ge_1; [exact Hok|discriminate]).
    change (py_max (snd kv) (map snd rest)) with (max_score (kv :: rest)).
    apply mapM_Ok_map. intros kv' _. unfold py_div.
    destruct (Req_dec_T (max_score (kv :: rest)) 0) as [H0|_]; [lra|].
    reflexivity.
Qed.

(** C5. On every indexed corpus of N documents, [_keyword_search] returns
    without raising; it accumulates, for each occurrence of a query token
    that is in the inverted index, the weight
    ln((N+1)/(posting_count+1)) + 1 on every document of the token's posting
    list (again for a repeated token), divides every accumulated score by the
    largest one, so that every returned value lies in [0, 1]; and when no
    query token is in the index the result is the empty mapping. *)
Theorem keyword_search_scoring (e0 : HybridSearchEngine.t)
    (docs : list Document) (query : string) :
  let e := fst (HybridSearchEngine.add_documents e0 docs) in
  let index := HybridSearchEngine.build_inverted_index docs in
  exists acc : list (nat * R),
    HybridSearchEngine._inverted_index e = Some index
    /\ NoDup (map fst acc)
    /\ (forall d,
          dict_get_default Nat.eqb acc d 0
          = Rsum (map (fun token =>
                         match dict_get String.eqb index token with
                         | Some posting =>
                             if existsb (Nat.eqb d) posting
                             then ln (INR (List.length docs + 1)
                                      / INR (List.length posting + 1)) + 1
                             else 0
                         | None => 0
                         end) (tokenize query)))
    /\ (forall d v, In (d, v) acc -> v <= max_score acc)
    /\ (acc <> [] -> In (max_score acc) (map snd acc))
    /\ HybridSearchEngine._keyword_search e query
       = Ok (map (fun kv => (fst kv, snd kv / max_score acc)) acc)
    /\ (forall d v, In (d, v) acc -> 0 <= v / max_score acc <= 1)
    /\ ((forall token, In token (tokenize query) ->
                       dict_get String.eqb index token = None) ->
        HybridSearchEngine._keyword_search e query = Ok []).
Proof.
  intros e index. subst e. rewrite add_documents_indexed. simpl fst.
  exists (accumulated_scores docs query).
  pose proof (accumulated_scores_ok docs query) as Hok.
  split; [reflexivity|]. split; [apply Hok|].
  split; [intros d; apply accumulated_scores_get|].
  split; [apply max_score_ge|]. split; [apply max_score_In|].
  split; [apply keyword_search_indexed|]. split.
  - intros d v Hin.
    assert (Hne : accumulated_scores docs query <> [])
      by (intros E; rewrite E in Hin; contradiction).
    pose proof (max_score_ge_1 _ _ Hok Hne) as Hm.
    pose proof (max_score_ge _ _ _ Hin) as Hv.
    destruct Hok as [_ Hall]. rewrite Forall_forall in Hall.
    specialize (Hall _ Hin). simpl in Hall.
    split.
    + apply Rmult_le_pos; [lra|]. left. apply Rinv_0_lt_compat. lra.
    + apply (Rmult_le_reg_r (max_score (accumulated_scores docs query)));
        [lra|].
      unfold Rdiv. rewrite Rmult_assoc, Rinv_l by lra. lra.
  - intros Hnone. rewrite keyword_search_indexed.
    unfold keyword_scores, accumulated_scores.
    replace (fold_left (keyword_token docs) (tokenize query) []) with
      (@nil (nat * R)); [reflexivity|].
    clear Hok. revert Hnone. generalize (tokenize query) as ts.
    induction ts as [|t ts IH]; intros Hnone; simpl; [reflexivity|].
    unfold keyword_token at 2. fold index.
    rewrite (Hnone t (or_introl eq_refl)). apply IH.
    intros token Ht. apply Hnone. now right.
Qed.

(** Evaluation of the list, string and counting parts of a term; the
    operations on real numbers are left as they stand. *)
Ltac eval_discrete :=
  cbv -[Rplus Rmult Rdiv Rinv Rminus Ropp ln sqrt INR IZR Int_part
        Rlt_dec Req_dec_T round4 round_half_even].

(** A corpus of two documents without ids. *)
Definition fruit_docs : list Document :=
  [ {| doc_id := None; doc_content := Some "apple" |};
    {| doc_id := None; doc_content := Some "banana" |} ].

(** C10. When keyword scoring on an indexed corpus returns a non-empty
    mapping, every value of the mapping is strictly positive, the value 1 is
    attained and no value exceeds it. *)
Theorem keyword_scores_max_is_one (e0 : HybridSearchEngine.t)
    (docs : list Document) (query : string) (scores : list (nat * R)) :
  HybridSearchEngine._keyword_search
    (fst (HybridSearchEngine.add_documents e0 docs)) query = Ok scores ->
  scores <> [] ->
  (forall d v, In (d, v) scores -> 0 < v)
  /\ (exists d, In (d, 1) scores)
  /\ (forall d v, In (d, v) scores -> v <= 1).
Proof.
  rewrite add_documents_indexed. simpl fst.
  rewrite keyword_search_indexed. intros E Hne. inversion E; subst scores.
  clear E. unfold keyword_scores in *.
  pose proof (accumulated_scores_ok docs query) as Hok.
  set (acc := accumulated_scores docs query) in *.
  assert (Hacc : acc <> []) by (intros E; rewrite E in Hne; now apply Hne).
  pose proof (max_score_ge_1 _ _ Hok Hacc) as Hm.
  destruct Hok as [_ Hall]. rewrite Forall_forall in Hall.
  assert (Hdiv : forall d v, In (d, v) (map (fun kv => (fst kv, snd kv / max_score acc)) acc) ->
                 exists v0, In (d, v0) acc /\ v = v0 / max_score acc).
  { intros d v Hin. apply in_map_iff in Hin.
    destruct Hin as [[d0 v0] [E Hin]]. simpl in E. inversion E; subst.
    now exists v0. }
  split; [|split].
  - intros d v Hin. destruct (Hdiv _ _ Hin) as [v0 [Hin0 ->]].
    specialize (Hall _ Hin0). simpl in Hall.
    apply Rmult_lt_0_compat; [lra|]. apply Rinv_0_lt_compat. lra.
  - apply max_score_In in Hacc. apply in_map_iff in Hacc.
    destruct Hacc as [[d v] [E Hin]]. simpl in E. exists d.
    apply in_map_iff. exists (d, v). split; [|exact Hin]. simpl.
    rewrite E. f_equal. unfold Rdiv. apply Rinv_r. lra.
  - intros d v Hin. destruct (Hdiv _ _ Hin) as [v0 [Hin0 ->]].
    pose proof (max_score_ge _ _ _ Hin0) as Hv.
    apply (Rmult_le_reg_r (max_score acc)); [lra|].
    unfold Rdiv. rewrite Rmult_assoc, Rinv_l by lra. lra.
Qed.

Lemma keyword_scores_max_is_one_witness :
  exists d, In (d, 1) (keyword_scores fruit_docs "banana").
Proof.
  refine (proj1 (proj2 (keyword_scores_max_is_one
                          (HybridSearchEngine.init (7 / 10)) fruit_docs
                          "banana" (keyword_scores fruit_docs "banana") _ _))).
  - rewrite add_documents_indexed. apply keyword_search_indexed.
  - eval_discrete. discriminate.
Defined.

(** ** Search before any [add_documents] *)

(** The engines on which [add_documents] was never called: a new engine,
    and what earlier calls of [search] left of it. *)
Inductive never_indexed : HybridSearchEngine.t -> Prop :=
| never_new (semantic_weight : R) :
    never_indexed (HybridSearchEngine.init semantic_weight)
| never_search (e : HybridSearchEngine.t) (query : string) (top_k : Z) :
    never_indexed e ->
    never_indexed (fst (HybridSearchEngine.search e query top_k)).

Lemma encode_one_Ok (emb : SimpleEmbedder.t) (query : string) :
  (SimpleEmbedder.fitted emb = true -> vocab_ok emb) ->
  exists emb' v,
    SimpleEmbedder.encode emb [query] = (emb', Ok [v])
    /\ SimpleEmbedder.fitted emb' = true /\ vocab_ok emb'.
Proof.
  intros Hv. destruct (SimpleEmbedder.fitted emb) eqn:Hf.
  - rewrite encode_fitted by auto.
    eexists _, _. split; [reflexivity|]. split; [exact Hf|auto].
  - rewrite encode_unfitted by auto.
    eexists _, _. split; [reflexivity|]. split; [reflexivity|].
    apply fit_vocab_ok.
Qed.

Lemma search_without_vectors (e : HybridSearchEngine.t) (query : string)
    (top_k : Z) :
  FAISSVectorStore._vectors (HybridSearchEngine.vector_store e) = None ->
  (SimpleEmbedder.fitted
     (FAISSVectorStore.embedder (HybridSearchEngine.vector_store e)) = true ->
   vocab_ok (FAISSVectorStore.embedder (HybridSearchEngine.vector_store e))) ->
  let e' := fst (HybridSearchEngine.search e query top_k) in
  snd (HybridSearchEngine.search e query top_k)
  = Raise (AttributeError "_vectors")
  /\ FAISSVectorStore._vectors (HybridSearchEngine.vector_store e') = None
  /\ vocab_ok (FAISSVectorStore.embedder (HybridSearchEngine.vector_store e')).
Proof.
  intros Hn Hv.
  destruct (encode_one_Ok _ query Hv) as (emb' & v & E & _ & Hv').
  unfold HybridSearchEngine.search, FAISSVectorStore.search.
  simpl emb_encode. rewrite E. simpl.
  unfold FAISSVectorStore._brute_force_search. simpl. rewrite Hn.
  auto.
Qed.

Lemma never_indexed_inv (e : HybridSearchEngine.t) :
  never_indexed e ->
  FAISSVectorStore._vectors (HybridSearchEngine.vector_store e) = None
  /\ (SimpleEmbedder.fitted
        (FAISSVectorStore.embedder (HybridSearchEngine.vector_store e)) = true ->
      vocab_ok (FAISSVectorStore.embedder (HybridSearchEngine.vector_store e))).
Proof.
  induction 1 as [sw|e query top_k _ [Hn Hv]].
  - split; [reflexivity|]. intros _. apply init_vocab_ok.
  - destruct (search_without_vectors e query top_k Hn Hv) as (_ & Hn' & Hv').
    split; [exact Hn'|]. intros _. exact Hv'.
Qed.

(** C2, as the code has it.  On an engine on which [add_documents] was never
    called, [search] raises for every query and every [top_k]; what it raises
    is the [AttributeError] of reading the attribute [_vectors], which only
    [add_documents] creates. *)
Theorem search_never_indexed (e : HybridSearchEngine.t) (query : string)
    (top_k : Z) :
  never_indexed e ->
  snd (HybridSearchEngine.search e query top_k)
  = Raise (AttributeError "_vectors").
Proof.
  intros H. destruct (never_indexed_inv e H) as [Hn Hv].
  apply (search_without_vectors e query top_k Hn Hv).
Qed.

Lemma search_never_indexed_witness :
  snd (HybridSearchEngine.search (HybridSearchEngine.init (7 / 10)) "returns" 5)
  = Raise (AttributeError "_vectors").
Proof.
  apply (search_never_indexed (HybridSearchEngine.init (7 / 10)) "returns" 5).
  apply never_new.
Defined.

(** C2 as the specification states it fails: a new engine does not raise
    [IndexNotBuilt]. *)
Lemma search_new_engine_not_IndexNotBuilt :
  snd (HybridSearchEngine.search (HybridSearchEngine.init (7 / 10)) "returns" 5)
  <> Raise IndexNotBuilt.
Proof.
  destruct (search_without_vectors (HybridSearchEngine.init (7 / 10))
              "returns" 5 eq_refl (fun _ => init_vocab_ok)) as [E _].
  rewrite E. discriminate.
Qed.

(** ** Search on an indexed engine *)

(** The body of the second merge loop when the position is in the corpus. *)
Definition merge_keyword_at (docs : list Document)
    (merged : list (DocKey * Merged)) (ks : nat * R)
  : list (DocKey * Merged) :=
  let doc := nth (fst ks) docs no_document in
  let doc_id := id_of doc (fst ks) in
  match dict_get DocKey_eqb merged doc_id with
  | Some data =>
      dict_set DocKey_eqb merged doc_id
        {| m_document := m_document data;
           m_semantic_score := m_semantic_score data;
           m_keyword_score := snd ks |}
  | None =>
      dict_set DocKey_eqb merged doc_id
        {| m_document := doc;
           m_semantic_score := 0;
           m_keyword_score := snd ks |}
  end.

(** The [merged] dict after the first loop, and after both. *)
Definition merged_semantic (docs : list Document) (query : string) (top_k : Z)
  : list (DocKey * Merged) :=
  fold_left HybridSearchEngine.merge_semantic
    (enumerate (vector_results docs query (top_k * 2))) [].

Definition merged_dict (docs : list Document) (query : string) (top_k : Z)
  : list (DocKey * Merged) :=
  fold_left (merge_keyword_at docs) (keyword_scores docs query)
    (merged_semantic docs query top_k).

(** The list [search] returns on the engine indexed with [docs]. *)
Definition search_results (e0 : HybridSearchEngine.t) (docs : list Document)
    (query : string) (top_k : Z) : list SearchResult :=
  HybridSearchEngine.rank (indexed_from e0 docs)
    (merged_dict docs query top_k) top_k.

Lemma keyword_scores_keys (docs : list Document) (query : string) (d : nat)
    (v : R) :
  In (d, v) (keyword_scores docs query) -> (d < List.length docs)%nat.
Proof.
  unfold keyword_scores. intros H. apply in_map_iff in H.
  destruct H as [[d0 v0] [E Hin]]. simpl in E. inversion E; subst.
  destruct (accumulated_scores_ok docs query) as [_ Hall].
  rewrite Forall_forall in Hall. apply (Hall _ Hin).
Qed.

Lemma keyword_scores_NoDup (docs : list Document) (query : string) :
  NoDup (map fst (keyword_scores docs query)).
Proof.
  unfold keyword_scores. rewrite map_map. simpl.
  apply (accumulated_scores_ok docs query).
Qed.

Lemma merge_indexed (e0 : HybridSearchEngine.t) (docs : list Document)
    (query : string) (sem : list VectorResult) :
  HybridSearchEngine.merge (indexed_from e0 docs) sem
    (keyword_scores docs query)
  = Ok (fold_left (merge_keyword_at docs) (keyword_scores docs query)
          (fold_left HybridSearchEngine.merge_semantic (enumerate sem) [])).
Proof.
  unfold HybridSearchEngine.merge.
  apply (foldM_Ok_fold (fun _ => True)); [|exact I].
  intros merged [d v] Hin _. split; [|exact I].
  unfold HybridSearchEngine.merge_keyword, merge_keyword_at. simpl.
  rewrite (py_index_nth docs d no_document (keyword_scores_keys _ _ _ _ Hin)).
  simpl. destruct (dict_get DocKey_eqb merged _); reflexivity.
Qed.

Lemma search_indexed (e0 : HybridSearchEngine.t) (docs : list Document)
    (query : string) (top_k : Z) :
  HybridSearchEngine.search (indexed_from e0 docs) query top_k
  = (indexed_from e0 docs, Ok (search_results e0 docs query top_k)).
Proof.
  unfold HybridSearchEngine.search.
  simpl HybridSearchEngine.vector_store. rewrite vs_search_indexed.
  simpl. fold (indexed_from e0 docs). f_equal.
  rewrite keyword_search_indexed. simpl.
  rewrite merge_indexed. reflexivity.
Qed.

(** ** [add_documents] with an empty list *)

(** C6, as the code has it.  [add_documents([])] does not raise on any
    engine: it returns normally and leaves an index over the empty corpus,
    with an empty vocabulary, no vectors and an empty inverted index, on
    which every search returns the empty list. *)
Theorem add_documents_empty_accepted (e0 : HybridSearchEngine.t)
    (query : string) (top_k : Z) :
  let e := fst (HybridSearchEngine.add_documents e0 []) in
  snd (HybridSearchEngine.add_documents e0 []) = Ok tt
  /\ HybridSearchEngine.documents e = []
  /\ SimpleEmbedder.vocab
       (FAISSVectorStore.embedder (HybridSearchEngine.vector_store e)) = []
  /\ FAISSVectorStore._vectors (HybridSearchEngine.vector_store e) = Some []
  /\ HybridSearchEngine._inverted_index e = Some []
  /\ snd (HybridSearchEngine.search e query top_k) = Ok [].
Proof.
  intros e. subst e. rewrite add_documents_indexed.
  unfold fst at 1 2 3 4 5, snd at 1.
  do 5 (split; [reflexivity|]).
  rewrite search_indexed. simpl snd. f_equal.
  unfold search_results, HybridSearchEngine.rank, merged_dict.
  assert (Hk : keyword_scores [] query = []).
  { pose proof (keyword_scores_keys [] query) as Hk.
    destruct (keyword_scores [] query) as [|[d v] l]; [reflexivity|].
    specialize (Hk d v (or_introl eq_refl)). simpl in Hk. lia. }
  rewrite Hk. simpl fold_left at 1.
  assert (Hs : vector_results [] query (top_k * 2) = []).
  { unfold vector_results.
    pose proof (semantic_scores_length [] query) as Hl.
    destruct (semantic_scores [] query); [|discriminate Hl].
    unfold py_slice_to. destruct (0 <=? top_k * 2)%Z; simpl;
      rewrite ?firstn_nil; reflexivity. }
  unfold merged_semantic. rewrite Hs. simpl.
  unfold py_slice_to. destruct (0 <=? top_k)%Z; simpl;
    rewrite ?firstn_nil; reflexivity.
Qed.

(** C6 as the specification states it fails: the empty list is not rejected
    with [EmptyCorpus]. *)
Lemma add_documents_empty_not_EmptyCorpus :
  snd (HybridSearchEngine.add_documents (HybridSearchEngine.init (7 / 10)) [])
  <> Raise EmptyCorpus.
Proof.
  rewrite add_documents_indexed. discriminate.
Qed.

(** ** Dimensions of the stored vectors *)

(** An embedder of the caller's, as [FAISSVectorStore(embedder=...)] takes
    one: it has no state and gives a text one coordinate per character. *)
Inductive CharEmbedder : Type := char_embedder.

Definition char_encode (texts : list string) : list (list R) :=
  map (fun text => repeat 1 (String.length text)) texts.

#[export] Instance CharEmbedder_Embedder : Embedder CharEmbedder := {
  emb_fit := fun self _ => (self, Ok tt);
  emb_encode := fun self texts => (self, Ok (char_encode texts))
}.

Definition short_and_long : list Document :=
  [ {| doc_id := None; doc_content := Some "a" |};
    {| doc_id := None; doc_content := Some "bb" |} ].

(** C7 as the specification states it fails: vectors of lengths 1 and 2 are
    stored by [add_documents], which returns normally. *)
Lemma add_documents_stores_mismatched_vectors :
  let r := FAISSVectorStore.add_documents
             (FAISSVectorStore.init char_embedder) short_and_long in
  snd r = Ok tt
  /\ FAISSVectorStore._vectors (fst r) = Some [[1]; [1; 1]]
  /\ snd r <> Raise DimensionMismatch.
Proof.
  split; [reflexivity|]. split; [reflexivity|]. discriminate.
Qed.

Lemma text_vector_length (emb : SimpleEmbedder.t) (text : string) :
  List.length (text_vector emb text)
  = List.length (SimpleEmbedder.vocab emb).
Proof.
  unfold text_vector. now rewrite normalize_length, raw_vector_length.
Qed.

(** C7, as the code has it.  On the fallback path of the vector store
    ([faiss] not importable), [FAISSVectorStore.add_documents] makes no check
    of dimensions and never raises [DimensionMismatch] itself: it raises only
    what the embedder's [fit] raises or, when [fit] returns, what the
    embedder's [encode] raises, leaving [_vectors] as it was; when neither
    raises it returns normally and stores the vectors [encode] returned as
    they are.  With the frequency embedder, the one [HybridSearchEngine]
    uses, the call returns normally and every stored vector has the length
    of the fitted vocabulary. *)
Theorem add_documents_stores_encoded :
  (forall (E : Type) (HE : Embedder E) (vs : FAISSVectorStore.t E)
          (docs : list Document),
      let texts := map content_of docs in
      let f := emb_fit (FAISSVectorStore.embedder vs) texts in
      let r := emb_encode (fst f) texts in
      snd (FAISSVectorStore.add_documents vs docs)
      = match snd f with
        | Raise e => Raise e
        | Ok _ =>
            match snd r with
            | Ok _ => Ok tt
            | Raise e => Raise e
            end
        end
      /\ FAISSVectorStore._vectors (fst (FAISSVectorStore.add_documents vs docs))
         = match snd f with
           | Raise _ => FAISSVectorStore._vectors vs
           | Ok _ =>
               match snd r with
               | Ok vectors => Some vectors
               | Raise _ => FAISSVectorStore._vectors vs
               end
           end)
  /\ (forall (vs : FAISSVectorStore.t SimpleEmbedder.t)
             (docs : list Document),
         let vs' := fst (FAISSVectorStore.add_documents vs docs) in
         snd (FAISSVectorStore.add_documents vs docs) = Ok tt
         /\ exists vectors,
              FAISSVectorStore._vectors vs' = Some vectors
              /\ List.length vectors = List.length docs
              /\ Forall (fun v =>
                           List.length v
                           = List.length (SimpleEmbedder.vocab
                                            (FAISSVectorStore.embedder vs')))
                        vectors).
Proof.
  split.
  - intros E HE vs docs texts f r. subst r f texts.
    unfold FAISSVectorStore.add_documents.
    destruct (emb_fit _ _) as [emb [u|e]]; simpl; [|auto].
    destruct (emb_encode _ _) as [emb' [vectors|e]]; simpl; auto.
  - intros vs docs vs'. subst vs'. rewrite vs_add_documents_indexed.
    simpl. split; [reflexivity|]. exists (doc_vectors docs).
    split; [reflexivity|]. split; [apply doc_vectors_length|].
    unfold doc_vectors. apply Forall_forall. intros v Hv.
    apply in_map_iff in Hv. destruct Hv as [text [<- _]].
    apply text_vector_length.
Qed.

(** ** Sums of squares and normalisation *)

Lemma fold_left_Rplus_acc (l : list R) (a : R) :
  fold_left Rplus l a = a + py_sum l.
Proof.
  unfold py_sum. revert a. induction l as [|x l IH]; intros a; simpl; [lra|].
  rewrite IH, (IH (0 + x)). lra.
Qed.

Lemma py_sum_cons (x : R) (l : list R) : py_sum (x :: l) = x + py_sum l.
Proof.
  unfold py_sum at 1. simpl. rewrite fold_left_Rplus_acc. lra.
Qed.

Lemma sum_squares_cons (x : R) (v : list R) :
  sum_squares (x :: v) = x * x + sum_squares v.
Proof. unfold sum_squares. simpl. apply py_sum_cons. Qed.

Lemma sum_squares_nonneg (v : list R) : 0 <= sum_squares v.
Proof.
  induction v as [|x v IH]; [unfold sum_squares, py_sum; simpl; lra|].
  rewrite sum_squares_cons. nra.
Qed.

Lemma sum_squares_zero (v : list R) :
  sum_squares v = 0 -> v = repeat 0 (List.length v).
Proof.
  induction v as [|x v IH]; [reflexivity|].
  rewrite sum_squares_cons. intros H.
  pose proof (sum_squares_nonneg v) as Hv.
  assert (Hx : x = 0) by nra. subst x. simpl. f_equal. apply IH. nra.
Qed.

Lemma sum_squares_repeat_0 (n : nat) : sum_squares (repeat 0 n) = 0.
Proof.
  induction n as [|n IH]; [unfold sum_squares, py_sum; reflexivity|].
  simpl. rewrite sum_squares_cons, IH. lra.
Qed.

Lemma sum_squares_scale (c : R) (v : list R) :
  sum_squares (map (fun x => x * c) v) = c * c * sum_squares v.
Proof.
  induction v as [|x v IH]; [unfold sum_squares, py_sum; simpl; lra|].
  simpl. rewrite !sum_squares_cons, IH. lra.
Qed.

Lemma sum_squares_pos (v : list R) :
  Exists (fun x => 0 < x) v -> 0 < sum_squares v.
Proof.
  induction 1 as [x v Hx|x v _ IH]; rewrite sum_squares_cons.
  - pose proof (sum_squares_nonneg v). nra.
  - nra.
Qed.

(** A vector of norm zero is left as it is, and is the zero vector. *)
Lemma normalize_zero (v : list R) :
  sqrt (sum_squares v) = 0 -> normalize v = repeat 0 (List.length v).
Proof.
  intros H. apply sqrt_eq_0 in H; [|apply sum_squares_nonneg].
  unfold normalize. rewrite H, sqrt_0. unfold or_one.
  destruct (Req_dec_T 0 0) as [_|N]; [|contradiction].
  apply sum_squares_zero in H. rewrite H at 1.
  rewrite map_repeat. f_equal. lra.
Qed.

(** Any other vector is brought to norm 1. *)
Lemma normalize_unit (v : list R) :
  sqrt (sum_squares v) <> 0 -> sqrt (sum_squares (normalize v)) = 1.
Proof.
  intros H. unfold normalize, or_one.
  destruct (Req_dec_T (sqrt (sum_squares v)) 0) as [E|_]; [contradiction|].
  change (map (fun x => x / sqrt (sum_squares v)) v)
    with (map (fun x => x * / sqrt (sum_squares v)) v).
  rewrite sum_squares_scale.
  pose proof (sum_squares_nonneg v) as Hn.
  replace (/ sqrt (sum_squares v) * / sqrt (sum_squares v) * sum_squares v)
    with 1; [apply sqrt_1|].
  rewrite <- (sqrt_sqrt (sum_squares v) Hn) at 3. field. exact H.
Qed.

(** Scaling by a positive factor does not change the normalised vector. *)
Lemma normalize_scale (c : R) (v : list R) :
  0 < c -> normalize (map (fun x => x * c) v) = normalize v.
Proof.
  intros Hc. pose proof (sum_squares_nonneg v) as Hn.
  unfold normalize. rewrite sum_squares_scale.
  rewrite sqrt_mult by nra. rewrite sqrt_square by lra.
  unfold or_one.
  destruct (Req_dec_T (sqrt (sum_squares v)) 0) as [E|N].
  - rewrite E, Rmult_0_r.
    destruct (Req_dec_T 0 0) as [_|N]; [|contradiction].
    apply sqrt_eq_0 in E; [|exact Hn]. apply sum_squares_zero in E.
    rewrite E. rewrite !map_repeat. f_equal. lra.
  - destruct (Req_dec_T (c * sqrt (sum_squares v)) 0) as [E|_]; [nra|].
    rewrite map_map. apply map_ext. intros x. field. split; lra.
Qed.

(** ** Counters *)

Lemma counter_incr_nil (t : string) : counter_incr [] t = [(t, 1%nat)].
Proof. reflexivity. Qed.

Lemma counter_incr_cons (k : string) (v : nat) (c : list (string * nat))
    (t : string) :
  counter_incr ((k, v) :: c) t
  = if String.eqb t k then (k, (v + 1)%nat) :: c
    else (k, v) :: counter_incr c t.
Proof.
  unfold counter_incr, dict_get_default. simpl.
  destruct (String.eqb t k); reflexivity.
Qed.

Lemma counter_incr_filter (p : string -> bool) (c : list (string * nat))
    (t : string) :
  filter (fun kv => p (fst kv)) (counter_incr c t)
  = if p t then counter_incr (filter (fun kv => p (fst kv)) c) t
    else filter (fun kv => p (fst kv)) c.
Proof.
  induction c as [|[k v] c IH].
  - rewrite counter_incr_nil. simpl. destruct (p t); reflexivity.
  - rewrite counter_incr_cons. destruct (String.eqb t k) eqn:E.
    + apply String.eqb_eq in E. subst k. simpl.
      destruct (p t); [|reflexivity].
      rewrite counter_incr_cons, String.eqb_refl. reflexivity.
    + simpl. rewrite IH. destruct (p k), (p t); try reflexivity.
      rewrite counter_incr_cons, E. reflexivity.
Qed.

Lemma Counter_filter (p : string -> bool) (tokens : list string) :
  Counter (filter p tokens)
  = filter (fun kv => p (fst kv)) (Counter tokens).
Proof.
  unfold Counter.
  assert (G : forall ts acc,
             fold_left counter_incr (filter p ts)
                       (filter (fun kv => p (fst kv)) acc)
             = filter (fun kv => p (fst kv)) (fold_left counter_incr ts acc)).
  { induction ts as [|t ts IH]; intros acc; simpl; [reflexivity|].
    rewrite <- IH, counter_incr_filter.
    destruct (p t); reflexivity. }
  apply (G tokens []).
Qed.

(** A counter holds tokens of the list, each once, with a count of at
    least one. *)
Definition counter_ok (tokens : list string) (c : list (string * nat)) : Prop :=
  Forall (fun kv => In (fst kv) tokens /\ (1 <= snd kv)%nat) c.

Lemma Counter_ok (tokens : list string) : counter_ok tokens (Counter tokens).
Proof.
  unfold Counter, counter_ok.
  assert (G : forall ts acc,
             Forall (fun kv => In (fst kv) tokens /\ (1 <= snd kv)%nat) acc ->
             incl ts tokens ->
             Forall (fun kv => In (fst kv) tokens /\ (1 <= snd kv)%nat)
                    (fold_left counter_incr ts acc)).
  { induction ts as [|t ts IH]; intros acc Ha Hi; simpl; [exact Ha|].
    apply IH; [|intros x Hx; apply Hi; now right].
    unfold counter_incr. apply dict_set_Forall; [apply String_eqb_spec|exact Ha|].
    simpl. split; [apply Hi; now left|lia]. }
  apply G; [constructor|apply incl_refl].
Qed.

(** ** Terms outside the vocabulary *)

Definition in_vocab (self : SimpleEmbedder.t) (token : string) : bool :=
  dict_mem String.eqb (SimpleEmbedder.vocab self) token.

Lemma fold_left_filter {A B : Type} (f : B -> A -> B) (p : A -> bool)
    (l : list A) :
  (forall b x, p x = false -> f b x = b) ->
  forall b, fold_left f l b = fold_left f (filter p l) b.
Proof.
  intros Hf. induction l as [|x l IH]; intros b; simpl; [reflexivity|].
  destruct (p x) eqn:E; simpl; [apply IH|].
  rewrite (Hf b x E). apply IH.
Qed.

Lemma list_update_map {A B : Type} (f : A -> B) (l : list A) (i : nat) (v : A) :
  list_update (map f l) i (f v) = map f (list_update l i v).
Proof.
  revert i; induction l as [|x l IH]; intros [|i]; simpl; try reflexivity.
  now rewrite IH.
Qed.

Lemma raw_term_out_of_vocab self tokens vec tc :
  in_vocab self (fst tc) = false -> raw_term self tokens vec tc = vec.
Proof.
  unfold in_vocab, dict_mem, raw_term.
  destruct (dict_get String.eqb _ _); [discriminate|reflexivity].
Qed.

Lemma raw_fold_scale self (tokens tokens' : list string) :
  INR (List.length tokens) <> 0 -> INR (List.length tokens') <> 0 ->
  forall tf vec,
    fold_left (raw_term self tokens) tf
      (map (fun x => x * (INR (List.length tokens')
                          / INR (List.length tokens))) vec)
    = map (fun x => x * (INR (List.length tokens')
                         / INR (List.length tokens)))
          (fold_left (raw_term self tokens') tf vec).
Proof.
  intros Hn Hn'. induction tf as [|tc tf IH]; intros vec; simpl; [reflexivity|].
  rewrite <- IH. f_equal. unfold raw_term.
  destruct (dict_get String.eqb _ _) as [idx|]; [|reflexivity].
  rewrite <- list_update_map. f_equal. field. split; assumption.
Qed.

(** The tokens that are not in the vocabulary do not change the vector of a
    text. *)
Lemma raw_vector_in_vocab_only (self : SimpleEmbedder.t)
    (tokens : list string) :
  normalize (raw_vector self tokens)
  = normalize (raw_vector self (filter (in_vocab self) tokens)).
Proof.
  remember (filter (in_vocab self) tokens) as tokens' eqn:Ht.
  assert (E : raw_vector self tokens
              = fold_left (raw_term self tokens) (Counter tokens')
                  (repeat 0 (List.length (SimpleEmbedder.vocab self)))).
  { unfold raw_vector.
    rewrite (fold_left_filter _ (fun kv => in_vocab self (fst kv)))
      by (intros; now apply raw_term_out_of_vocab).
    now rewrite Ht, Counter_filter. }
  rewrite E. unfold raw_vector.
  destruct tokens' as [|t ts]; [reflexivity|].
  assert (Hl' : (0 < List.length (t :: ts))%nat) by (simpl; lia).
  assert (Hl : (List.length (t :: ts) <= List.length tokens)%nat)
    by (rewrite Ht; apply filter_length_le).
  assert (Hn' : 0 < INR (List.length (t :: ts))) by (apply lt_0_INR; lia).
  assert (Hn : 0 < INR (List.length tokens)) by (apply lt_0_INR; lia).
  set (c := INR (List.length (t :: ts)) / INR (List.length tokens)).
  replace (repeat 0 (List.length (SimpleEmbedder.vocab self)))
    with (map (fun x => x * c)
              (repeat 0 (List.length (SimpleEmbedder.vocab self)))) at 1
    by (rewrite map_repeat; f_equal; lra).
  unfold c. rewrite raw_fold_scale by lra.
  apply normalize_scale. apply Rdiv_lt_0_compat; assumption.
Qed.

(** ** Document frequencies and the weights of [fit] *)

Lemma count_tokens_inv (j : nat) (tokens : list string) :
  NoDup tokens ->
  forall df,
    Forall (fun kv => (snd kv <= S j)%nat
                      /\ (snd kv = S j -> ~ In (fst kv) tokens)) df ->
    Forall (fun kv => (snd kv <= S j)%nat) (fold_left counter_incr tokens df).
Proof.
  induction 1 as [|t tokens Ht Hnd IH]; intros df Hdf; simpl.
  - eapply Forall_impl; [|exact Hdf]. simpl. tauto.
  - apply IH. unfold counter_incr.
    apply dict_set_Forall; [apply String_eqb_spec| |].
    + eapply Forall_impl; [|exact Hdf]. simpl. intros kv [H1 H2].
      split; [exact H1|]. intros E Hin. apply (H2 E). now right.
    + simpl. unfold dict_get_default.
      destruct (dict_get String.eqb df t) as [v|] eqn:G.
      * apply (dict_get_In _ String_eqb_spec) in G.
        rewrite Forall_forall in Hdf. destruct (Hdf _ G) as [H1 H2].
        simpl in *. split; [|intros _; exact Ht].
        destruct (Nat.eq_dec v (S j)) as [E|N]; [|lia].
        exfalso. apply (H2 E). now left.
      * split; [lia|intros _; exact Ht].
Qed.

Lemma doc_freq_bound (documents : list string) :
  Forall (fun kv => (snd kv <= List.length documents)%nat)
         (fold_left SimpleEmbedder.count_document documents []).
Proof.
  assert (G : forall l j df,
             Forall (fun kv => (snd kv <= j)%nat) df ->
             Forall (fun kv => (snd kv <= j + List.length l)%nat)
                    (fold_left SimpleEmbedder.count_document l df)).
  { induction l as [|d l IH]; intros j df Hdf; simpl.
    - now rewrite Nat.add_0_r.
    - replace (j + S (List.length l))%nat with (S j + List.length l)%nat by lia.
      apply IH. unfold SimpleEmbedder.count_document.
      apply count_tokens_inv; [apply py_set_NoDup|].
      eapply Forall_impl; [|exact Hdf]. simpl. intros kv H. split; lia. }
  apply (G documents 0%nat []). constructor.
Qed.

(** Every weight of a fitted embedder is at least 1. *)
Definition idf_ok (self : SimpleEmbedder.t) : Prop :=
  Forall (fun kv => 1 <= snd kv) (SimpleEmbedder.idf self).

Lemma fit_idf_ok (self : SimpleEmbedder.t) (documents : list string) :
  idf_ok (SimpleEmbedder.fit self documents).
Proof.
  unfold idf_ok, SimpleEmbedder.fit. simpl.
  apply Forall_forall. intros [w x] Hin. apply in_map_iff in Hin.
  destruct Hin as [[w' df] [E Hin]]. simpl in E. inversion E; subst.
  simpl. apply smoothed_idf_ge_1.
  pose proof (doc_freq_bound documents) as Hb.
  rewrite Forall_forall in Hb. apply (Hb _ Hin).
Qed.

Lemma idf_get_ge_1 (self : SimpleEmbedder.t) (token : string) :
  idf_ok self ->
  1 <= dict_get_default String.eqb (SimpleEmbedder.idf self) token 1.
Proof.
  intros H. unfold dict_get_default.
  destruct (dict_get String.eqb _ token) as [x|] eqn:G; [|lra].
  apply (dict_get_In _ String_eqb_spec) in G.
  unfold idf_ok in H. rewrite Forall_forall in H. apply (H _ G).
Qed.

(** ** A text with a term of the vocabulary has a non-zero vector *)

Lemma list_update_Exists_keep (vec : list R) (i : nat) (v : R) :
  0 < v -> Exists (fun x => 0 < x) vec ->
  Exists (fun x => 0 < x) (list_update vec i v).
Proof.
  intros Hv. revert i. induction vec as [|x vec IH]; intros i H; [inversion H|].
  destruct i as [|i]; simpl.
  - now left.
  - inversion H; subst; [now left|right; now apply IH].
Qed.

Lemma list_update_Exists_new (vec : list R) (i : nat) (v : R) :
  0 < v -> (i < List.length vec)%nat ->
  Exists (fun x => 0 < x) (list_update vec i v).
Proof.
  intros Hv. revert i. induction vec as [|x vec IH]; intros i Hi;
    simpl in Hi; [lia|].
  destruct i as [|i]; simpl; [now left|].
  right. apply IH. lia.
Qed.

Lemma raw_fold_positive (self : SimpleEmbedder.t) (tokens : list string) :
  vocab_ok self -> idf_ok self ->
  forall tf vec,
    counter_ok tokens tf ->
    List.length vec = List.length (SimpleEmbedder.vocab self) ->
    Exists (fun x => 0 < x) vec
    \/ existsb (fun kv => in_vocab self (fst kv)) tf = true ->
    Exists (fun x => 0 < x) (fold_left (raw_term self tokens) tf vec).
Proof.
  intros Hv Hi. induction tf as [|[token count] tf IH];
    intros vec Htf Hlen Hex; simpl.
  - destruct Hex as [H|H]; [exact H|discriminate].
  - inversion Htf as [|? ? [Hin Hc] Htf']; subst. simpl in Hin, Hc.
    assert (Hpos : 0 < INR count / INR (List.length tokens)
                       * dict_get_default String.eqb
                           (SimpleEmbedder.idf self) token 1).
    { pose proof (idf_get_ge_1 self token Hi) as Hidf.
      apply Rmult_lt_0_compat; [|lra].
      apply Rdiv_lt_0_compat; apply lt_0_INR; [lia|].
      destruct tokens; [contradiction|simpl; lia]. }
    apply IH; [exact Htf'|now rewrite raw_term_length|].
    unfold raw_term. simpl fst. simpl snd.
    simpl in Hex. unfold in_vocab at 1, dict_mem in Hex. simpl in Hex.
    destruct (dict_get String.eqb (SimpleEmbedder.vocab self) token)
      as [idx|] eqn:G.
    + left. apply list_update_Exists_new; [exact Hpos|].
      rewrite Hlen. eapply Hv; eauto.
    + simpl in Hex. exact Hex.
Qed.

Lemma Counter_nonempty (t : string) (ts : list string) : Counter (t :: ts) <> [].
Proof.
  unfold Counter. simpl.
  assert (G : forall l acc, acc <> [] -> fold_left counter_incr l acc <> []).
  { induction l as [|x l IH]; intros acc Ha; simpl; [exact Ha|].
    apply IH. unfold counter_incr.
    pose proof (dict_set_length_le String.eqb acc x
                  (dict_get_default String.eqb acc x 0 + 1)%nat) as Hl.
    destruct acc; [congruence|].
    intros E. rewrite E in Hl. simpl in Hl. lia. }
  apply G. rewrite counter_incr_nil. discriminate.
Qed.

Lemma raw_vector_positive (self : SimpleEmbedder.t) (tokens : list string) :
  vocab_ok self -> idf_ok self ->
  existsb (in_vocab self) tokens = true ->
  sqrt (sum_squares (raw_vector self tokens)) <> 0.
Proof.
  intros Hv Hi Hex.
  assert (Hp : Exists (fun x => 0 < x) (raw_vector self tokens)).
  { unfold raw_vector. apply raw_fold_positive; try assumption.
    - apply Counter_ok.
    - apply repeat_length.
    - right. apply existsb_exists in Hex. destruct Hex as [t [Ht Hin]].
      assert (Hf : filter (in_vocab self) tokens <> []).
      { intros E. assert (H : In t (filter (in_vocab self) tokens))
          by (apply filter_In; auto). rewrite E in H. contradiction. }
      pose proof (Counter_filter (in_vocab self) tokens) as Hc.
      destruct (filter (in_vocab self) tokens) as [|t' ts'] eqn:Hft;
        [congruence|].
      pose proof (Counter_nonempty t' ts') as Hne. rewrite Hc in Hne.
      destruct (filter (fun kv => in_vocab self (fst kv)) (Counter tokens))
        as [|kv l] eqn:Hfc; [congruence|].
      assert (Hkv : In kv (filter (fun kv => in_vocab self (fst kv))
                                  (Counter tokens)))
        by (rewrite Hfc; now left).
      apply filter_In in Hkv. apply existsb_exists. exists kv. exact Hkv. }
  apply sum_squares_pos in Hp.
  pose proof (sqrt_lt_R0 _ Hp). lra.
Qed.

(** C8. On a fitted frequency embedder, [encode] of a text returns, without
    raising and without changing the embedder, a vector that has the length
    of the vocabulary fixed by [fit]; the terms of the text that are not in
    the vocabulary contribute nothing (the text with these terms deleted has
    the same vector); the vector has norm 1 when the text has a term of the
    vocabulary, and is the zero vector otherwise. *)
Theorem encode_normalized (self0 : SimpleEmbedder.t) (corpus : list string)
    (text text' : string) :
  let self := SimpleEmbedder.fit self0 corpus in
  tokenize text' = filter (in_vocab self) (tokenize text) ->
  exists v : list R,
    SimpleEmbedder.encode self [text] = (self, Ok [v])
    /\ SimpleEmbedder.encode self [text'] = (self, Ok [v])
    /\ List.length v = List.length (SimpleEmbedder.vocab self)
    /\ (if existsb (in_vocab self) (tokenize text)
        then sqrt (sum_squares v) = 1
        else v = repeat 0 (List.length (SimpleEmbedder.vocab self))).
Proof.
  intros self Ht.
  assert (Hv : vocab_ok self) by apply fit_vocab_ok.
  assert (Hi : idf_ok self) by apply fit_idf_ok.
  exists (text_vector self text).
  split; [now rewrite encode_fitted|].
  split.
  { rewrite encode_fitted by auto. simpl. unfold text_vector.
    now rewrite Ht, <- raw_vector_in_vocab_only. }
  split; [apply text_vector_length|].
  unfold text_vector.
  destruct (existsb (in_vocab self) (tokenize text)) eqn:Hex.
  - apply normalize_unit. now apply raw_vector_positive.
  - rewrite raw_vector_in_vocab_only.
    assert (Hf : filter (in_vocab self) (tokenize text) = []).
    { destruct (filter (in_vocab self) (tokenize text)) as [|t ts] eqn:Hf;
        [reflexivity|].
      assert (Hin : In t (filter (in_vocab self) (tokenize text)))
        by (rewrite Hf; now left).
      apply filter_In in Hin.
      assert (Hc : existsb (in_vocab self) (tokenize text) = true)
        by (apply existsb_exists; eauto).
      congruence. }
    rewrite Hf. unfold raw_vector. simpl fold_left.
    rewrite normalize_zero by (rewrite sum_squares_repeat_0; apply sqrt_0).
    now rewrite repeat_length.
Qed.

Lemma encode_normalized_witness :
  exists v : list R,
    SimpleEmbedder.encode
      (SimpleEmbedder.fit SimpleEmbedder.init ["apple"; "banana"])
      ["apple pie"]
    = (SimpleEmbedder.fit SimpleEmbedder.init ["apple"; "banana"], Ok [v])
    /\ sqrt (sum_squares v) = 1.
Proof.
  destruct (encode_normalized SimpleEmbedder.init ["apple"; "banana"]
              "apple pie" "apple" eq_refl) as (v & E & _ & _ & Hn).
  exists v. split; [exact E|exact Hn].
Defined.

(** ** Rounding *)

Lemma round_half_even_near (x : R) (n : Z) :
  IZR n - 1 / 2 < x < IZR n + 1 / 2 -> round_half_even x = n.
Proof.
  intros [Hl Hu]. unfold round_half_even.
  destruct (Rle_dec (IZR n) x) as [Hge|Hlt].
  - assert (E : Int_part x = n) by (symmetry; apply Int_part_spec; lra).
    rewrite E. destruct (Rlt_dec (x - IZR n) (1 / 2)); [reflexivity|lra].
  - assert (E : Int_part x = (n - 1)%Z).
    { symmetry. apply Int_part_spec. rewrite minus_IZR. lra. }
    rewrite E. rewrite minus_IZR.
    destruct (Rlt_dec (x - (IZR n - 1)) (1 / 2)); [lra|].
    destruct (Rlt_dec (1 / 2) (x - (IZR n - 1))); [f_equal; lia|lra].
Qed.

(** A number within half a unit of [n]/10000 rounds to it. *)
Lemma round4_near (x : R) (n : Z) :
  IZR n - 1 / 2 < x * 10000 < IZR n + 1 / 2 -> round4 x = IZR n / 10000.
Proof. intros H. unfold round4. now rewrite (round_half_even_near _ n). Qed.

Lemma round4_exact (n : Z) : round4 (IZR n / 10000) = IZR n / 10000.
Proof. apply round4_near. lra. Qed.

(** ** Normalisation of small vectors *)

Lemma normalize_pos (v : list R) :
  Exists (fun x => 0 < x) v ->
  normalize v = map (fun x => x / sqrt (sum_squares v)) v.
Proof.
  intros H. apply sum_squares_pos in H. apply sqrt_lt_R0 in H.
  unfold normalize, or_one.
  destruct (Req_dec_T (sqrt (sum_squares v)) 0); [lra|reflexivity].
Qed.

Lemma normalize_axis_0 (a : R) : 0 < a -> normalize [a; 0] = [1; 0].
Proof.
  intros Ha. rewrite normalize_pos by (now left).
  replace (sum_squares [a; 0]) with (a * a)
    by (unfold sum_squares, py_sum; simpl; lra).
  rewrite sqrt_square by lra. simpl.
  f_equal; [field; lra|f_equal; field; lra].
Qed.

Lemma normalize_axis_1 (a : R) : 0 < a -> normalize [0; a] = [0; 1].
Proof.
  intros Ha. rewrite normalize_pos by (right; now left).
  replace (sum_squares [0; a]) with (a * a)
    by (unfold sum_squares, py_sum; simpl; lra).
  rewrite sqrt_square by lra. simpl.
  f_equal; [field; lra|f_equal; field; lra].
Qed.

(** The direction of a vector of two coordinates with a common factor. *)
Lemma normalize_pair (p q c : R) :
  0 < p -> 0 <= q -> 0 < c ->
  normalize [p * c; q * c]
  = [p / sqrt (p * p + q * q); q / sqrt (p * p + q * q)].
Proof.
  intros Hp Hq Hc. rewrite normalize_pos by (left; nra).
  replace (sum_squares [p * c; q * c]) with ((p * p + q * q) * (c * c))
    by (unfold sum_squares, py_sum; simpl; lra).
  rewrite sqrt_mult by nra. rewrite (sqrt_square c) by lra.
  assert (Hs : 0 < sqrt (p * p + q * q)) by (apply sqrt_lt_R0; nra).
  simpl. f_equal; [field; lra|f_equal; field; lra].
Qed.

Lemma sqrt_between (x a b : R) :
  0 <= a -> 0 <= b -> a * a < x < b * b -> a < sqrt x < b.
Proof.
  intros Ha Hb [H1 H2]. split.
  - rewrite <- (sqrt_square a Ha). apply sqrt_lt_1_alt. nra.
  - rewrite <- (sqrt_square b Hb). apply sqrt_lt_1_alt. nra.
Qed.

Lemma idf_2_1 : 1 <= smoothed_idf 2 1.
Proof. apply smoothed_idf_ge_1. lia. Qed.

Lemma idf_2_2 : smoothed_idf 2 2 = 1.
Proof.
  unfold smoothed_idf. simpl.
  replace ((1 + 1 + 1) / (1 + 1 + 1)) with 1 by (field; lra).
  rewrite ln_1. lra.
Qed.

(** Evaluation of everything but the real-number operations, the weights
    and the functions evaluated by their own lemmas. *)
Ltac eval_real :=
  cbv -[Rplus Rmult Rdiv Rinv Rminus Ropp IZR sqrt ln Rlt_dec Req_dec_T
        smoothed_idf normalize dot round4].

(** Equality of lists, pairs and records of numbers, component by
    component. *)
Ltac eq_real :=
  lazymatch goal with
  | |- @eq R _ _ => try reflexivity; try lra; try (field; lra)
  | |- (_ :: _) = (_ :: _) => apply f_equal2; eq_real
  | |- (_, _) = (_, _) => apply f_equal2; eq_real
  | |- mkVectorResult _ _ = mkVectorResult _ _ => apply f_equal2; eq_real
  | |- mkMerged _ _ _ = mkMerged _ _ _ =>
      apply f_equal3; eq_real
  | |- mkSearchResult _ _ _ _ = mkSearchResult _ _ _ _ =>
      apply f_equal4; eq_real
  | |- _ => reflexivity
  end.

(** Rounding of an expression whose value is [n]/10000. *)
Ltac round4_is x n :=
  replace (round4 x) with (IZR n / 10000)
    by (symmetry; apply round4_near; lra).

Lemma round4_quotient (x s : R) (n : Z) :
  0 < s ->
  (IZR n - 1 / 2) * s < x * 10000 < (IZR n + 1 / 2) * s ->
  round4 (x / s) = IZR n / 10000.
Proof.
  intros Hs [Hl Hu]. apply round4_near.
  replace (x / s * 10000) with (x * 10000 / s) by (field; lra). split.
  - apply (Rmult_lt_reg_r s); [exact Hs|].
    unfold Rdiv at 2. rewrite Rmult_assoc, Rinv_l by lra. lra.
  - apply (Rmult_lt_reg_r s); [exact Hs|].
    unfold Rdiv at 1. rewrite Rmult_assoc, Rinv_l by lra. lra.
Qed.

Lemma div_lt_upper (x s b : R) : 0 < s -> x < b * s -> x / s < b.
Proof.
  intros Hs H. apply (Rmult_lt_reg_r s); [exact Hs|].
  replace (x / s * s) with x by (field; lra). exact H.
Qed.

Lemma div_gt_lower (x s a : R) : 0 < s -> a * s < x -> a < x / s.
Proof.
  intros Hs H. apply (Rmult_lt_reg_r s); [exact Hs|].
  replace (x / s * s) with x by (field; lra). exact H.
Qed.

Ltac decide_Rlt :=
  repeat match goal with
         | |- context [Rlt_dec ?a ?b] =>
             destruct (Rlt_dec a b); [try (exfalso; lra)|try (exfalso; lra)]
         end.

(** ** The merge on documents without an id *)

Definition apple : Document :=
  {| doc_id := None; doc_content := Some "apple" |}.

Definition banana : Document :=
  {| doc_id := None; doc_content := Some "banana" |}.

Lemma fruit_doc_vectors : doc_vectors fruit_docs = [[1; 0]; [0; 1]].
Proof.
  pose proof idf_2_1. unfold doc_vectors. eval_real.
  rewrite normalize_axis_0, normalize_axis_1 by lra. reflexivity.
Qed.

Lemma fruit_query_vector :
  text_vector (fitted_on fruit_docs) "banana" = [0; 1].
Proof.
  pose proof idf_2_1. unfold text_vector. eval_real.
  rewrite normalize_axis_1 by lra. reflexivity.
Qed.

Lemma fruit_semantic_scores :
  semantic_scores fruit_docs "banana" = [(1, 1%nat); (0, 0%nat)].
Proof.
  unfold semantic_scores. rewrite fruit_doc_vectors, fruit_query_vector.
  unfold dot, py_sum. eval_real.
  destruct (Rlt_dec _ _) as [_|N]; [eq_real|exfalso; apply N; lra].
Qed.

Lemma fruit_vector_results :
  vector_results fruit_docs "banana" (5 * 2)
  = [ {| vr_document := banana; vr_relevance_score := 1 |};
      {| vr_document := apple; vr_relevance_score := 0 |} ].
Proof.
  unfold vector_results. rewrite fruit_semantic_scores. eval_real.
  round4_is 1 10000%Z. round4_is 0 0%Z. eq_real.
Qed.

Lemma fruit_keyword_scores : keyword_scores fruit_docs "banana" = [(1%nat, 1)].
Proof.
  pose proof idf_2_1. unfold keyword_scores. eval_real. eq_real.
Qed.

Lemma fruit_merged :
  merged_dict fruit_docs "banana" 5
  = [ (KeyPos 0, {| m_document := banana; m_semantic_score := 1;
                    m_keyword_score := 0 |});
      (KeyPos 1, {| m_document := apple; m_semantic_score := 0;
                    m_keyword_score := 1 |}) ].
Proof.
  unfold merged_dict, merged_semantic.
  rewrite fruit_vector_results, fruit_keyword_scores. reflexivity.
Qed.

Lemma fruit_search_results :
  search_results (HybridSearchEngine.init (7 / 10)) fruit_docs "banana" 5
  = [ {| document := banana; relevance_score := 7 / 10;
         semantic_score := 1; keyword_score := 0 |};
      {| document := apple; relevance_score := 3 / 10;
         semantic_score := 0; keyword_score := 1 |} ].
Proof.
  unfold search_results, HybridSearchEngine.rank. rewrite fruit_merged.
  unfold HybridSearchEngine.combine_scores.
  cbv [map snd indexed_from HybridSearchEngine.semantic_weight
       HybridSearchEngine.keyword_weight HybridSearchEngine.init
       m_document m_semantic_score m_keyword_score].
  round4_is (7 / 10 * 1 + (1 - 7 / 10) * 0) 7000%Z.
  round4_is (7 / 10 * 0 + (1 - 7 / 10) * 1) 3000%Z.
  round4_is 1 10000%Z. round4_is 0 0%Z.
  eval_real. decide_Rlt. eq_real.
Qed.

(** C1, on the code.  The corpus is "apple", "banana", without ids, and the
    query is "banana".  Keyword scoring finds the document at position 1,
    which is "banana", and no other; in the results "banana" has keyword
    score 0 and "apple", which keyword scoring did not find, has keyword
    score 1.  The first merge loop keys a document without id by its rank in
    the semantic results, the second by its position in the corpus. *)
Theorem merge_without_ids_mixes_documents :
  let e := fst (create_rag_engine fruit_docs (7 / 10)) in
  nth_error (HybridSearchEngine.documents e) 1 = Some banana
  /\ HybridSearchEngine._keyword_search e "banana" = Ok [(1%nat, 1)]
  /\ snd (HybridSearchEngine.search e "banana" 5)
     = Ok [ {| document := banana; relevance_score := 7 / 10;
               semantic_score := 1; keyword_score := 0 |};
            {| document := apple; relevance_score := 3 / 10;
               semantic_score := 0; keyword_score := 1 |} ].
Proof.
  intros e. subst e. rewrite create_rag_engine_indexed.
  unfold fst at 1 2 3, indexed.
  split; [reflexivity|]. split.
  - rewrite keyword_search_indexed. now rewrite fruit_keyword_scores.
  - rewrite search_indexed. unfold snd. now rewrite fruit_search_results.
Qed.

(** ** The number of results on a corpus where only some documents have an id *)

Definition banana_x : Document :=
  {| doc_id := Some "x"; doc_content := Some "banana" |}.

Definition mixed_docs : list Document := [apple; banana_x].

Lemma sqrt_5_9 : 74534 / 100000 < sqrt (5 / 9) < 74540 / 100000.
Proof. apply sqrt_between; lra. Qed.

Lemma mixed_doc_vectors : doc_vectors mixed_docs = [[1; 0]; [0; 1]].
Proof.
  pose proof idf_2_1. unfold doc_vectors. eval_real.
  rewrite normalize_axis_0, normalize_axis_1 by lra. reflexivity.
Qed.

Lemma mixed_query_vector :
  text_vector (fitted_on mixed_docs) "banana banana apple"
  = [1 / 3 / sqrt (5 / 9); 2 / 3 / sqrt (5 / 9)].
Proof.
  pose proof idf_2_1. unfold text_vector. eval_real.
  rewrite normalize_pair by lra.
  replace (1 / (1 + 1 + 1) * (1 / (1 + 1 + 1))
           + (1 + 1) / (1 + 1 + 1) * ((1 + 1) / (1 + 1 + 1)))
    with (5 / 9) by lra.
  pose proof sqrt_5_9. eq_real.
Qed.

Lemma mixed_semantic_scores :
  semantic_scores mixed_docs "banana banana apple"
  = [(2 / 3 / sqrt (5 / 9), 1%nat); (1 / 3 / sqrt (5 / 9), 0%nat)].
Proof.
  pose proof sqrt_5_9 as Hs.
  assert (Ht : 0 < / sqrt (5 / 9)) by (apply Rinv_0_lt_compat; lra).
  unfold semantic_scores. rewrite mixed_doc_vectors, mixed_query_vector.
  unfold dot, py_sum. eval_real. unfold Rdiv.
  destruct (Rlt_dec _ _) as [_|N]; [eq_real|exfalso; apply N; nra].
Qed.

Lemma mixed_vector_results :
  vector_results mixed_docs "banana banana apple" (5 * 2)
  = [ {| vr_document := banana_x; vr_relevance_score := 8944 / 10000 |};
      {| vr_document := apple; vr_relevance_score := 4472 / 10000 |} ].
Proof.
  pose proof sqrt_5_9 as Hs.
  unfold vector_results. rewrite mixed_semantic_scores. eval_real.
  rewrite (round4_quotient (2 / 3) _ 8944) by lra.
  rewrite (round4_quotient (1 / 3) _ 4472) by lra.
  reflexivity.
Qed.

Lemma mixed_keyword_scores :
  keyword_scores mixed_docs "banana banana apple"
  = [(1%nat, 1); (0%nat, 1 / 2)].
Proof.
  pose proof idf_2_1. unfold keyword_scores. eval_real.
  destruct (Rlt_dec _ _) as [N|_]; [exfalso; lra|]. eq_real.
Qed.

Lemma mixed_merged :
  merged_dict mixed_docs "banana banana apple" 5
  = [ (KeyId "x", {| m_document := banana_x;
                     m_semantic_score := 8944 / 10000;
                     m_keyword_score := 1 |});
      (KeyPos 1, {| m_document := apple;
                    m_semantic_score := 4472 / 10000;
                    m_keyword_score := 0 |});
      (KeyPos 0, {| m_document := apple;
                    m_semantic_score := 0;
                    m_keyword_score := 1 / 2 |}) ].
Proof.
  unfold merged_dict, merged_semantic.
  rewrite mixed_vector_results, mixed_keyword_scores. reflexivity.
Qed.

Lemma mixed_search_results :
  search_results (HybridSearchEngine.init (7 / 10)) mixed_docs
    "banana banana apple" 5
  = [ {| document := banana_x; relevance_score := 9261 / 10000;
         semantic_score := 8944 / 10000; keyword_score := 1 |};
      {| document := apple; relevance_score := 3130 / 10000;
         semantic_score := 4472 / 10000; keyword_score := 0 |};
      {| document := apple; relevance_score := 1500 / 10000;
         semantic_score := 0; keyword_score := 5000 / 10000 |} ].
Proof.
  unfold search_results, HybridSearchEngine.rank. rewrite mixed_merged.
  unfold HybridSearchEngine.combine_scores.
  cbv [map snd indexed_from HybridSearchEngine.semantic_weight
       HybridSearchEngine.keyword_weight HybridSearchEngine.init
       m_document m_semantic_score m_keyword_score].
  round4_is (7 / 10 * (8944 / 10000) + (1 - 7 / 10) * 1) 9261%Z.
  round4_is (7 / 10 * (4472 / 10000) + (1 - 7 / 10) * 0) 3130%Z.
  round4_is (7 / 10 * 0 + (1 - 7 / 10) * (1 / 2)) 1500%Z.
  round4_is (8944 / 10000) 8944%Z. round4_is (4472 / 10000) 4472%Z.
  round4_is 1 10000%Z. round4_is 0 0%Z. round4_is (1 / 2) 5000%Z.
  eval_real. decide_Rlt. eq_real.
Qed.

(** C3, on the code.  The corpus has two documents, "apple" without id and
    "banana" with id "x"; for the query "banana banana apple" and
    [top_k = 5] the search returns three results, not min(5, 2) = 2:
    "apple" is returned twice, once under its rank in the semantic results
    and once under its position in the corpus. *)
Theorem search_returns_more_than_corpus :
  let e := fst (create_rag_engine mixed_docs (7 / 10)) in
  List.length (HybridSearchEngine.documents e) = 2%nat
  /\ snd (HybridSearchEngine.search e "banana banana apple" 5)
     = Ok [ {| document := banana_x; relevance_score := 9261 / 10000;
               semantic_score := 8944 / 10000; keyword_score := 1 |};
            {| document := apple; relevance_score := 3130 / 10000;
               semantic_score := 4472 / 10000; keyword_score := 0 |};
            {| document := apple; relevance_score := 1500 / 10000;
               semantic_score := 0; keyword_score := 5000 / 10000 |} ].
Proof.
  intros e. subst e. rewrite create_rag_engine_indexed.
  unfold fst at 1 2, indexed. split; [reflexivity|].
  rewrite search_indexed. unfold snd. now rewrite mixed_search_results.
Qed.

(** ** Fused scores on either side of a rounding boundary *)

Definition doc_a : Document :=
  {| doc_id := Some "a"; doc_content := Some "x y" |}.

Definition doc_b : Document :=
  {| doc_id := Some "b"; doc_content := Some "x x y" |}.

Definition xy_docs : list Document := [doc_a; doc_b].

Lemma sqrt_1_2 : 70710 / 100000 < sqrt (1 / 2) < 70711 / 100000.
Proof. apply sqrt_between; lra. Qed.

Lemma xy_doc_vectors :
  doc_vectors xy_docs
  = [ [1 / 2 / sqrt (1 / 2); 1 / 2 / sqrt (1 / 2)];
      [2 / 3 / sqrt (5 / 9); 1 / 3 / sqrt (5 / 9)] ].
Proof.
  unfold doc_vectors. eval_real. rewrite idf_2_2.
  rewrite !normalize_pair by lra.
  replace (1 / (1 + 1) * (1 / (1 + 1)) + 1 / (1 + 1) * (1 / (1 + 1)))
    with (1 / 2) by lra.
  replace ((1 + 1) / (1 + 1 + 1) * ((1 + 1) / (1 + 1 + 1))
           + 1 / (1 + 1 + 1) * (1 / (1 + 1 + 1)))
    with (5 / 9) by lra.
  pose proof sqrt_1_2. pose proof sqrt_5_9. eq_real.
Qed.

Lemma xy_query_vector : text_vector (fitted_on xy_docs) "x" = [1; 0].
Proof.
  unfold text_vector. eval_real. rewrite idf_2_2.
  rewrite normalize_axis_0 by lra. reflexivity.
Qed.

Lemma xy_semantic_scores :
  semantic_scores xy_docs "x"
  = [(2 / 3 / sqrt (5 / 9), 1%nat); (1 / 2 / sqrt (1 / 2), 0%nat)].
Proof.
  pose proof sqrt_1_2 as H2. pose proof sqrt_5_9 as H5.
  assert (Ha : 1 / 2 / sqrt (1 / 2) < 70712 / 100000)
    by (apply div_lt_upper; lra).
  assert (Hb : 89430 / 100000 < 2 / 3 / sqrt (5 / 9))
    by (apply div_gt_lower; lra).
  unfold semantic_scores. rewrite xy_doc_vectors, xy_query_vector.
  unfold dot, py_sum. eval_real.
  destruct (Rlt_dec _ _) as [_|N]; [eq_real|exfalso; apply N; lra].
Qed.

Lemma xy_vector_results :
  vector_results xy_docs "x" (5 * 2)
  = [ {| vr_document := doc_b; vr_relevance_score := 8944 / 10000 |};
      {| vr_document := doc_a; vr_relevance_score := 7071 / 10000 |} ].
Proof.
  pose proof sqrt_1_2. pose proof sqrt_5_9.
  unfold vector_results. rewrite xy_semantic_scores. eval_real.
  rewrite (round4_quotient (2 / 3) _ 8944) by lra.
  rewrite (round4_quotient (1 / 2) _ 7071) by lra.
  reflexivity.
Qed.

Lemma xy_keyword_scores :
  keyword_scores xy_docs "x" = [(0%nat, 1); (1%nat, 1)].
Proof.
  unfold keyword_scores. eval_real. rewrite idf_2_2.
  destruct (Rlt_dec _ _) as [N|_]; [exfalso; lra|]. eq_real.
Qed.

Lemma xy_merged :
  merged_dict xy_docs "x" 5
  = [ (KeyId "b", {| m_document := doc_b;
                     m_semantic_score := 8944 / 10000;
                     m_keyword_score := 1 |});
      (KeyId "a", {| m_document := doc_a;
                     m_semantic_score := 7071 / 10000;
                     m_keyword_score := 1 |}) ].
Proof.
  unfold merged_dict, merged_semantic.
  rewrite xy_vector_results, xy_keyword_scores. reflexivity.
Qed.

Lemma xy_search_results :
  search_results (HybridSearchEngine.init (3 / 10000)) xy_docs "x" 5
  = [ {| document := doc_b; relevance_score := 10000 / 10000;
         semantic_score := 8944 / 10000; keyword_score := 1 |};
      {| document := doc_a; relevance_score := 9999 / 10000;
         semantic_score := 7071 / 10000; keyword_score := 1 |} ].
Proof.
  unfold search_results, HybridSearchEngine.rank. rewrite xy_merged.
  unfold HybridSearchEngine.combine_scores.
  cbv [map snd indexed_from HybridSearchEngine.semantic_weight
       HybridSearchEngine.keyword_weight HybridSearchEngine.init
       m_document m_semantic_score m_keyword_score].
  round4_is (3 / 10000 * (8944 / 10000) + (1 - 3 / 10000) * 1) 10000%Z.
  round4_is (3 / 10000 * (7071 / 10000) + (1 - 3 / 10000) * 1) 9999%Z.
  round4_is (8944 / 10000) 8944%Z. round4_is (7071 / 10000) 7071%Z.
  round4_is 1 10000%Z.
  eval_real. decide_Rlt. eq_real.
Qed.

(** C9 as stated fails: with [semantic_weight = 0.0003] the fused scores of
    the two documents, 0.99996832 and 0.99991213, differ by less than
    0.0001, and their rounded relevance scores, 1.0 and 0.9999, are not
    equal. *)
Lemma close_fused_scores_compare_unequal :
  let e := fst (create_rag_engine xy_docs (3 / 10000)) in
  let fused := fun data : Merged =>
    HybridSearchEngine.semantic_weight e * m_semantic_score data
    + HybridSearchEngine.keyword_weight e * m_keyword_score data in
  exists (sem : list VectorResult) (kws : list (nat * R)) (db da : Merged)
         (rb ra : SearchResult),
    snd (FAISSVectorStore.search (HybridSearchEngine.vector_store e) "x"
           (5 * 2)) = Ok sem
    /\ HybridSearchEngine._keyword_search e "x" = Ok kws
    /\ HybridSearchEngine.merge e sem kws
       = Ok [(KeyId "b", db); (KeyId "a", da)]
    /\ Rabs (fused db - fused da) < 1 / 10000
    /\ snd (HybridSearchEngine.search e "x" 5) = Ok [rb; ra]
    /\ document rb = m_document db
    /\ document ra = m_document da
    /\ relevance_score rb <> relevance_score ra.
Proof.
  intros e fused. subst e fused. rewrite create_rag_engine_indexed.
  unfold fst, indexed.
  eexists _, _, _, _, _, _.
  split.
  { simpl HybridSearchEngine.vector_store. rewrite vs_search_indexed.
    reflexivity. }
  split; [apply keyword_search_indexed|].
  split.
  { rewrite merge_indexed.
    fold (merged_semantic xy_docs "x" 5). fold (merged_dict xy_docs "x" 5).
    rewrite xy_merged. reflexivity. }
  split.
  { simpl. rewrite Rabs_right; lra. }
  split.
  { rewrite search_indexed. unfold snd. rewrite xy_search_results.
    reflexivity. }
  split; [reflexivity|]. split; [reflexivity|].
  simpl. lra.
Qed.

(** C9, as the code has it.  On an indexed engine the results of [search]
    are the first [top_k] of a list that holds one result for each entry of
    the merged dict; the result of an entry has the three scores rounded to
    4 decimals, the relevance score being the rounding of
    semantic_weight * semantic_score + keyword_weight * keyword_score taken
    on the entry's scores as they stand before that rounding; the list is in
    descending order of the rounded relevance scores, and the results of
    equal rounded relevance score are in the order of their entries in the
    merged dict.  (Fused scores that differ by less than 0.0001 may round to
    different values.) *)
Theorem search_rounds_then_sorts (e0 : HybridSearchEngine.t)
    (docs : list Document) (query : string) (top_k : Z) :
  let e := fst (HybridSearchEngine.add_documents e0 docs) in
  exists (sem : list VectorResult) (kws : list (nat * R))
         (merged : list (DocKey * Merged)) (ranked : list SearchResult),
    snd (FAISSVectorStore.search (HybridSearchEngine.vector_store e) query
           (top_k * 2)) = Ok sem
    /\ HybridSearchEngine._keyword_search e query = Ok kws
    /\ HybridSearchEngine.merge e sem kws = Ok merged
    /\ snd (HybridSearchEngine.search e query top_k)
       = Ok (py_slice_to ranked top_k)
    /\ Permutation ranked
         (map (fun kd =>
                 {| document := m_document (snd kd);
                    relevance_score :=
                      round4 (HybridSearchEngine.semantic_weight e
                              * m_semantic_score (snd kd)
                              + HybridSearchEngine.keyword_weight e
                                * m_keyword_score (snd kd));
                    semantic_score := round4 (m_semantic_score (snd kd));
                    keyword_score := round4 (m_keyword_score (snd kd)) |})
              merged)
    /\ StronglySorted
         (fun a b => relevance_score b <= relevance_score a) ranked
    /\ forall rho : R,
         filter (fun r => if Req_dec_T (relevance_score r) rho
                          then true else false) ranked
         = filter (fun r => if Req_dec_T (relevance_score r) rho
                            then true else false)
             (map (fun kd => HybridSearchEngine.combine_scores e (snd kd))
                  merged).
Proof.
  intros e. subst e. rewrite add_documents_indexed. unfold fst.
  exists (vector_results docs query (top_k * 2)), (keyword_scores docs query),
    (merged_dict docs query top_k),
    (sort_desc relevance_score
       (map (fun kd => HybridSearchEngine.combine_scores
                         (indexed_from e0 docs) (snd kd))
            (merged_dict docs query top_k))).
  split.
  { simpl HybridSearchEngine.vector_store. now rewrite vs_search_indexed. }
  split; [apply keyword_search_indexed|].
  split; [apply merge_indexed|].
  split; [now rewrite search_indexed|].
  split; [apply sort_desc_perm|].
  split; [apply sort_desc_sorted|].
  intros rho. apply sort_desc_stable.
  intros x y _ _ Hx Hy.
  destruct (Req_dec_T (relevance_score x) rho); [|discriminate].
  destruct (Req_dec_T (relevance_score y) rho); [|discriminate].
  congruence.
Qed.

(** ** Monotonicity of the rounding *)

Lemma Int_part_le (x y : R) : x <= y -> (Int_part x <= Int_part y)%Z.
Proof.
  intros H. destruct (base_Int_part x) as [Hx1 Hx2].
  destruct (base_Int_part y) as [Hy1 Hy2].
  apply Z.lt_succ_r. apply lt_IZR. rewrite succ_IZR. lra.
Qed.

Lemma round_half_even_bounds (x : R) :
  (Int_part x <= round_half_even x <= Int_part x + 1)%Z.
Proof.
  unfold round_half_even.
  destruct (Rlt_dec _ _); [lia|].
  destruct (Rlt_dec _ _); [lia|].
  destruct (Z.even _); lia.
Qed.

Lemma round_half_even_le (x y : R) :
  x <= y -> (round_half_even x <= round_half_even y)%Z.
Proof.
  intros H. pose proof (Int_part_le x y H) as Hf.
  destruct (Z.eq_dec (Int_part x) (Int_part y)) as [E|N].
  - unfold round_half_even. rewrite <- E.
    destruct (Rlt_dec (x - IZR (Int_part x)) (1 / 2)) as [H1|H1];
      destruct (Rlt_dec (y - IZR (Int_part x)) (1 / 2)) as [H2|H2];
      try lia; try lra.
    + destruct (Rlt_dec (1 / 2) (y - IZR (Int_part x))); [lia|].
      destruct (Z.even (Int_part x)); lia.
    + destruct (Rlt_dec (1 / 2) (x - IZR (Int_part x))) as [H3|H3];
        destruct (Rlt_dec (1 / 2) (y - IZR (Int_part x))) as [H4|H4];
        try lia; try lra.
      destruct (Z.even (Int_part x)); lia.
  - pose proof (round_half_even_bounds x). pose proof (round_half_even_bounds y).
    lia.
Qed.

Lemma round4_le (x y : R) : x <= y -> round4 x <= round4 y.
Proof.
  intros H. unfold round4.
  assert (Hz : (round_half_even (x * 10000) <= round_half_even (y * 10000))%Z)
    by (apply round_half_even_le; lra).
  apply IZR_le in Hz. lra.
Qed.

Lemma round4_0 : round4 0 = 0.
Proof.
  replace 0 with (IZR 0 / 10000) at 1 by lra. rewrite round4_exact. lra.
Qed.

Lemma round4_nonneg (x : R) : 0 <= x -> 0 <= round4 x.
Proof. intros H. rewrite <- round4_0. now apply round4_le. Qed.

(** ** The vectors of the frequency embedder have no negative coordinate *)

Lemma list_update_Forall {A : Type} (P : A -> Prop) (l : list A) (i : nat)
    (v : A) :
  Forall P l -> P v -> Forall P (list_update l i v).
Proof.
  intros Hl Hv. revert i. induction Hl as [|x l Hx Hl IH]; intros [|i]; simpl;
    constructor; auto.
Qed.

Lemma raw_vector_nonneg (self : SimpleEmbedder.t) (tokens : list string) :
  idf_ok self -> Forall (fun x => 0 <= x) (raw_vector self tokens).
Proof.
  intros Hi. unfold raw_vector.
  assert (G : forall tf vec,
             Forall (fun x => 0 <= x) vec ->
             Forall (fun x => 0 <= x)
                    (fold_left (raw_term self tokens) tf vec)).
  { induction tf as [|[token count] tf IH]; intros vec Hvec; simpl;
      [exact Hvec|].
    apply IH. unfold raw_term. simpl.
    destruct (dict_get String.eqb _ token); [|exact Hvec].
    apply list_update_Forall; [exact Hvec|].
    pose proof (idf_get_ge_1 self token Hi).
    apply Rmult_le_pos; [|lra].
    unfold Rdiv. apply Rmult_le_pos; [apply pos_INR|].
    destruct (List.length tokens) eqn:E.
    - simpl. rewrite Rinv_0. lra.
    - left. apply Rinv_0_lt_compat. apply lt_0_INR. lia. }
  apply G. clear G.
  induction (List.length (SimpleEmbedder.vocab self)); simpl; constructor;
    [lra|assumption].
Qed.

Lemma or_one_pos (x : R) : 0 <= x -> 0 < or_one x.
Proof.
  intros H. unfold or_one. destruct (Req_dec_T x 0); lra.
Qed.

Lemma normalize_nonneg (vec : list R) :
  Forall (fun x => 0 <= x) vec -> Forall (fun x => 0 <= x) (normalize vec).
Proof.
  intros H. unfold normalize. apply Forall_forall. intros y Hy.
  apply in_map_iff in Hy. destruct Hy as [x [<- Hx]].
  rewrite Forall_forall in H. specialize (H x Hx).
  pose proof (or_one_pos (sqrt (sum_squares vec)) (sqrt_pos _)) as Hn.
  apply Rmult_le_pos; [exact H|]. left. now apply Rinv_0_lt_compat.
Qed.

Lemma text_vector_nonneg (emb : SimpleEmbedder.t) (text : string) :
  idf_ok emb -> Forall (fun x => 0 <= x) (text_vector emb text).
Proof.
  intros H. unfold text_vector. now apply normalize_nonneg, raw_vector_nonneg.
Qed.

Lemma dot_nonneg (u v : list R) :
  Forall (fun x => 0 <= x) u -> Forall (fun x => 0 <= x) v -> 0 <= dot u v.
Proof.
  intros Hu. revert v. unfold dot.
  induction Hu as [|x u Hx Hu IH]; intros v Hv; simpl;
    [unfold py_sum; simpl; lra|].
  destruct Hv as [|y v Hy Hv]; simpl; [unfold py_sum; simpl; lra|].
  rewrite py_sum_cons. specialize (IH v Hv). nra.
Qed.

(** ** More on the stable sort *)






Lemma StronglySorted_firstn {A : Type} (Rel : A -> A -> Prop) (n : nat)
    (l : list A) :
  StronglySorted Rel l -> StronglySorted Rel (firstn n l).
Proof.
  intros H. revert n. induction H as [|x l H IH Hx]; intros [|n]; simpl;
    try constructor.
  - apply IH.
  - apply Forall_forall. intros y Hy. apply firstn_incl in Hy.
    rewrite Forall_forall in Hx. now apply Hx.
Qed.

Lemma StronglySorted_map {A B : Type} (Rel : B -> B -> Prop) (f : A -> B)
    (l : list A) :
  StronglySorted (fun a b => Rel (f a) (f b)) l ->
  StronglySorted Rel (map f l).
Proof.
  induction 1 as [|x l H IH Hx]; simpl; constructor; [exact IH|].
  apply Forall_forall. intros y Hy. apply in_map_iff in Hy.
  destruct Hy as [a [<- Ha]]. rewrite Forall_forall in Hx. now apply Hx.
Qed.

Lemma StronglySorted_impl {A : Type} (R1 R2 : A -> A -> Prop) (l : list A) :
  (forall a b, In a l -> In b l -> R1 a b -> R2 a b) ->
  StronglySorted R1 l -> StronglySorted R2 l.
Proof.
  intros H Hs. induction Hs as [|x l Hs IH Hx]; constructor.
  - apply IH. intros a b Ha Hb. apply H; now right.
  - rewrite Forall_forall in *. intros y Hy.
    apply H; [now left|now right|now apply Hx].
Qed.

Lemma firstn_firstn_le {A : Type} (i j : nat) (l : list A) :
  (i <= j)%nat -> firstn i (firstn j l) = firstn i l.
Proof.
  intros H. rewrite firstn_firstn. f_equal. lia.
Qed.


(** ** More on dicts *)

Lemma dict_get_of_In {K V : Type} (eqb : K -> K -> bool) (d : list (K * V))
    (k : K) (v : V) :
  (forall a b, eqb a b = true <-> a = b) ->
  NoDup (map fst d) -> In (k, v) d -> dict_get eqb d k = Some v.
Proof.
  intros Hs Hnd Hin. induction d as [|[k' v'] d IH]; simpl in *; [contradiction|].
  inversion Hnd as [|? ? Hk Hnd']; subst.
  destruct Hin as [E|Hin].
  - inversion E; subst. now rewrite (proj2 (Hs k k) eq_refl).
  - destruct (eqb k k') eqn:E; [|now apply IH].
    apply Hs in E. subst. exfalso. apply Hk.
    apply in_map_iff. now exists (k', v).
Qed.

Lemma dict_set_Forall_other {K V : Type} (eqb : K -> K -> bool)
    (P : K * V -> Prop) (d : list (K * V)) (k : K) (v : V) :
  (forall a b, eqb a b = true <-> a = b) ->
  (forall kv, In kv d -> fst kv <> k -> P kv) ->
  NoDup (map fst d) -> P (k, v) -> Forall P (dict_set eqb d k v).
Proof.
  intros Hs Hd Hnd Hk. induction d as [|[k' v'] d IH]; simpl.
  - constructor; [exact Hk|constructor].
  - inversion Hnd as [|? ? Hk' Hnd']; subst.
    destruct (eqb k k') eqn:E.
    + apply Hs in E. subst k'. constructor; [exact Hk|].
      apply Forall_forall. intros [k2 v2] Hin. apply Hd; [now right|].
      simpl. intros ->. apply Hk'. apply in_map_iff. now exists (k, v2).
    + constructor.
      * apply Hd; [now left|]. simpl. intros ->.
        rewrite (proj2 (Hs k k) eq_refl) in E. discriminate.
      * apply IH; [|exact Hnd'].
        intros kv Hin. apply Hd. now right.
Qed.

(** Replacing the value of a present key by one with the same image under
    [rho] leaves the images of the entries as they are. *)
Lemma dict_set_same_image {K V T : Type} (eqb : K -> K -> bool)
    (rho : V -> T) (d : list (K * V)) (k : K) (v data : V) :
  dict_get eqb d k = Some data -> rho v = rho data ->
  map (fun kv => (fst kv, rho (snd kv))) (dict_set eqb d k v)
  = map (fun kv => (fst kv, rho (snd kv))) d.
Proof.
  intros Hg Hr. induction d as [|[k' v'] d IH]; simpl in *; [discriminate|].
  destruct (eqb k k') eqn:E; simpl.
  - inversion Hg; subst. now rewrite Hr.
  - now rewrite IH.
Qed.

Lemma enumerate_from_map_fst {A : Type} (s : nat) (l : list A) :
  map fst (enumerate_from s l) = seq s (List.length l).
Proof.
  revert s; induction l as [|x l IH]; intros s; simpl; [|rewrite IH]; auto.
Qed.

Lemma NoDup_firstn {A : Type} (n : nat) (l : list A) :
  NoDup l -> NoDup (firstn n l).
Proof.
  intros H. rewrite <- (firstn_skipn n l) in H.
  now apply NoDup_app_remove_r in H.
Qed.

Lemma NoDup_map_on {A B : Type} (f : A -> B) (l : list A) :
  NoDup l -> (forall x y, In x l -> In y l -> f x = f y -> x = y) ->
  NoDup (map f l).
Proof.
  induction 1 as [|x l Hx Hnd IH]; intros Hf; simpl; constructor.
  - intros Hin. apply in_map_iff in Hin. destruct Hin as [y [E Hy]].
    apply Hx. rewrite (Hf x y); auto; [now left|now right].
  - apply IH. intros a b Ha Hb. apply Hf; now right.
Qed.

Lemma NoDup_map_eq {A B : Type} (f : A -> B) (l : list A) (x y : A) :
  NoDup (map f l) -> In x l -> In y l -> f x = f y -> x = y.
Proof.
  induction l as [|z l IH]; simpl; intros Hnd Hx Hy E; [contradiction|].
  inversion Hnd as [|? ? Hz Hnd']; subst.
  destruct Hx as [->|Hx], Hy as [->|Hy]; auto.
  - exfalso. apply Hz. rewrite E. now apply in_map.
  - exfalso. apply Hz. rewrite <- E. now apply in_map.
Qed.

Lemma py_slice_to_firstn {A : Type} (l : list A) (k : Z) :
  exists n, py_slice_to l k = firstn n l.
Proof. unfold py_slice_to. destruct (0 <=? k)%Z; eauto. Qed.

Lemma semantic_positions_NoDup (docs : list Document) (query : string) :
  NoDup (map snd (semantic_scores docs query)).
Proof.
  unfold semantic_scores.
  eapply Permutation_NoDup.
  - apply Permutation_map. symmetry. apply sort_desc_perm.
  - rewrite map_map. simpl. unfold enumerate.
    rewrite enumerate_from_map_fst. apply seq_NoDup.
Qed.

Lemma fold_merge_semantic_fresh (l : list (nat * VectorResult))
    (m0 : list (DocKey * Merged)) :
  NoDup (map fst m0
         ++ map (fun ir => id_of (vr_document (snd ir)) (fst ir)) l) ->
  fold_left HybridSearchEngine.merge_semantic l m0
  = m0 ++ map (fun ir =>
                 (id_of (vr_document (snd ir)) (fst ir),
                  {| m_document := vr_document (snd ir);
                     m_semantic_score := vr_relevance_score (snd ir);
                     m_keyword_score := 0 |})) l.
Proof.
  revert m0. induction l as [|[i r] l IH]; intros m0 Hnd; simpl.
  - now rewrite app_nil_r.
  - simpl in Hnd. pose proof (NoDup_remove_2 _ _ _ Hnd) as Hk.
    rewrite (dict_set_keys_absent _ DocKey_eqb_spec)
      by (intros Hin; apply Hk; apply in_or_app; now left).
    rewrite IH.
    + now rewrite <- app_assoc.
    + rewrite map_app. simpl. now rewrite <- app_assoc.
Qed.

Lemma map_enumerate_from {A B C : Type} (g : A -> B) (F : nat -> B -> C)
    (G : A -> C) (l : list A) (s : nat) :
  (forall i x, In x l -> F i (g x) = G x) ->
  map (fun ir => F (fst ir) (snd ir)) (enumerate_from s (map g l)) = map G l.
Proof.
  revert s. induction l as [|x l IH]; intros s H; simpl; [reflexivity|].
  rewrite (H s x (or_introl eq_refl)). f_equal.
  apply IH. intros i y Hy. apply H. now right.
Qed.

(** ** Corpora in which every document has its own id *)

Section ExplicitIds.
Variable docs : list Document.
Hypothesis ids_explicit : Forall (fun d => doc_id d <> None) docs.
Hypothesis ids_distinct : NoDup (map doc_id docs).

Definition doc_at (i : nat) : Document := nth i docs no_document.

Lemma id_of_explicit (i j k : nat) :
  (i < List.length docs)%nat -> id_of (doc_at i) j = id_of (doc_at i) k.
Proof.
  intros Hi. unfold id_of, doc_at.
  rewrite Forall_forall in ids_explicit.
  specialize (ids_explicit _ (nth_In docs no_document Hi)).
  destruct (doc_id (nth i docs no_document)); [reflexivity|contradiction].
Qed.

Lemma key_injective (i j a b : nat) :
  (i < List.length docs)%nat -> (j < List.length docs)%nat ->
  id_of (doc_at i) a = id_of (doc_at j) b -> i = j.
Proof.
  intros Hi Hj E. unfold id_of, doc_at in E.
  rewrite Forall_forall in ids_explicit.
  pose proof (ids_explicit _ (nth_In docs no_document Hi)) as Ei.
  pose proof (ids_explicit _ (nth_In docs no_document Hj)) as Ej.
  destruct (doc_id (nth i docs no_document)) as [s|] eqn:Gi; [|contradiction].
  destruct (doc_id (nth j docs no_document)) as [s'|] eqn:Gj; [|contradiction].
  inversion E; subst s'.
  apply (proj1 (NoDup_nth (map doc_id docs) None) ids_distinct);
    rewrite ?length_map; try assumption.
  transitivity (doc_id (nth i docs no_document));
    [exact (map_nth doc_id docs no_document i)|].
  rewrite Gi, <- Gj. symmetry.
  exact (map_nth doc_id docs no_document j).
Qed.

(** The entry the first merge loop makes for a scored position. *)
Definition entry_of_score (si : R * nat) : DocKey * Merged :=
  (id_of (doc_at (snd si)) (snd si),
   {| m_document := doc_at (snd si);
      m_semantic_score := round4 (fst si);
      m_keyword_score := 0 |}).

Lemma slice_positions (query : string) (k : Z) :
  NoDup (map snd (py_slice_to (semantic_scores docs query) k))
  /\ forall si, In si (py_slice_to (semantic_scores docs query) k) ->
                (snd si < List.length docs)%nat.
Proof.
  split.
  - destruct (py_slice_to_firstn (semantic_scores docs query) k) as [n ->].
    rewrite <- firstn_map. apply NoDup_firstn, semantic_positions_NoDup.
  - intros [s i] Hin. apply py_slice_to_In in Hin.
    now apply semantic_scores_In in Hin.
Qed.

Lemma slice_keys_NoDup (query : string) (k : Z) :
  NoDup (map (fun si => fst (entry_of_score si))
             (py_slice_to (semantic_scores docs query) k)).
Proof.
  destruct (slice_positions query k) as [Hnd Hlt].
  assert (Hs : NoDup (py_slice_to (semantic_scores docs query) k))
    by (eapply NoDup_map_inv; exact Hnd).
  apply NoDup_map_on; [exact Hs|].
  intros [s i] [s' i'] Hi Hi' E. simpl in E.
  assert (i = i') by (eapply key_injective; eauto; [apply (Hlt _ Hi)|apply (Hlt _ Hi')]).
  subst i'. eapply (NoDup_map_eq snd); eauto.
Qed.

Lemma merged_semantic_eq (query : string) (top_k : Z) :
  merged_semantic docs query top_k
  = map entry_of_score
        (py_slice_to (semantic_scores docs query) (top_k * 2)).
Proof.
  destruct (slice_positions query (top_k * 2)) as [_ Hlt].
  unfold merged_semantic, vector_results, enumerate.
  rewrite fold_merge_semantic_fresh.
  - simpl app.
    apply (map_enumerate_from _
             (fun i r => (id_of (vr_document r) i,
                          {| m_document := vr_document r;
                             m_semantic_score := vr_relevance_score r;
                             m_keyword_score := 0 |}))).
    intros i [s p] Hin. unfold entry_of_score. simpl. f_equal.
    apply id_of_explicit. apply (Hlt _ Hin).
  - simpl app.
    rewrite (map_enumerate_from _ (fun i r => id_of (vr_document r) i)
               (fun si => fst (entry_of_score si))).
    + apply slice_keys_NoDup.
    + intros i [s p] Hin. simpl. apply id_of_explicit. apply (Hlt _ Hin).
Qed.

(** What the second merge loop keeps true of every entry of [merged] while
    the scores [rest] are still to come: the entry is the entry of one
    position of the corpus, under that document's id, and its keyword score
    is the one keyword scoring gave the position, or 0 when it gave none or
    when it is still to come. *)
Definition candidate_ok (kws rest : list (nat * R)) (kd : DocKey * Merged)
  : Prop :=
  exists idx : nat,
    (idx < List.length docs)%nat
    /\ fst kd = id_of (doc_at idx) idx
    /\ m_document (snd kd) = doc_at idx
    /\ (In idx (map fst rest) -> m_keyword_score (snd kd) = 0)
    /\ (~ In idx (map fst rest) ->
        m_keyword_score (snd kd) = dict_get_default Nat.eqb kws idx 0).

Lemma merge_keyword_step (kws rest : list (nat * R))
    (merged : list (DocKey * Merged)) (idx : nat) (score : R) :
  NoDup (map fst merged) ->
  Forall (candidate_ok kws ((idx, score) :: rest)) merged ->
  (idx < List.length docs)%nat ->
  ~ In idx (map fst rest) ->
  dict_get Nat.eqb kws idx = Some score ->
  NoDup (map fst (merge_keyword_at docs merged (idx, score)))
  /\ Forall (candidate_ok kws rest) (merge_keyword_at docs merged (idx, score)).
Proof.
  intros Hnd Hall Hidx Hfresh Hget.
  unfold merge_keyword_at. simpl fst. simpl snd. fold (doc_at idx).
  set (key := id_of (doc_at idx) idx).
  assert (Hother : forall kv, In kv merged -> fst kv <> key ->
                              candidate_ok kws rest kv).
  { intros kv Hin Hne. rewrite Forall_forall in Hall.
    destruct (Hall kv Hin) as (i & Hi & Hk & Hd & H1 & H2).
    exists i. repeat split; try assumption.
    - intros Hr. apply H1. now right.
    - intros Hr. apply H2. intros [E|Hr']; [|contradiction].
      simpl in E. subst i. apply Hne. exact Hk. }
  assert (Hnew : forall v, m_document v = doc_at idx ->
                           m_keyword_score v = score ->
                           candidate_ok kws rest (key, v)).
  { intros v Hd Hs. exists idx. repeat split; try assumption.
    - intros Hr. contradiction.
    - intros _. simpl. rewrite Hs. unfold dict_get_default. now rewrite Hget. }
  destruct (dict_get DocKey_eqb merged key) as [data|] eqn:G.
  - split; [now apply (dict_set_NoDup _ DocKey_eqb_spec)|].
    apply dict_set_Forall_other; try assumption; [apply DocKey_eqb_spec|].
    apply Hnew; [|reflexivity]. simpl.
    apply (dict_get_In _ DocKey_eqb_spec) in G.
    rewrite Forall_forall in Hall.
    destruct (Hall _ G) as (i & Hi & Hk & Hd & _). simpl in Hk, Hd.
    assert (idx = i) by (eapply key_injective; eauto). now subst i.
  - split; [now apply (dict_set_NoDup _ DocKey_eqb_spec)|].
    apply dict_set_Forall_other; try assumption; [apply DocKey_eqb_spec|].
    now apply Hnew.
Qed.

Lemma merge_keyword_fold (kws : list (nat * R)) :
  NoDup (map fst kws) ->
  (forall idx v, In (idx, v) kws -> (idx < List.length docs)%nat) ->
  forall rest merged,
    NoDup (map fst rest) -> incl rest kws ->
    NoDup (map fst merged) ->
    Forall (candidate_ok kws rest) merged ->
    NoDup (map fst (fold_left (merge_keyword_at docs) rest merged))
    /\ Forall (candidate_ok kws [])
              (fold_left (merge_keyword_at docs) rest merged).
Proof.
  intros Hkws Hlt. induction rest as [|[idx score] rest IH];
    intros merged Hr Hincl Hnd Hall; simpl; [now split|].
  inversion Hr as [|? ? Hfresh Hr']; subst.
  assert (Hin : In (idx, score) kws) by (apply Hincl; now left).
  destruct (merge_keyword_step kws rest merged idx score) as [Hnd' Hall'];
    try assumption.
  - eapply Hlt; eauto.
  - now apply (dict_get_of_In _ _ _ _ Nat_eqb_spec).
  - apply IH; try assumption. intros x Hx. apply Hincl. now right.
Qed.

Lemma entries_candidate_ok (query : string) (k : Z) (kws : list (nat * R)) :
  Forall (candidate_ok kws kws)
         (map entry_of_score (py_slice_to (semantic_scores docs query) k)).
Proof.
  destruct (slice_positions query k) as [_ Hlt].
  apply Forall_forall. intros kd Hin. apply in_map_iff in Hin.
  destruct Hin as [[s i] [<- Hin]]. exists i. simpl.
  repeat split; try reflexivity; [apply (Hlt _ Hin)|].
  intros Hn. unfold dict_get_default.
  destruct (dict_get Nat.eqb kws i) as [v|] eqn:G; [|reflexivity].
  exfalso. apply Hn. apply (dict_get_In _ Nat_eqb_spec) in G.
  apply in_map_iff. now exists (i, v).
Qed.

(** The merge is by identity: every entry of [merged] is the entry of one
    document of the corpus and carries the keyword score of that document. *)
Lemma merged_dict_by_identity (query : string) (top_k : Z) :
  NoDup (map fst (merged_dict docs query top_k))
  /\ Forall (candidate_ok (keyword_scores docs query) [])
            (merged_dict docs query top_k).
Proof.
  unfold merged_dict. rewrite merged_semantic_eq.
  apply merge_keyword_fold.
  - apply keyword_scores_NoDup.
  - apply keyword_scores_keys.
  - apply keyword_scores_NoDup.
  - apply incl_refl.
  - rewrite map_map. apply slice_keys_NoDup.
  - apply entries_candidate_ok.
Qed.

Lemma merged_dict_length (query : string) (top_k : Z) :
  (List.length (merged_dict docs query top_k) <= List.length docs)%nat.
Proof.
  destruct (merged_dict_by_identity query top_k) as [Hnd Hall].
  assert (H : (List.length (map fst (merged_dict docs query top_k))
               <= List.length (map (fun i => id_of (doc_at i) i)
                                   (seq 0 (List.length docs))))%nat);
    [|now rewrite !length_map, length_seq in H].
  apply NoDup_incl_length; [exact Hnd|].
  intros key Hin. apply in_map_iff in Hin. destruct Hin as [kd [<- Hin]].
  rewrite Forall_forall in Hall.
  destruct (Hall _ Hin) as (idx & Hi & Hk & _).
  apply in_map_iff. exists idx. split; [now symmetry|].
  apply in_seq. lia.
Qed.
End ExplicitIds.

(** ** What the second merge loop leaves of the first *)

(** The key, the document and the semantic score of an entry. *)
Definition image (kd : DocKey * Merged) : DocKey * (Document * R) :=
  (fst kd, (m_document (snd kd), m_semantic_score (snd kd))).

Lemma merge_keyword_at_image (docs : list Document)
    (merged : list (DocKey * Merged)) (ks : nat * R) :
  exists tail,
    map image (merge_keyword_at docs merged ks) = map image merged ++ tail
    /\ Forall (fun t => snd (snd t) = 0) tail.
Proof.
  unfold merge_keyword_at.
  set (key := id_of (nth (fst ks) docs no_document) (fst ks)).
  destruct (dict_get DocKey_eqb merged key) as [data|] eqn:G.
  - exists []. split; [|constructor]. rewrite app_nil_r.
    apply (dict_set_same_image DocKey_eqb
             (fun m => (m_document m, m_semantic_score m)) merged key _ data G).
    reflexivity.
  - apply (dict_get_None_keys _ DocKey_eqb_spec) in G.
    rewrite (dict_set_keys_absent _ DocKey_eqb_spec) by exact G.
    rewrite map_app. eexists. split; [reflexivity|].
    constructor; [reflexivity|constructor].
Qed.

Lemma merge_keyword_fold_image (docs : list Document) (kws : list (nat * R)) :
  forall merged,
  exists tail,
    map image (fold_left (merge_keyword_at docs) kws merged)
    = map image merged ++ tail
    /\ Forall (fun t => snd (snd t) = 0) tail.
Proof.
  induction kws as [|ks kws IH]; intros merged; simpl.
  - exists []. split; [now rewrite app_nil_r|constructor].
  - destruct (merge_keyword_at_image docs merged ks) as (t1 & E1 & H1).
    destruct (IH (merge_keyword_at docs merged ks)) as (t2 & E2 & H2).
    exists (t1 ++ t2). split.
    + now rewrite E2, E1, app_assoc.
    + apply Forall_app. now split.
Qed.

(** ** The semantic scores *)

Lemma semantic_scores_nonneg (docs : list Document) (query : string) (s : R)
    (i : nat) :
  In (s, i) (semantic_scores docs query) -> 0 <= s.
Proof.
  unfold semantic_scores. intros H. apply sort_desc_In in H.
  apply in_map_iff in H. destruct H as [[j v] [E Hin]].
  simpl in E. inversion E; subst. clear E.
  assert (Hi : idf_ok (fitted_on docs)) by apply fit_idf_ok.
  apply dot_nonneg; [now apply text_vector_nonneg|].
  apply enumerate_from_In in Hin. destruct Hin as [_ Hn].
  apply nth_error_In in Hn. unfold doc_vectors in Hn.
  apply in_map_iff in Hn. destruct Hn as [text [<- _]].
  now apply text_vector_nonneg.
Qed.

Lemma semantic_scores_sorted (docs : list Document) (query : string) :
  StronglySorted (fun a b => fst b <= fst a) (semantic_scores docs query).
Proof. unfold semantic_scores. apply (sort_desc_sorted fst). Qed.


Lemma StronglySorted_all {A : Type} (Rel : A -> A -> Prop) (l : list A) :
  (forall a b, In a l -> In b l -> Rel a b) -> StronglySorted Rel l.
Proof.
  induction l as [|x l IH]; intros H; constructor.
  - apply IH. intros a b Ha Hb. apply H; now right.
  - apply Forall_forall. intros y Hy. apply H; [now left|now right].
Qed.

(** ** Semantic weight 1 *)


Section SemanticOnly.
Variable docs : list Document.
Hypothesis ids_explicit : Forall (fun d => doc_id d <> None) docs.
Hypothesis ids_distinct : NoDup (map doc_id docs).
Variable query : string.
Variable top_k : Z.
Hypothesis top_k_nonneg : (0 <= top_k)%Z.

Let e := indexed_from (HybridSearchEngine.init 1) docs.
Let scores := semantic_scores docs query.
Let slice := py_slice_to scores (top_k * 2).
Let merged := merged_dict docs query top_k.

Lemma merged_image :
  exists tail,
    map image merged
    = map (fun si => (id_of (doc_at docs (snd si)) (snd si),
                      (doc_at docs (snd si), round4 (fst si)))) slice
      ++ tail
    /\ Forall (fun t => snd (snd t) = 0) tail.
Proof.
  unfold merged, merged_dict.
  rewrite (merged_semantic_eq docs ids_explicit ids_distinct).
  destruct (merge_keyword_fold_image docs (keyword_scores docs query)
              (map (entry_of_score docs)
                   (py_slice_to (semantic_scores docs query) (top_k * 2))))
    as (tail & E & Hz).
  exists tail. split; [|exact Hz]. rewrite E, map_map. reflexivity.
Qed.




End SemanticOnly.

(** ** Semantic weight 0 *)








(** ** A query with a term repeated many times *)















(** ** Keyword scores that differ and round alike *)








Section LongQuery.
Variable N : nat.
Hypothesis N_value : INR N = 50000.







End LongQuery.





(** ** The number of results on a corpus in which every document has its
    own id *)

Lemma search_results_length (e0 : HybridSearchEngine.t)
    (docs : list Document) (query : string) (top_k : Z) :
  Forall (fun d => doc_id d <> None) docs ->
  NoDup (map doc_id docs) ->
  (0 <= top_k)%Z ->
  List.length (search_results e0 docs query top_k)
  = Nat.min (Z.to_nat top_k) (List.length docs).
Proof.
  intros Hex Hnd Hk.
  unfold search_results, HybridSearchEngine.rank.
  rewrite py_slice_to_nonneg by exact Hk.
  rewrite length_firstn, sort_desc_length, length_map.
  pose proof (merged_dict_length docs Hex Hnd query top_k) as Hle.
  destruct (merged_image docs Hex Hnd query top_k) as (tail & Himg & _).
  apply (f_equal (@List.length _)) in Himg.
  rewrite length_app, !length_map in Himg.
  rewrite py_slice_to_nonneg in Himg by lia.
  rewrite length_firstn, semantic_scores_length in Himg.
  replace (Z.to_nat (top_k * 2)) with (2 * Z.to_nat top_k)%nat in Himg by lia.
  lia.
Qed.

(** * Further properties of the code *)

(** ** The tokens *)

(** A word character that is not an upper-case letter. *)
Definition is_lower_word (c : ascii) : bool :=
  let n := nat_of_ascii c in
  (((48 <=? n) && (n <=? 57)) || (n =? 95) || ((97 <=? n) && (n <=? 122)))%nat.

Fixpoint string_forallb (p : ascii -> bool) (s : string) : bool :=
  match s with
  | EmptyString => true
  | String c s' => p c && string_forallb p s'
  end.

Lemma lower_ascii_word (c : ascii) :
  is_word (lower_ascii c) = true -> is_lower_word (lower_ascii c) = true.
Proof.
  destruct c as [[] [] [] [] [] [] [] []]; vm_compute; intros H;
    first [reflexivity | discriminate H].
Qed.

Lemma lower_ascii_idempotent (c : ascii) :
  lower_ascii (lower_ascii c) = lower_ascii c.
Proof. destruct c as [[] [] [] [] [] [] [] []]; reflexivity. Qed.

Lemma lower_idempotent (s : string) : lower (lower s) = lower s.
Proof.
  induction s as [|c s IH]; simpl; [reflexivity|].
  now rewrite lower_ascii_idempotent, IH.
Qed.

Lemma tokenize_lower (text : string) : tokenize (lower text) = tokenize text.
Proof. unfold tokenize. now rewrite lower_idempotent. Qed.

Lemma string_forallb_append (p : ascii -> bool) (s : string) (c : ascii) :
  string_forallb p (String.append s (String c EmptyString))
  = string_forallb p s && p c.
Proof.
  induction s as [|a s IH]; simpl.
  - now rewrite andb_true_r.
  - rewrite IH. now rewrite andb_assoc.
Qed.

Lemma findall_word_tokens (s cur token : string) :
  string_forallb is_lower_word cur = true ->
  string_forallb (fun c => negb (is_word c) || is_lower_word c) s = true ->
  In token (findall_word cur s) ->
  token <> EmptyString /\ string_forallb is_lower_word token = true.
Proof.
  revert cur. induction s as [|c s IH]; intros cur Hcur Hs Hin; simpl in *.
  - destruct cur; simpl in Hin; [contradiction|].
    destruct Hin as [<-|[]]. split; [discriminate|exact Hcur].
  - apply andb_true_iff in Hs. destruct Hs as [Hc Hs].
    destruct (is_word c) eqn:Hw.
    + apply (IH _ ltac:(rewrite string_forallb_append, Hcur; exact Hc) Hs Hin).
    + apply in_app_or in Hin. destruct Hin as [Hin|Hin].
      * destruct cur; simpl in Hin; [contradiction|].
        destruct Hin as [<-|[]]. split; [discriminate|exact Hcur].
      * apply (IH EmptyString eq_refl Hs Hin).
Qed.

Lemma lower_chars (s : string) :
  string_forallb (fun c => negb (is_word c) || is_lower_word c) (lower s)
  = true.
Proof.
  induction s as [|c s IH]; simpl; [reflexivity|].
  rewrite IH, andb_true_r.
  destruct (is_word (lower_ascii c)) eqn:Hw; [|reflexivity].
  now rewrite lower_ascii_word.
Qed.

(** X1. Every token that the tokenizer returns is non-empty and is made of
    digits, underscores and lower-case letters only. *)
Theorem tokenize_tokens (text token : string) :
  In token (tokenize text) ->
  token <> EmptyString /\ string_forallb is_lower_word token = true.
Proof.
  intros H. apply (findall_word_tokens (lower text) EmptyString token);
    [reflexivity|apply lower_chars|exact H].
Qed.

Lemma tokenize_tokens_witness :
  "world_1" <> EmptyString /\ string_forallb is_lower_word "world_1" = true.
Proof.
  apply (tokenize_tokens "Hello, World_1 foo-bar" "world_1").
  vm_compute. right. left. reflexivity.
Defined.

(** X2. On an indexed engine the search depends on the query through its
    tokens only: two queries with the same tokens (the same words up to case,
    punctuation and spacing) get the same results. *)
Theorem search_depends_on_tokens (e0 : HybridSearchEngine.t)
    (docs : list Document) (query query' : string) (top_k : Z) :
  tokenize query = tokenize query' ->
  HybridSearchEngine.search (fst (HybridSearchEngine.add_documents e0 docs))
    query top_k
  = HybridSearchEngine.search (fst (HybridSearchEngine.add_documents e0 docs))
      query' top_k.
Proof.
  intros H. rewrite add_documents_indexed. unfold fst.
  rewrite !search_indexed. f_equal. f_equal.
  unfold search_results, merged_dict, merged_semantic, vector_results,
    semantic_scores, keyword_scores, accumulated_scores, text_vector.
  now rewrite H.
Qed.

Lemma search_depends_on_tokens_witness :
  HybridSearchEngine.search
    (fst (HybridSearchEngine.add_documents (HybridSearchEngine.init (7 / 10))
            fruit_docs)) "Banana, BANANA!" 5
  = HybridSearchEngine.search
      (fst (HybridSearchEngine.add_documents
              (HybridSearchEngine.init (7 / 10)) fruit_docs))
      "banana banana" 5.
Proof.
  apply (search_depends_on_tokens (HybridSearchEngine.init (7 / 10))
           fruit_docs "Banana, BANANA!" "banana banana" 5).
  vm_compute. reflexivity.
Defined.

(** ** The vocabulary and the weights after [fit] *)

Lemma dict_set_keys_iff {K V : Type} (eqb : K -> K -> bool) (d : list (K * V))
    (k k0 : K) (v : V) :
  (forall a b, eqb a b = true <-> a = b) ->
  (In k0 (map fst (dict_set eqb d k v)) <-> k0 = k \/ In k0 (map fst d)).
Proof.
  intros Hs. destruct (dict_keys_dec eqb Hs k (map fst d)) as [Hin|Hin].
  - rewrite (dict_set_keys_present _ Hs) by exact Hin.
    split; [tauto|]. intros [->|H]; assumption.
  - rewrite (dict_set_keys_absent _ Hs) by exact Hin.
    rewrite map_app, in_app_iff. simpl. intuition.
Qed.

Lemma counter_fold_keys (ts : list string) (c : list (string * nat))
    (k : string) :
  In k (map fst (fold_left counter_incr ts c)) <-> In k ts \/ In k (map fst c).
Proof.
  revert c. induction ts as [|t ts IH]; intros c; simpl; [tauto|].
  rewrite IH. unfold counter_incr.
  rewrite (dict_set_keys_iff _ _ _ _ _ String_eqb_spec). intuition.
Qed.

Lemma counter_fold_NoDup (ts : list string) (c : list (string * nat)) :
  NoDup (map fst c) -> NoDup (map fst (fold_left counter_incr ts c)).
Proof.
  revert c. induction ts as [|t ts IH]; intros c H; simpl; [exact H|].
  apply IH. unfold counter_incr. now apply (dict_set_NoDup _ String_eqb_spec).
Qed.

(** [doc_freq] of [fit]. *)
Definition doc_freq_of (documents : list string) : list (string * nat) :=
  fold_left SimpleEmbedder.count_document documents [].

Lemma doc_freq_keys (documents : list string) (c : list (string * nat))
    (k : string) :
  In k (map fst (fold_left SimpleEmbedder.count_document documents c))
  <-> (exists doc, In doc documents /\ In k (tokenize doc))
      \/ In k (map fst c).
Proof.
  revert c. induction documents as [|d l IH]; intros c; simpl.
  - split; [tauto|]. intros [[doc [[] _]]|H]; exact H.
  - rewrite IH. unfold SimpleEmbedder.count_document.
    rewrite counter_fold_keys, py_set_In. unfold SimpleEmbedder._tokenize.
    split.
    + intros [[doc [Hd Hk]]|[Hk|Hk]]; eauto.
    + intros [[doc [[<-|Hd] Hk]]|Hk]; eauto.
Qed.

Lemma doc_freq_NoDup (documents : list string) (c : list (string * nat)) :
  NoDup (map fst c) ->
  NoDup (map fst (fold_left SimpleEmbedder.count_document documents c)).
Proof.
  revert c. induction documents as [|d l IH]; intros c H; simpl; [exact H|].
  apply IH. now apply counter_fold_NoDup.
Qed.

Lemma enumerate_from_map_snd_fst {A B : Type} (s : nat) (l : list (A * B)) :
  map fst (map (fun iw => (fst (snd iw), fst iw)) (enumerate_from s l))
  = map fst l
  /\ map snd (map (fun iw => (fst (snd iw), fst iw)) (enumerate_from s l))
     = seq s (List.length l).
Proof.
  revert s. induction l as [|x l IH]; intros s; simpl; [now split|].
  destruct (IH (S s)) as [H1 H2]. now rewrite H1, H2.
Qed.

Lemma fit_keys (self : SimpleEmbedder.t) (documents : list string) :
  NoDup (map fst (SimpleEmbedder.vocab (SimpleEmbedder.fit self documents)))
  /\ map fst (SimpleEmbedder.idf (SimpleEmbedder.fit self documents))
     = map fst (SimpleEmbedder.vocab (SimpleEmbedder.fit self documents)).
Proof.
  unfold SimpleEmbedder.fit. simpl. fold (doc_freq_of documents).
  unfold enumerate.
  destruct (enumerate_from_map_snd_fst 0
              (map (fun wdf => (fst wdf,
                                smoothed_idf (List.length documents) (snd wdf)))
                   (doc_freq_of documents))) as [H1 _].
  rewrite H1, !map_map. simpl.
  split; [apply doc_freq_NoDup; constructor|reflexivity].
Qed.

(** X3. After [fit] the vocabulary holds exactly the tokens that occur in
    the documents, each once, numbered 0, 1, 2, ... in the order of the
    dict, and [idf] has the same keys in the same order. *)
Theorem fit_vocabulary (self : SimpleEmbedder.t) (documents : list string) :
  let fitted := SimpleEmbedder.fit self documents in
  NoDup (map fst (SimpleEmbedder.vocab fitted))
  /\ (forall w, In w (map fst (SimpleEmbedder.vocab fitted))
                <-> exists doc, In doc documents /\ In w (tokenize doc))
  /\ map snd (SimpleEmbedder.vocab fitted)
     = seq 0 (List.length (SimpleEmbedder.vocab fitted))
  /\ map fst (SimpleEmbedder.idf fitted)
     = map fst (SimpleEmbedder.vocab fitted).
Proof.
  intros fitted. subst fitted. unfold SimpleEmbedder.fit. simpl.
  fold (doc_freq_of documents). unfold enumerate.
  destruct (enumerate_from_map_snd_fst 0
              (map (fun wdf => (fst wdf,
                                smoothed_idf (List.length documents) (snd wdf)))
                   (doc_freq_of documents))) as [H1 H2].
  rewrite H1, H2, !length_map, enumerate_from_length, !length_map, !map_map.
  simpl.
  split; [apply doc_freq_NoDup; constructor|].
  split; [|split; reflexivity].
  intros w. unfold doc_freq_of. rewrite doc_freq_keys. simpl. tauto.
Qed.

(** ** Document frequencies and the weights *)

(** [w] is one of the tokens of [text]. *)
Definition contains (w : string) (text : string) : bool :=
  existsb (String.eqb w) (tokenize text).

(** The number of documents that contain [w]. *)
Definition document_frequency (w : string) (documents : list string) : nat :=
  List.length (filter (contains w) documents).

Lemma contains_In (w text : string) :
  contains w text = true <-> In w (tokenize text).
Proof.
  unfold contains. rewrite existsb_exists. split.
  - intros [x [Hx E]]. apply String.eqb_eq in E. now subst.
  - intros H. exists w. split; [exact H|apply String.eqb_refl].
Qed.

Lemma existsb_py_set (w : string) (l : list string) :
  existsb (String.eqb w) (py_set l) = existsb (String.eqb w) l.
Proof.
  apply eq_true_iff_eq. rewrite !existsb_exists.
  split; intros [x [Hx E]]; exists x; (split; [|exact E]);
    now apply py_set_In.
Qed.

Lemma existsb_eqb_false {A : Type} (eqb : A -> A -> bool) (x : A)
    (l : list A) :
  (forall a b, eqb a b = true <-> a = b) ->
  ~ In x l -> existsb (eqb x) l = false.
Proof.
  intros Hs Hx. apply not_true_is_false. intros H.
  apply existsb_exists in H. destruct H as [y [Hy E]].
  apply Hs in E. subst. contradiction.
Qed.

Lemma counter_fold_get (ts : list string) :
  NoDup ts ->
  forall c w,
    dict_get_default String.eqb (fold_left counter_incr ts c) w 0%nat
    = (dict_get_default String.eqb c w 0
       + (if existsb (String.eqb w) ts then 1 else 0))%nat.
Proof.
  induction 1 as [|t ts Ht Hnd IH]; intros c w; simpl; [lia|].
  rewrite IH. unfold counter_incr at 1. unfold dict_get_default at 1.
  destruct (String.eqb w t) eqn:E; simpl.
  - apply String.eqb_eq in E. subst w.
    rewrite (dict_get_set_same _ String_eqb_spec).
    rewrite (existsb_eqb_false _ _ _ String_eqb_spec Ht). lia.
  - apply String.eqb_neq in E.
    rewrite (dict_get_set_other _ String_eqb_spec) by exact E.
    reflexivity.
Qed.

Lemma doc_freq_get (documents : list string) (c : list (string * nat))
    (w : string) :
  dict_get_default String.eqb
    (fold_left SimpleEmbedder.count_document documents c) w 0%nat
  = (dict_get_default String.eqb c w 0
     + document_frequency w documents)%nat.
Proof.
  revert c. induction documents as [|d l IH]; intros c.
  - unfold document_frequency. simpl. lia.
  - change (fold_left SimpleEmbedder.count_document (d :: l) c)
      with (fold_left SimpleEmbedder.count_document l
              (SimpleEmbedder.count_document c d)).
    rewrite IH. unfold SimpleEmbedder.count_document, SimpleEmbedder._tokenize.
    rewrite counter_fold_get by apply py_set_NoDup. rewrite existsb_py_set.
    unfold document_frequency. simpl filter. fold (contains w d).
    destruct (contains w d); simpl; lia.
Qed.

Lemma counter_fold_pos (ts : list string) (c : list (string * nat)) :
  Forall (fun kv => (1 <= snd kv)%nat) c ->
  Forall (fun kv => (1 <= snd kv)%nat) (fold_left counter_incr ts c).
Proof.
  revert c. induction ts as [|t ts IH]; intros c H; simpl; [exact H|].
  apply IH. unfold counter_incr.
  apply dict_set_Forall; [apply String_eqb_spec|exact H|]. simpl. lia.
Qed.

Lemma doc_freq_pos (documents : list string) :
  Forall (fun kv => (1 <= snd kv)%nat) (doc_freq_of documents).
Proof.
  unfold doc_freq_of.
  assert (G : forall l c, Forall (fun kv => (1 <= snd kv)%nat) c ->
              Forall (fun kv => (1 <= snd kv)%nat)
                     (fold_left SimpleEmbedder.count_document l c)).
  { induction l as [|d l IH]; intros c H; simpl; [exact H|].
    apply IH. now apply counter_fold_pos. }
  apply G. constructor.
Qed.

Lemma document_frequency_le (w : string) (documents : list string) :
  (document_frequency w documents <= List.length documents)%nat.
Proof. apply filter_length_le. Qed.

Lemma doc_freq_lookup (documents : list string) (w : string) :
  dict_get String.eqb (doc_freq_of documents) w
  = match document_frequency w documents with
    | O => None
    | S k => Some (S k)
    end.
Proof.
  pose proof (doc_freq_get documents [] w) as G.
  fold (doc_freq_of documents) in G. unfold dict_get_default in G.
  simpl in G.
  destruct (dict_get String.eqb (doc_freq_of documents) w) as [v|] eqn:E.
  - apply (dict_get_In _ String_eqb_spec) in E.
    pose proof (doc_freq_pos documents) as Hp.
    rewrite Forall_forall in Hp. specialize (Hp _ E). simpl in Hp.
    rewrite <- G. destruct v; [lia|reflexivity].
  - now rewrite <- G.
Qed.

Lemma dict_get_map_values {K V W : Type} (eqb : K -> K -> bool) (f : V -> W)
    (d : list (K * V)) (k : K) :
  dict_get eqb (map (fun kv => (fst kv, f (snd kv))) d) k
  = option_map f (dict_get eqb d k).
Proof.
  induction d as [|[k' v] d IH]; simpl; [reflexivity|].
  destruct (eqb k k'); [reflexivity|exact IH].
Qed.

Lemma fit_idf_lookup (self : SimpleEmbedder.t) (documents : list string)
    (w : string) :
  dict_get String.eqb (SimpleEmbedder.idf (SimpleEmbedder.fit self documents))
    w
  = match document_frequency w documents with
    | O => None
    | S k => Some (smoothed_idf (List.length documents) (S k))
    end.
Proof.
  unfold SimpleEmbedder.fit. simpl. fold (doc_freq_of documents).
  rewrite (dict_get_map_values String.eqb
             (smoothed_idf (List.length documents))).
  rewrite doc_freq_lookup.
  now destruct (document_frequency w documents).
Qed.

Lemma smoothed_idf_antitone (n df df' : nat) :
  (df <= df')%nat -> smoothed_idf n df' <= smoothed_idf n df.
Proof.
  intros H. unfold smoothed_idf.
  assert (Hn : 0 < INR (n + 1)) by (apply lt_0_INR; lia).
  assert (Hd : 0 < INR (df + 1)) by (apply lt_0_INR; lia).
  assert (Hd' : 0 < INR (df' + 1)) by (apply lt_0_INR; lia).
  assert (Hle : INR (df + 1) <= INR (df' + 1)) by (apply le_INR; lia).
  assert (Hq : INR (n + 1) / INR (df' + 1) <= INR (n + 1) / INR (df + 1)).
  { unfold Rdiv. apply Rmult_le_compat_l; [lra|].
    apply Rinv_le_contravar; assumption. }
  assert (Hp : 0 < INR (n + 1) / INR (df' + 1))
    by (apply Rdiv_lt_0_compat; assumption).
  destruct Hq as [Hq|Hq].
  - apply Rplus_le_compat_r. left. now apply ln_increasing.
  - rewrite Hq. lra.
Qed.

(** X4. After [fit] on n documents, a term that occurs in df >= 1 of them
    (counted once per document, however often it occurs there) has the
    weight ln((n + 1) / (df + 1)) + 1, and a term that occurs in none has no
    weight. *)
Theorem fit_idf_formula (self : SimpleEmbedder.t) (documents : list string)
    (w : string) :
  let n := List.length documents in
  let df := List.length
              (filter (fun doc => existsb (String.eqb w) (tokenize doc))
                      documents) in
  (df <= n)%nat
  /\ dict_get String.eqb
       (SimpleEmbedder.idf (SimpleEmbedder.fit self documents)) w
     = if (df =? 0)%nat then None
       else Some (ln (INR (n + 1) / INR (df + 1)) + 1).
Proof.
  intros n df. split; [apply filter_length_le|].
  rewrite fit_idf_lookup. unfold document_frequency, contains.
  fold df. now destruct df.
Qed.

(** X5. Every weight that [fit] computes on n documents lies between 1 and
    ln((n + 1) / 2) + 1. *)
Theorem fit_idf_bounds (self : SimpleEmbedder.t) (documents : list string) :
  let n := List.length documents in
  Forall (fun kv => 1 <= snd kv <= ln (INR (n + 1) / 2) + 1)
         (SimpleEmbedder.idf (SimpleEmbedder.fit self documents)).
Proof.
  intros n. apply Forall_forall. intros [w x] Hin.
  assert (Hnd : NoDup (map fst (SimpleEmbedder.idf
                                  (SimpleEmbedder.fit self documents)))).
  { destruct (fit_keys self documents) as [H1 H2].
    now rewrite H2. }
  apply (dict_get_of_In _ _ _ _ String_eqb_spec Hnd) in Hin.
  rewrite fit_idf_lookup in Hin. simpl.
  pose proof (document_frequency_le w documents) as Hle.
  destruct (document_frequency w documents) as [|k]; [discriminate|].
  inversion Hin; subst x. split.
  - apply smoothed_idf_ge_1. exact Hle.
  - replace (ln (INR (n + 1) / 2) + 1) with (smoothed_idf n 1)
      by (unfold smoothed_idf; simpl; do 2 f_equal; lra).
    apply smoothed_idf_antitone. lia.
Qed.

(** X6. Of two terms of the fitted vocabulary, the one found in fewer
    documents never has the smaller weight. *)
Theorem fit_idf_rarer_heavier (self : SimpleEmbedder.t)
    (documents : list string) (w w' : string) (x x' : R) :
  let fitted := SimpleEmbedder.fit self documents in
  dict_get String.eqb (SimpleEmbedder.idf fitted) w = Some x ->
  dict_get String.eqb (SimpleEmbedder.idf fitted) w' = Some x' ->
  (document_frequency w documents <= document_frequency w' documents)%nat ->
  x' <= x.
Proof.
  intros fitted Hw Hw' Hle. subst fitted. rewrite fit_idf_lookup in Hw, Hw'.
  destruct (document_frequency w documents) as [|k]; [discriminate|].
  destruct (document_frequency w' documents) as [|k']; [discriminate|].
  inversion Hw; inversion Hw'; subst.
  now apply smoothed_idf_antitone.
Qed.

Lemma fit_idf_rarer_heavier_witness : smoothed_idf 2 2 <= smoothed_idf 2 1.
Proof.
  apply (fit_idf_rarer_heavier SimpleEmbedder.init ["a b"; "a"] "b" "a"
           (smoothed_idf 2 1) (smoothed_idf 2 2)).
  - cbv -[smoothed_idf]. reflexivity.
  - cbv -[smoothed_idf]. reflexivity.
  - vm_compute. lia.
Defined.

(** ** The inverted index *)

Lemma posting_fold_get (i : nat) (ts : list string) :
  NoDup ts ->
  forall index token,
    dict_get_default String.eqb
      (fold_left (fun ix t => HybridSearchEngine.posting_append ix i t)
                 ts index) token []
    = dict_get_default String.eqb index token []
      ++ (if existsb (String.eqb token) ts then [i] else []).
Proof.
  induction 1 as [|t ts Ht Hnd IH]; intros index token; simpl;
    [now rewrite app_nil_r|].
  rewrite IH. unfold HybridSearchEngine.posting_append at 1.
  unfold dict_get_default at 1.
  destruct (String.eqb token t) eqn:E; simpl.
  - apply String.eqb_eq in E. subst token.
    rewrite (dict_get_set_same _ String_eqb_spec).
    rewrite (existsb_eqb_false _ _ _ String_eqb_spec Ht).
    now rewrite app_nil_r.
  - apply String.eqb_neq in E.
    rewrite (dict_get_set_other _ String_eqb_spec) by exact E.
    reflexivity.
Qed.

Lemma index_fold_get (el : list (nat * Document))
    (index : list (string * list nat)) (token : string) :
  dict_get_default String.eqb
    (fold_left HybridSearchEngine.index_document el index) token []
  = dict_get_default String.eqb index token []
    ++ map fst (filter (fun id => contains token (content_of (snd id))) el).
Proof.
  revert index. induction el as [|[i doc] el IH]; intros index.
  - simpl. now rewrite app_nil_r.
  - change (fold_left HybridSearchEngine.index_document ((i, doc) :: el) index)
      with (fold_left HybridSearchEngine.index_document el
              (HybridSearchEngine.index_document index (i, doc))).
    rewrite IH. unfold HybridSearchEngine.index_document at 1.
    simpl fst. simpl snd.
    rewrite posting_fold_get by apply py_set_NoDup. rewrite existsb_py_set.
    simpl filter. fold (contains token (content_of doc)).
    destruct (contains token (content_of doc)); simpl.
    + now rewrite <- app_assoc.
    + now rewrite app_nil_r.
Qed.

Lemma filter_enumerate_from {A : Type} (g : A -> bool) (d : A) (l : list A)
    (s : nat) :
  map fst (filter (fun id => g (snd id)) (enumerate_from s l))
  = filter (fun i => g (nth (i - s) l d)) (seq s (List.length l)).
Proof.
  revert s. induction l as [|x l IH]; intros s; [reflexivity|].
  assert (E : filter (fun i => g (nth (i - s) (x :: l) d))
                     (seq (S s) (List.length l))
              = filter (fun i => g (nth (i - S s) l d))
                       (seq (S s) (List.length l))).
  { apply filter_ext_in. intros i Hi. apply in_seq in Hi.
    replace (i - s)%nat with (S (i - S s)) by lia. reflexivity. }
  cbn [enumerate_from List.length seq filter snd].
  rewrite E, <- IH, Nat.sub_diag. cbn [nth].
  now destruct (g x).
Qed.

(** The positions of the documents that contain [token], in increasing
    order. *)
Definition positions_with (token : string) (docs : list Document) : list nat :=
  filter (fun i => contains token (content_of (nth i docs no_document)))
         (seq 0 (List.length docs)).

Lemma positions_with_In (token : string) (docs : list Document) (d : nat) :
  In d (positions_with token docs)
  <-> (d < List.length docs)%nat
      /\ In token (tokenize (content_of (nth d docs no_document))).
Proof.
  unfold positions_with. rewrite filter_In, in_seq, contains_In.
  split; intros [H1 H2]; (split; [lia|exact H2]).
Qed.

Lemma posting_fold_nonempty (i : nat) (ts : list string)
    (index : list (string * list nat)) :
  Forall (fun kv => snd kv <> []) index ->
  Forall (fun kv => snd kv <> [])
    (fold_left (fun ix t => HybridSearchEngine.posting_append ix i t)
               ts index).
Proof.
  revert index. induction ts as [|t ts IH]; intros index H; simpl; [exact H|].
  apply IH. unfold HybridSearchEngine.posting_append.
  apply dict_set_Forall; [apply String_eqb_spec|exact H|]. simpl.
  intros E. apply app_eq_nil in E. destruct E as [_ E]. discriminate E.
Qed.

Lemma build_inverted_index_nonempty (docs : list Document) :
  Forall (fun kv => snd kv <> [])
         (HybridSearchEngine.build_inverted_index docs).
Proof.
  unfold HybridSearchEngine.build_inverted_index.
  assert (G : forall el index, Forall (fun kv => snd kv <> []) index ->
              Forall (fun kv : string * list nat => snd kv <> [])
                (fold_left HybridSearchEngine.index_document el index)).
  { induction el as [|id el IH]; intros index H; simpl; [exact H|].
    apply IH. now apply posting_fold_nonempty. }
  apply G. constructor.
Qed.

Lemma build_inverted_index_lookup (docs : list Document) (token : string) :
  dict_get String.eqb (HybridSearchEngine.build_inverted_index docs) token
  = match positions_with token docs with
    | [] => None
    | p => Some p
    end.
Proof.
  pose proof (index_fold_get (enumerate docs) [] token) as G.
  fold (HybridSearchEngine.build_inverted_index docs) in G.
  unfold enumerate in G.
  rewrite (filter_enumerate_from (fun doc => contains token (content_of doc))
             no_document docs 0) in G.
  assert (E : filter (fun i => contains token
                                 (content_of (nth (i - 0) docs no_document)))
                     (seq 0 (List.length docs))
              = positions_with token docs).
  { unfold positions_with. apply filter_ext. intros i.
    now rewrite Nat.sub_0_r. }
  rewrite E in G. clear E. unfold dict_get_default in G. simpl in G.
  destruct (dict_get String.eqb
              (HybridSearchEngine.build_inverted_index docs) token)
    as [p|] eqn:Hp.
  - rewrite <- G.
    apply (dict_get_In _ String_eqb_spec) in Hp.
    pose proof (build_inverted_index_nonempty docs) as Hne.
    rewrite Forall_forall in Hne. specialize (Hne _ Hp). simpl in Hne.
    destruct p; [contradiction|reflexivity].
  - now rewrite <- G.
Qed.

(** X7. After [add_documents(docs)] the inverted index maps a token to the
    increasing list of exactly the positions of the documents whose content
    has the token, each position once, and has no entry for a token that no
    document has. *)
Theorem add_documents_inverted_index (e0 : HybridSearchEngine.t)
    (docs : list Document) :
  exists index,
    HybridSearchEngine._inverted_index
      (fst (HybridSearchEngine.add_documents e0 docs)) = Some index
    /\ forall token,
         dict_get String.eqb index token
         = match filter (fun i => existsb (String.eqb token)
                                    (tokenize
                                       (content_of (nth i docs no_document))))
                        (seq 0 (List.length docs)) with
           | [] => None
           | p => Some p
           end.
Proof.
  exists (HybridSearchEngine.build_inverted_index docs).
  rewrite add_documents_indexed. split; [reflexivity|].
  intros token. apply build_inverted_index_lookup.
Qed.

(** ** Which documents get a keyword score *)

Lemma score_fold_keys (idf : R) (p : list nat) (scores : list (nat * R))
    (d : nat) :
  In d (map fst (fold_left (HybridSearchEngine.score_add idf) p scores))
  <-> In d p \/ In d (map fst scores).
Proof.
  revert scores. induction p as [|i p IH]; intros scores; simpl; [tauto|].
  rewrite IH. unfold HybridSearchEngine.score_add.
  rewrite (dict_set_keys_iff _ _ _ _ _ Nat_eqb_spec). intuition.
Qed.

Lemma keyword_token_keys (docs : list Document) (scores : list (nat * R))
    (token : string) (d : nat) :
  In d (map fst (keyword_token docs scores token))
  <-> In d (positions_with token docs) \/ In d (map fst scores).
Proof.
  unfold keyword_token. rewrite build_inverted_index_lookup.
  destruct (positions_with token docs) as [|i p] eqn:E.
  - simpl. tauto.
  - rewrite score_fold_keys. tauto.
Qed.

Lemma accumulated_scores_keys (docs : list Document) (query : string)
    (d : nat) :
  In d (map fst (accumulated_scores docs query))
  <-> exists token, In token (tokenize query)
                    /\ In d (positions_with token docs).
Proof.
  unfold accumulated_scores.
  assert (G : forall ts scores,
              In d (map fst (fold_left (keyword_token docs) ts scores))
              <-> (exists token, In token ts
                                 /\ In d (positions_with token docs))
                  \/ In d (map fst scores)).
  { induction ts as [|t ts IH]; intros scores; simpl.
    - split; [tauto|]. intros [[token [[] _]]|H]; exact H.
    - rewrite IH, keyword_token_keys. split.
      + intros [[token [Ht Hd]]|[Hd|Hd]]; eauto.
      + intros [[token [[<-|Ht] Hd]]|Hd]; eauto. }
  rewrite G. simpl. tauto.
Qed.

(** X8. On an indexed engine, keyword scoring gives a score to exactly the
    documents that share at least one token with the query: position d is a
    key of the returned mapping if and only if d is a position of the corpus
    and some token of the query is a token of document d. *)
Theorem keyword_search_matches (e0 : HybridSearchEngine.t)
    (docs : list Document) (query : string) :
  exists scores,
    HybridSearchEngine._keyword_search
      (fst (HybridSearchEngine.add_documents e0 docs)) query = Ok scores
    /\ NoDup (map fst scores)
    /\ forall d,
         In d (map fst scores)
         <-> (d < List.length docs)%nat
             /\ exists token,
                  In token (tokenize query)
                  /\ In token (tokenize (content_of (nth d docs no_document))).
Proof.
  exists (keyword_scores docs query).
  rewrite add_documents_indexed. simpl fst.
  split; [apply keyword_search_indexed|].
  split; [apply keyword_scores_NoDup|].
  intros d. unfold keyword_scores. rewrite map_map. simpl.
  rewrite accumulated_scores_keys. split.
  - intros [token [Ht Hd]]. apply positions_with_In in Hd.
    destruct Hd as [H1 H2]. split; [exact H1|]. now exists token.
  - intros [H1 [token [Ht Hd]]]. exists token. split; [exact Ht|].
    apply positions_with_In. now split.
Qed.

(** ** The similarity of two normalised vectors *)

Lemma dot_le_squares (u v : list R) :
  dot u v <= (sum_squares u + sum_squares v) / 2.
Proof.
  revert v. induction u as [|a u IH]; intros v.
  - pose proof (sum_squares_nonneg v). unfold dot, py_sum, sum_squares at 1.
    simpl. unfold py_sum. simpl. lra.
  - destruct v as [|b v].
    + pose proof (sum_squares_nonneg (a :: u)).
      unfold dot, py_sum, sum_squares at 2. simpl. unfold py_sum. simpl. lra.
    + unfold dot. simpl combine. simpl map. rewrite py_sum_cons.
      fold (dot u v). rewrite !sum_squares_cons. specialize (IH v).
      cbn [fst snd]. pose proof (Rle_0_sqr (a - b)) as H.
      unfold Rsqr in H. lra.
Qed.

Lemma sum_squares_normalize_le (v : list R) : sum_squares (normalize v) <= 1.
Proof.
  destruct (Req_dec_T (sqrt (sum_squares v)) 0) as [E|N].
  - rewrite (normalize_zero v E), sum_squares_repeat_0. lra.
  - pose proof (normalize_unit v N) as H.
    pose proof (sum_squares_nonneg (normalize v)) as Hn.
    rewrite <- (sqrt_sqrt _ Hn), H. lra.
Qed.

Lemma text_vector_dot_le_1 (emb emb' : SimpleEmbedder.t) (text text' : string) :
  dot (text_vector emb text) (text_vector emb' text') <= 1.
Proof.
  pose proof (dot_le_squares (text_vector emb text) (text_vector emb' text')).
  pose proof (sum_squares_normalize_le (raw_vector emb (tokenize text))).
  pose proof (sum_squares_normalize_le (raw_vector emb' (tokenize text'))).
  unfold text_vector in *. lra.
Qed.

Lemma semantic_scores_le_1 (docs : list Document) (query : string) (s : R)
    (i : nat) :
  In (s, i) (semantic_scores docs query) -> s <= 1.
Proof.
  unfold semantic_scores. intros H. apply sort_desc_In in H.
  apply in_map_iff in H. destruct H as [[j v] [E Hin]].
  simpl in E. inversion E; subst. clear E.
  apply enumerate_from_In in Hin. destruct Hin as [_ Hn].
  apply nth_error_In in Hn. unfold doc_vectors in Hn.
  apply in_map_iff in Hn. destruct Hn as [text [<- _]].
  apply text_vector_dot_le_1.
Qed.

Lemma round4_1 : round4 1 = 1.
Proof.
  replace 1 with (IZR 10000 / 10000) at 1 by lra. rewrite round4_exact. lra.
Qed.

Lemma round4_unit (x : R) : 0 <= x <= 1 -> 0 <= round4 x <= 1.
Proof.
  intros [H0 H1]. split; [now apply round4_nonneg|].
  rewrite <- round4_1. now apply round4_le.
Qed.

Lemma py_slice_to_length {A : Type} (l : list A) (k : Z) :
  List.length (py_slice_to l k)
  = if (0 <=? k)%Z then Nat.min (Z.to_nat k) (List.length l)
    else (List.length l - Z.to_nat (- k))%nat.
Proof.
  unfold py_slice_to. destruct (0 <=? k)%Z; rewrite length_firstn; lia.
Qed.

(** ** Search on the vector store alone *)

(** [create_rag_engine(documents, hybrid=False)] *)
Definition create_rag_engine_not_hybrid (docs : list Document)
  : FAISSVectorStore.t SimpleEmbedder.t * Result unit :=
  FAISSVectorStore.add_documents (FAISSVectorStore.init get_embedder_simple)
    docs.

(** X9. On a vector store on which [add_documents(docs)] has run (as
    [create_rag_engine] with [hybrid=False] leaves it), [search] returns
    without raising and without changing the store.  For [top_k >= 0] it
    returns min(top_k, N) results, for a negative [top_k] all but the last
    [-top_k] of the N; the results are documents of the corpus at pairwise
    distinct positions, their scores are in [0, 1] and in descending
    order. *)
Theorem vector_search_results (vs : FAISSVectorStore.t SimpleEmbedder.t)
    (docs : list Document) (query : string) (top_k : Z) :
  let store := fst (FAISSVectorStore.add_documents vs docs) in
  let N := List.length docs in
  fst (create_rag_engine_not_hybrid docs) = store
  /\ exists results positions,
       FAISSVectorStore.search store query top_k = (store, Ok results)
       /\ List.length results
          = (if (0 <=? top_k)%Z then Nat.min (Z.to_nat top_k) N
             else (N - Z.to_nat (- top_k))%nat)
       /\ NoDup positions
       /\ Forall (fun i => (i < N)%nat) positions
       /\ map vr_document results
          = map (fun i => nth i docs no_document) positions
       /\ StronglySorted
            (fun a b => vr_relevance_score b <= vr_relevance_score a) results
       /\ Forall (fun r => 0 <= vr_relevance_score r <= 1) results.
Proof.
  intros store N. subst store N. unfold create_rag_engine_not_hybrid.
  rewrite !vs_add_documents_indexed. simpl fst. split; [reflexivity|].
  exists (vector_results docs query top_k),
    (map snd (py_slice_to (semantic_scores docs query) top_k)).
  split; [apply vs_search_indexed|].
  unfold vector_results.
  split; [now rewrite length_map, py_slice_to_length, semantic_scores_length|].
  destruct (py_slice_to_firstn (semantic_scores docs query) top_k) as [n E].
  split.
  { rewrite E, <- firstn_map. apply NoDup_firstn, semantic_positions_NoDup. }
  split.
  { apply Forall_forall. intros i Hi. apply in_map_iff in Hi.
    destruct Hi as [[s j] [<- Hin]]. apply py_slice_to_In in Hin.
    now apply semantic_scores_In in Hin. }
  split; [now rewrite !map_map|].
  split.
  - apply StronglySorted_map. simpl. rewrite E.
    apply StronglySorted_firstn.
    apply (StronglySorted_impl (fun a b => fst b <= fst a));
      [|apply semantic_scores_sorted].
    intros a b _ _ H. now apply round4_le.
  - apply Forall_forall. intros r Hr. apply in_map_iff in Hr.
    destruct Hr as [[s j] [<- Hin]]. apply py_slice_to_In in Hin. simpl.
    apply round4_unit. split.
    + now apply (semantic_scores_nonneg docs query s j).
    + now apply (semantic_scores_le_1 docs query s j).
Qed.

(** ** A query that is the text of a document *)

Lemma fit_vocab_In (self : SimpleEmbedder.t) (documents : list string)
    (w : string) :
  In w (map fst (SimpleEmbedder.vocab (SimpleEmbedder.fit self documents)))
  <-> exists doc, In doc documents /\ In w (tokenize doc).
Proof.
  destruct (fit_keys self documents) as [_ <-].
  unfold SimpleEmbedder.fit. simpl. rewrite map_map. simpl.
  rewrite doc_freq_keys. simpl. tauto.
Qed.

Lemma in_vocab_fitted_on (docs : list Document) (doc : Document) (w : string) :
  In doc docs -> In w (tokenize (content_of doc)) ->
  in_vocab (fitted_on docs) w = true.
Proof.
  intros Hd Hw. unfold in_vocab, dict_mem.
  destruct (dict_get String.eqb (SimpleEmbedder.vocab (fitted_on docs)) w)
    eqn:G; [reflexivity|].
  apply (dict_get_None_keys _ String_eqb_spec) in G. exfalso. apply G.
  unfold fitted_on. apply fit_vocab_In. exists (content_of doc).
  split; [now apply in_map|exact Hw].
Qed.

Lemma dot_self (v : list R) : dot v v = sum_squares v.
Proof.
  unfold dot, sum_squares. induction v as [|x v IH]; [reflexivity|].
  simpl combine. simpl map. rewrite !py_sum_cons, IH. reflexivity.
Qed.

Lemma In_enumerate_from {A : Type} (s : nat) (l : list A) (i : nat) (d : A) :
  (i < List.length l)%nat -> In ((s + i)%nat, nth i l d) (enumerate_from s l).
Proof.
  revert s i. induction l as [|x l IH]; intros s i Hi; simpl in Hi; [lia|].
  destruct i as [|i]; simpl.
  - left. now rewrite Nat.add_0_r.
  - right. replace (s + S i)%nat with (S s + i)%nat by lia.
    apply IH. lia.
Qed.

Lemma self_score (docs : list Document) (i : nat) :
  (i < List.length docs)%nat ->
  tokenize (content_of (nth i docs no_document)) <> [] ->
  In (1, i) (semantic_scores docs (content_of (nth i docs no_document))).
Proof.
  intros Hi Ht. unfold semantic_scores. apply sort_desc_In.
  apply in_map_iff.
  exists (i, nth i (doc_vectors docs) []). split.
  - simpl. f_equal.
    assert (E : nth i (doc_vectors docs) []
                = text_vector (fitted_on docs)
                              (content_of (nth i docs no_document))).
    { unfold doc_vectors. rewrite map_map.
      rewrite (nth_indep _ []
                 (text_vector (fitted_on docs) (content_of no_document)))
        by (now rewrite length_map).
      apply (map_nth (fun d => text_vector (fitted_on docs) (content_of d))). }
    rewrite E, dot_self. unfold text_vector.
    assert (Hu : sqrt (sum_squares
                         (normalize
                            (raw_vector (fitted_on docs)
                               (tokenize
                                  (content_of (nth i docs no_document))))))
                 = 1).
    { apply normalize_unit. apply raw_vector_positive.
      - apply fitted_on_ok.
      - apply fit_idf_ok.
      - destruct (tokenize (content_of (nth i docs no_document)))
          as [|t ts] eqn:E'; [contradiction|].
        apply existsb_exists. exists t. split; [now left|].
        apply (in_vocab_fitted_on docs (nth i docs no_document));
          [now apply nth_In|]. rewrite E'. now left. }
    rewrite <- (sqrt_sqrt _ (sum_squares_nonneg _)), Hu. lra.
  - unfold enumerate. apply (In_enumerate_from 0).
    now rewrite doc_vectors_length.
Qed.

Lemma StronglySorted_head {A : Type} (key : A -> R) (x y : A) (l : list A) :
  StronglySorted (fun a b => key b <= key a) (x :: l) ->
  In y (x :: l) -> key y <= key x.
Proof.
  intros H [<-|Hy]; [lra|]. inversion H as [|? ? _ Hall]; subst.
  rewrite Forall_forall in Hall. now apply Hall.
Qed.

(** X10. On a vector store indexed with [docs], a query that is the content
    of one of the documents, when that content has at least one token, gets
    a first result of relevance score exactly 1, for every [top_k >= 1]. *)
Theorem self_query_top_score (vs : FAISSVectorStore.t SimpleEmbedder.t)
    (docs : list Document) (i : nat) (top_k : Z) :
  (i < List.length docs)%nat ->
  tokenize (content_of (nth i docs no_document)) <> [] ->
  (1 <= top_k)%Z ->
  exists r rest,
    snd (FAISSVectorStore.search (fst (FAISSVectorStore.add_documents vs docs))
           (content_of (nth i docs no_document)) top_k)
    = Ok (r :: rest)
    /\ vr_relevance_score r = 1.
Proof.
  intros Hi Ht Hk. rewrite vs_add_documents_indexed. simpl fst.
  rewrite vs_search_indexed. simpl snd. unfold vector_results.
  pose proof (self_score docs i Hi Ht) as Hin.
  pose proof (semantic_scores_sorted docs
                (content_of (nth i docs no_document))) as Hs.
  destruct (semantic_scores docs (content_of (nth i docs no_document)))
    as [|[s j] l] eqn:E; [contradiction|].
  assert (H1 : s <= 1).
  { apply (semantic_scores_le_1 docs (content_of (nth i docs no_document))
             s j). rewrite E. now left. }
  pose proof (StronglySorted_head fst (s, j) (1, i) l Hs Hin) as H2.
  simpl in H2. assert (s = 1) by lra. subst s.
  rewrite py_slice_to_nonneg by lia.
  destruct (Z.to_nat top_k) as [|n] eqn:En; [lia|]. simpl.
  eexists _, _. split; [reflexivity|]. simpl. apply round4_1.
Qed.

Lemma self_query_top_score_witness :
  exists r rest,
    snd (FAISSVectorStore.search
           (fst (FAISSVectorStore.add_documents
                   (FAISSVectorStore.init get_embedder_simple) fruit_docs))
           (content_of (nth 1 fruit_docs no_document)) 5)
    = Ok (r :: rest)
    /\ vr_relevance_score r = 1.
Proof.
  apply (self_query_top_score (FAISSVectorStore.init get_embedder_simple)
           fruit_docs 1 5).
  - vm_compute. lia.
  - vm_compute. discriminate.
  - lia.
Defined.

(** ** What every result of the hybrid search satisfies *)

Lemma keyword_scores_range (docs : list Document) (query : string) (d : nat)
    (v : R) :
  In (d, v) (keyword_scores docs query) -> 0 < v <= 1.
Proof.
  unfold keyword_scores. intros H. apply in_map_iff in H.
  destruct H as [[d0 v0] [E Hin]]. simpl in E. inversion E; subst. clear E.
  pose proof (accumulated_scores_ok docs query) as Hok.
  assert (Hne : accumulated_scores docs query <> [])
    by (intros E; rewrite E in Hin; contradiction).
  pose proof (max_score_ge_1 _ _ Hok Hne) as Hm.
  pose proof (max_score_ge _ _ _ Hin) as Hv.
  destruct Hok as [_ Hall]. rewrite Forall_forall in Hall.
  specialize (Hall _ Hin). simpl in Hall. split.
  - apply Rdiv_lt_0_compat; lra.
  - apply (Rmult_le_reg_r (max_score (accumulated_scores docs query)));
      [lra|].
    unfold Rdiv. rewrite Rmult_assoc, Rinv_l by lra. lra.
Qed.

Lemma fold_merge_semantic_Forall (P : Merged -> Prop)
    (l : list (nat * VectorResult)) (acc : list (DocKey * Merged)) :
  Forall (fun kd => P (snd kd)) acc ->
  (forall ir, In ir l ->
     P {| m_document := vr_document (snd ir);
          m_semantic_score := vr_relevance_score (snd ir);
          m_keyword_score := 0 |}) ->
  Forall (fun kd => P (snd kd))
         (fold_left HybridSearchEngine.merge_semantic l acc).
Proof.
  revert acc. induction l as [|[i r] l IH]; intros acc Ha Hl; simpl;
    [exact Ha|].
  apply IH; [|intros ir Hin; apply Hl; now right].
  apply dict_set_Forall; [apply DocKey_eqb_spec|exact Ha|].
  apply (Hl (i, r)). now left.
Qed.

Lemma fold_merge_keyword_Forall (P : Merged -> Prop) (docs : list Document)
    (l : list (nat * R)) (acc : list (DocKey * Merged)) :
  Forall (fun kd => P (snd kd)) acc ->
  (forall ks data, In ks l -> P data ->
     P {| m_document := m_document data;
          m_semantic_score := m_semantic_score data;
          m_keyword_score := snd ks |}) ->
  (forall ks, In ks l ->
     P {| m_document := nth (fst ks) docs no_document;
          m_semantic_score := 0;
          m_keyword_score := snd ks |}) ->
  Forall (fun kd => P (snd kd)) (fold_left (merge_keyword_at docs) l acc).
Proof.
  revert acc. induction l as [|ks l IH]; intros acc Ha Hkeep Hnew; simpl;
    [exact Ha|].
  apply IH.
  - unfold merge_keyword_at.
    destruct (dict_get DocKey_eqb acc
                (id_of (nth (fst ks) docs no_document) (fst ks)))
      as [data|] eqn:G.
    + apply dict_set_Forall; [apply DocKey_eqb_spec|exact Ha|].
      apply Hkeep; [now left|].
      apply (dict_get_In _ DocKey_eqb_spec) in G.
      rewrite Forall_forall in Ha. apply (Ha _ G).
    + apply dict_set_Forall; [apply DocKey_eqb_spec|exact Ha|].
      apply Hnew. now left.
  - intros ks' data Hin. apply Hkeep. now right.
  - intros ks' Hin. apply Hnew. now right.
Qed.

(** An entry of [merged] holds a document of the corpus and two scores
    in [0, 1]. *)
Definition entry_ok (docs : list Document) (m : Merged) : Prop :=
  In (m_document m) docs
  /\ 0 <= m_semantic_score m <= 1
  /\ 0 <= m_keyword_score m <= 1.

Lemma merged_dict_ok (docs : list Document) (query : string) (top_k : Z) :
  Forall (fun kd => entry_ok docs (snd kd)) (merged_dict docs query top_k).
Proof.
  unfold merged_dict, merged_semantic.
  apply fold_merge_keyword_Forall.
  - apply fold_merge_semantic_Forall; [constructor|].
    intros [i r] Hin. simpl. unfold enumerate in Hin.
    apply enumerate_from_In in Hin. destruct Hin as [_ Hn].
    apply nth_error_In in Hn. unfold vector_results in Hn.
    apply in_map_iff in Hn. destruct Hn as [[s j] [<- Hin]].
    apply py_slice_to_In in Hin. unfold entry_ok. simpl.
    split; [apply nth_In; now apply semantic_scores_In in Hin|].
    split; [|lra]. apply round4_unit. split.
    + now apply (semantic_scores_nonneg docs query s j).
    + now apply (semantic_scores_le_1 docs query s j).
  - intros [d v] data Hin (H1 & H2 & _). apply keyword_scores_range in Hin.
    unfold entry_ok. simpl. split; [exact H1|]. split; [exact H2|lra].
  - intros [d v] Hin. unfold entry_ok. simpl.
    split; [apply nth_In; now apply keyword_scores_keys in Hin|].
    apply keyword_scores_range in Hin. lra.
Qed.

Lemma search_results_In (e0 : HybridSearchEngine.t) (docs : list Document)
    (query : string) (top_k : Z) (r : SearchResult) :
  In r (search_results e0 docs query top_k) ->
  exists m, entry_ok docs m
            /\ r = HybridSearchEngine.combine_scores (indexed_from e0 docs) m.
Proof.
  unfold search_results, HybridSearchEngine.rank. intros H.
  apply py_slice_to_In in H. apply sort_desc_In in H.
  apply in_map_iff in H. destruct H as [kd [<- Hin]].
  exists (snd kd). split; [|reflexivity].
  pose proof (merged_dict_ok docs query top_k) as Hok.
  rewrite Forall_forall in Hok. apply (Hok _ Hin).
Qed.

(** X11. On an indexed engine [search] returns without raising and leaves
    the engine as it is, for every query and every [top_k].  For
    [top_k >= 0] it returns at most [top_k] results.  Every result holds a
    document of the corpus, a semantic score in [0, 1] and a keyword score
    in [0, 1]. *)
Theorem search_results_in_corpus (e0 : HybridSearchEngine.t)
    (docs : list Document) (query : string) (top_k : Z) :
  let e := fst (HybridSearchEngine.add_documents e0 docs) in
  exists results,
    HybridSearchEngine.search e query top_k = (e, Ok results)
    /\ ((List.length results <= Z.to_nat top_k)%nat \/ (top_k < 0)%Z)
    /\ Forall (fun r => In (document r) docs
                        /\ 0 <= semantic_score r <= 1
                        /\ 0 <= keyword_score r <= 1) results.
Proof.
  intros e. subst e. rewrite add_documents_indexed. simpl fst.
  exists (search_results e0 docs query top_k).
  split; [apply search_indexed|]. split.
  - destruct (Z.ltb_spec top_k 0) as [Hneg|Hpos]; [now right|left].
    unfold search_results, HybridSearchEngine.rank.
    rewrite py_slice_to_nonneg by exact Hpos. rewrite length_firstn. lia.
  - apply Forall_forall. intros r Hr.
    apply search_results_In in Hr. destruct Hr as (m & (H1 & H2 & H3) & ->).
    simpl. split; [exact H1|]. split; now apply round4_unit.
Qed.

(** X12. On an engine that [create_rag_engine] made with a semantic weight
    in [0, 1], every relevance score that [search] returns is in [0, 1]. *)
Theorem search_relevance_in_unit (docs : list Document) (semantic_weight : R)
    (query : string) (top_k : Z) :
  0 <= semantic_weight <= 1 ->
  exists results,
    snd (HybridSearchEngine.search
           (fst (create_rag_engine docs semantic_weight)) query top_k)
    = Ok results
    /\ Forall (fun r => 0 <= relevance_score r <= 1) results.
Proof.
  intros Hw. rewrite create_rag_engine_indexed. simpl fst. unfold indexed.
  rewrite search_indexed. simpl snd.
  exists (search_results (HybridSearchEngine.init semantic_weight) docs query
            top_k).
  split; [reflexivity|].
  apply Forall_forall. intros r Hr.
  apply search_results_In in Hr. destruct Hr as (m & (_ & H2 & H3) & ->).
  simpl. apply round4_unit. nra.
Qed.

Lemma search_relevance_in_unit_witness :
  exists results,
    snd (HybridSearchEngine.search
           (fst (create_rag_engine fruit_docs (7 / 10))) "banana" 5)
    = Ok results
    /\ Forall (fun r => 0 <= relevance_score r <= 1) results.
Proof.
  apply (search_relevance_in_unit fruit_docs (7 / 10) "banana" 5). lra.
Defined.

(** ** Calling [add_documents] again *)

(** X13. [add_documents] does not add to what an earlier call indexed: it
    replaces it.  Indexing [docs'] on an engine already indexed with [docs]
    returns normally and leaves the engine that indexing [docs'] alone would
    have left, with [docs'] as its corpus. *)
Theorem add_documents_replaces (e0 : HybridSearchEngine.t)
    (docs docs' : list Document) :
  HybridSearchEngine.add_documents
    (fst (HybridSearchEngine.add_documents e0 docs)) docs'
  = HybridSearchEngine.add_documents e0 docs'
  /\ snd (HybridSearchEngine.add_documents e0 docs') = Ok tt
  /\ HybridSearchEngine.documents
       (fst (HybridSearchEngine.add_documents e0 docs')) = docs'
  /\ FAISSVectorStore.documents
       (HybridSearchEngine.vector_store
          (fst (HybridSearchEngine.add_documents e0 docs'))) = docs'.
Proof.
  rewrite !add_documents_indexed. simpl fst.
  split; [reflexivity|]. split; [reflexivity|]. split; reflexivity.
Qed.

(** ** The first search on a new engine *)

(** X14. A search on a new engine raises, and it is not without effect: the
    embedder it finds unfitted is fitted on the query alone.  Every later
    search finds this embedder fitted, raises again and leaves the engine as
    the first search left it. *)
Theorem search_new_engine_fits_on_query (semantic_weight : R)
    (query : string) (top_k : Z) :
  let e1 := fst (HybridSearchEngine.search
                   (HybridSearchEngine.init semantic_weight) query top_k) in
  FAISSVectorStore.embedder (HybridSearchEngine.vector_store e1)
  = SimpleEmbedder.fit SimpleEmbedder.init [query]
  /\ forall query' top_k',
       HybridSearchEngine.search e1 query' top_k'
       = (e1, Raise (AttributeError "_vectors")).
Proof.
  intros e1.
  assert (E1 : e1 = {| HybridSearchEngine.semantic_weight := semantic_weight;
                       HybridSearchEngine.keyword_weight :=
                         1 - semantic_weight;
                       HybridSearchEngine.vector_store :=
                         {| FAISSVectorStore.embedder :=
                              SimpleEmbedder.fit SimpleEmbedder.init [query];
                            FAISSVectorStore.documents := [];
                            FAISSVectorStore._vectors := None |};
                       HybridSearchEngine.documents := [];
                       HybridSearchEngine._inverted_index := None |}).
  { subst e1. unfold HybridSearchEngine.search, FAISSVectorStore.search.
    simpl emb_encode. unfold HybridSearchEngine.init at 1.
    simpl HybridSearchEngine.vector_store.
    unfold FAISSVectorStore.init at 1, get_embedder_simple at 1.
    simpl FAISSVectorStore.embedder.
    rewrite encode_unfitted by reflexivity. reflexivity. }
  rewrite E1. split; [reflexivity|].
  intros query' top_k'.
  unfold HybridSearchEngine.search, FAISSVectorStore.search.
  simpl emb_encode. simpl HybridSearchEngine.vector_store.
  simpl FAISSVectorStore.embedder.
  rewrite encode_fitted; [reflexivity|reflexivity|apply fit_vocab_ok].
Qed.

(** ** Search on a corpus in which every document has its own id *)

(** X15. When every document has an id and no two have the same, and
    [top_k >= 0], the search on the indexed engine returns exactly
    min(top_k, N) results; no document is returned twice; and every result
    is one document of the corpus with the rounded keyword score of that
    very document (0 when keyword scoring gave it none). *)
Theorem search_with_ids (e0 : HybridSearchEngine.t) (docs : list Document)
    (query : string) (top_k : Z) :
  Forall (fun d => doc_id d <> None) docs ->
  NoDup (map doc_id docs) ->
  (0 <= top_k)%Z ->
  let e := fst (HybridSearchEngine.add_documents e0 docs) in
  exists results kws,
    snd (HybridSearchEngine.search e query top_k) = Ok results
    /\ HybridSearchEngine._keyword_search e query = Ok kws
    /\ List.length results = Nat.min (Z.to_nat top_k) (List.length docs)
    /\ NoDup (map document results)
    /\ Forall (fun r =>
                 exists idx,
                   (idx < List.length docs)%nat
                   /\ document r = nth idx docs no_document
                   /\ keyword_score r
                      = round4 (dict_get_default Nat.eqb kws idx 0)) results.
Proof.
  intros Hex Hnd Hk e. subst e. rewrite add_documents_indexed. simpl fst.
  exists (search_results e0 docs query top_k), (keyword_scores docs query).
  split; [now rewrite search_indexed|].
  split; [apply keyword_search_indexed|].
  split; [now apply search_results_length|].
  destruct (merged_dict_by_identity docs Hex Hnd query top_k) as [Hkeys Hall].
  rewrite Forall_forall in Hall.
  unfold search_results, HybridSearchEngine.rank.
  rewrite py_slice_to_nonneg by exact Hk. split.
  - rewrite <- firstn_map. apply NoDup_firstn.
    eapply Permutation_NoDup.
    { apply Permutation_map. symmetry. apply sort_desc_perm. }
    rewrite map_map. simpl.
    apply (NoDup_map_inv (fun d => id_of d 0)). rewrite map_map.
    erewrite map_ext_in; [exact Hkeys|].
    intros kd Hin. destruct (Hall _ Hin) as (idx & Hi & Hkey & Hdoc & _).
    rewrite Hkey, Hdoc. now apply id_of_explicit.
  - apply Forall_forall. intros r Hr. apply firstn_incl in Hr.
    apply sort_desc_In in Hr. apply in_map_iff in Hr.
    destruct Hr as [kd [<- Hin]].
    destruct (Hall _ Hin) as (idx & Hi & _ & Hdoc & _ & Hkw).
    exists idx. simpl. split; [exact Hi|]. split; [exact Hdoc|].
    rewrite Hkw; [reflexivity|]. intros [].
Qed.

Lemma search_with_ids_witness :
  exists results kws,
    snd (HybridSearchEngine.search
           (fst (HybridSearchEngine.add_documents
                   (HybridSearchEngine.init (7 / 10)) xy_docs)) "x" 5)
    = Ok results
    /\ HybridSearchEngine._keyword_search
         (fst (HybridSearchEngine.add_documents
                 (HybridSearchEngine.init (7 / 10)) xy_docs)) "x" = Ok kws
    /\ List.length results = Nat.min (Z.to_nat 5) (List.length xy_docs)
    /\ NoDup (map document results)
    /\ Forall (fun r =>
                 exists idx,
                   (idx < List.length xy_docs)%nat
                   /\ document r = nth idx xy_docs no_document
                   /\ keyword_score r
                      = round4 (dict_get_default Nat.eqb kws idx 0)) results.
Proof.
  apply (search_with_ids (HybridSearchEngine.init (7 / 10)) xy_docs "x" 5).
  - repeat constructor; discriminate.
  - repeat constructor; simpl; intuition discriminate.
  - lia.
Defined.

(** ** The coordinates of the vector of a text *)

Lemma nth_list_update_same {A : Type} (l : list A) (i : nat) (v d : A) :
  (i < List.length l)%nat -> nth i (list_update l i v) d = v.
Proof.
  revert i. induction l as [|x l IH]; intros [|i] Hi; simpl in *; try lia.
  - reflexivity.
  - apply IH. lia.
Qed.

Lemma nth_list_update_other {A : Type} (l : list A) (i j : nat) (v d : A) :
  i <> j -> nth j (list_update l i v) d = nth j l d.
Proof.
  revert i j. induction l as [|x l IH]; intros [|i] [|j] Hij; simpl;
    try reflexivity; try contradiction.
  apply IH. lia.
Qed.

Lemma counter_get_count (ts : list string) (c : list (string * nat))
    (w : string) :
  dict_get_default String.eqb (fold_left counter_incr ts c) w 0%nat
  = (dict_get_default String.eqb c w 0 + count_occ string_dec ts w)%nat.
Proof.
  revert c. induction ts as [|t ts IH]; intros c; simpl; [lia|].
  rewrite IH. unfold counter_incr at 1. unfold dict_get_default at 1.
  destruct (string_dec t w) as [->|N].
  - rewrite (dict_get_set_same _ String_eqb_spec). lia.
  - rewrite (dict_get_set_other _ String_eqb_spec) by congruence.
    reflexivity.
Qed.

Lemma values_injective {K V : Type} (l : list (K * V)) (a b : K) (j : V) :
  NoDup (map snd l) -> In (a, j) l -> In (b, j) l -> a = b.
Proof.
  induction l as [|[k v] l IH]; intros Hnd Ha Hb; simpl in *; [contradiction|].
  inversion Hnd as [|? ? Hv Hnd']; subst.
  destruct Ha as [Ea|Ha], Hb as [Eb|Hb].
  - congruence.
  - inversion Ea; subst. exfalso. apply Hv. apply in_map_iff.
    now exists (b, j).
  - inversion Eb; subst. exfalso. apply Hv. apply in_map_iff.
    now exists (a, j).
  - now apply IH.
Qed.

Lemma fit_vocab_injective (self : SimpleEmbedder.t) (documents : list string)
    (w w' : string) (j : nat) :
  dict_get String.eqb
    (SimpleEmbedder.vocab (SimpleEmbedder.fit self documents)) w = Some j ->
  dict_get String.eqb
    (SimpleEmbedder.vocab (SimpleEmbedder.fit self documents)) w' = Some j ->
  w' = w.
Proof.
  intros Hw Hw'.
  apply (dict_get_In _ String_eqb_spec) in Hw, Hw'.
  apply (values_injective _ _ _ j) with (2 := Hw') (3 := Hw).
  unfold SimpleEmbedder.fit. simpl. unfold enumerate.
  destruct (enumerate_from_map_snd_fst 0
              (map (fun wdf => (fst wdf,
                                smoothed_idf (List.length documents) (snd wdf)))
                   (fold_left SimpleEmbedder.count_document documents [])))
    as [_ H2].
  rewrite H2. apply seq_NoDup.
Qed.

Lemma raw_fold_nth (self : SimpleEmbedder.t) (tokens : list string)
    (w : string) (j : nat) :
  vocab_ok self ->
  (forall k, dict_get String.eqb (SimpleEmbedder.vocab self) k = Some j ->
             k = w) ->
  dict_get String.eqb (SimpleEmbedder.vocab self) w = Some j ->
  forall l vec,
    NoDup (map fst l) ->
    List.length vec = List.length (SimpleEmbedder.vocab self) ->
    nth j (fold_left (raw_term self tokens) l vec) 0
    = match dict_get String.eqb l w with
      | Some c =>
          INR c / INR (List.length tokens)
          * dict_get_default String.eqb (SimpleEmbedder.idf self) w 1
      | None => nth j vec 0
      end.
Proof.
  intros Hok Hinj Hw. induction l as [|[k c] l IH]; intros vec Hnd Hlen;
    [reflexivity|].
  inversion Hnd as [|? ? Hk Hnd']; subst.
  cbn [fold_left dict_get].
  rewrite IH by (try assumption; now rewrite raw_term_length).
  destruct (String.eqb w k) eqn:E.
  - apply String.eqb_eq in E. subst k.
    apply (dict_get_None_keys _ String_eqb_spec) in Hk. rewrite Hk.
    unfold raw_term. cbn [fst snd]. rewrite Hw.
    apply nth_list_update_same. rewrite Hlen. apply (Hok w j Hw).
  - destruct (dict_get String.eqb l w); [reflexivity|].
    unfold raw_term. cbn [fst snd].
    destruct (dict_get String.eqb (SimpleEmbedder.vocab self) k) as [idx|]
      eqn:G; [|reflexivity].
    apply nth_list_update_other. intros ->.
    apply Hinj in G. subst k. rewrite String.eqb_refl in E. discriminate.
Qed.

Lemma Counter_lookup (tokens : list string) (w : string) :
  dict_get String.eqb (Counter tokens) w
  = match count_occ string_dec tokens w with
    | O => None
    | S k => Some (S k)
    end.
Proof.
  pose proof (counter_get_count tokens [] w) as G.
  fold (Counter tokens) in G. unfold dict_get_default in G. simpl in G.
  destruct (dict_get String.eqb (Counter tokens) w) as [c|] eqn:E.
  - apply (dict_get_In _ String_eqb_spec) in E.
    pose proof (Counter_ok tokens) as Hok. unfold counter_ok in Hok.
    rewrite Forall_forall in Hok. destruct (Hok _ E) as [_ Hc].
    simpl in Hc. rewrite <- G. destruct c; [lia|reflexivity].
  - now rewrite <- G.
Qed.

(** X16. On an embedder fitted on a corpus of n documents, [encode] of a
    text returns the vector raw / (norm or 1), where norm is the Euclidean
    norm of raw, raw has one coordinate per term of the vocabulary, and the
    coordinate of the term w is
    (occurrences of w in the text / number of tokens of the text)
    * (ln((n + 1) / (df(w) + 1)) + 1),
    df(w) being the number of documents of the corpus that contain w. *)
Theorem encode_tf_idf (self0 : SimpleEmbedder.t) (corpus : list string)
    (text : string) :
  let self := SimpleEmbedder.fit self0 corpus in
  let tokens := tokenize text in
  let n := List.length corpus in
  exists raw,
    SimpleEmbedder.encode self [text]
    = (self,
       Ok [map (fun x => x / or_one (sqrt (py_sum (map (fun v => v * v) raw))))
               raw])
    /\ List.length raw = List.length (SimpleEmbedder.vocab self)
    /\ forall w j,
         dict_get String.eqb (SimpleEmbedder.vocab self) w = Some j ->
         nth j raw 0
         = INR (count_occ string_dec tokens w) / INR (List.length tokens)
           * (ln (INR (n + 1) / INR (document_frequency w corpus + 1)) + 1).
Proof.
  intros self tokens n.
  assert (Hv : vocab_ok self) by apply fit_vocab_ok.
  exists (raw_vector self tokens).
  split; [now rewrite encode_fitted|].
  split; [apply raw_vector_length|].
  intros w j Hw. unfold raw_vector.
  rewrite (raw_fold_nth self tokens w j Hv);
    [|intros k Hk; apply (fit_vocab_injective self0 corpus w k j Hw Hk)
     |exact Hw
     |apply counter_fold_NoDup; constructor
     |apply repeat_length].
  rewrite Counter_lookup.
  destruct (count_occ string_dec tokens w) as [|c].
  - rewrite nth_repeat. simpl INR. unfold Rdiv. now rewrite !Rmult_0_l.
  - f_equal.
    assert (Hin : In w (map fst (SimpleEmbedder.idf self))).
    { destruct (fit_keys self0 corpus) as [_ E].
      fold self in E. rewrite E.
      apply (dict_get_In _ String_eqb_spec) in Hw.
      apply in_map_iff. now exists (w, j). }
    unfold dict_get_default. subst self. rewrite fit_idf_lookup.
    destruct (document_frequency w corpus) as [|k] eqn:Hdf.
    + exfalso.
      assert (G : dict_get String.eqb
                    (SimpleEmbedder.idf (SimpleEmbedder.fit self0 corpus)) w
                  = None) by (rewrite fit_idf_lookup, Hdf; reflexivity).
      apply (dict_get_None_keys _ String_eqb_spec) in G. now apply G.
    + reflexivity.
Qed.

(** ** A query without a term of the vocabulary *)

Lemma text_vector_unknown (docs : list Document) (query : string) :
  (forall t doc, In t (tokenize query) -> In doc docs ->
                 ~ In t (tokenize (content_of doc))) ->
  text_vector (fitted_on docs) query
  = repeat 0 (List.length (SimpleEmbedder.vocab (fitted_on docs))).
Proof.
  intros Hno. unfold text_vector. rewrite raw_vector_in_vocab_only.
  assert (Hf : filter (in_vocab (fitted_on docs)) (tokenize query) = []).
  { destruct (filter (in_vocab (fitted_on docs)) (tokenize query))
      as [|t ts] eqn:Hf; [reflexivity|].
    assert (Hin : In t (filter (in_vocab (fitted_on docs)) (tokenize query)))
      by (rewrite Hf; now left).
    apply filter_In in Hin. destruct Hin as [Ht Hv]. exfalso.
    unfold in_vocab, dict_mem in Hv.
    destruct (dict_get String.eqb (SimpleEmbedder.vocab (fitted_on docs)) t)
      as [j|] eqn:G; [|discriminate].
    apply (dict_get_In _ String_eqb_spec) in G.
    assert (Hk : In t (map fst (SimpleEmbedder.vocab (fitted_on docs))))
      by (apply in_map_iff; now exists (t, j)).
    unfold fitted_on in Hk. apply fit_vocab_In in Hk.
    destruct Hk as [text [Htext Htok]]. apply in_map_iff in Htext.
    destruct Htext as [doc [<- Hdoc]]. apply (Hno t doc Ht Hdoc Htok). }
  rewrite Hf. unfold raw_vector. simpl fold_left.
  rewrite normalize_zero by (rewrite sum_squares_repeat_0; apply sqrt_0).
  now rewrite repeat_length.
Qed.

Lemma dot_zero_l (n : nat) (v : list R) : dot (repeat 0 n) v = 0.
Proof.
  unfold dot. revert v. induction n as [|n IH]; intros v; [reflexivity|].
  destruct v as [|y v]; [reflexivity|].
  simpl repeat. simpl combine. simpl map. rewrite py_sum_cons, IH.
  cbn [fst snd]. lra.
Qed.

Lemma map_nth_seq {A : Type} (l : list A) (d : A) :
  map (fun i => nth i l d) (seq 0 (List.length l)) = l.
Proof.
  induction l as [|x l IH]; [reflexivity|].
  simpl List.length. simpl seq. simpl map. f_equal.
  rewrite <- seq_shift, map_map. exact IH.
Qed.

Lemma semantic_scores_unknown (docs : list Document) (query : string) :
  (forall t doc, In t (tokenize query) -> In doc docs ->
                 ~ In t (tokenize (content_of doc))) ->
  semantic_scores docs query
  = map (fun i => (0, i)) (seq 0 (List.length docs)).
Proof.
  intros Hno. unfold semantic_scores.
  rewrite (text_vector_unknown docs query Hno).
  assert (E : map (fun iv : nat * list R =>
                     (dot (repeat 0 (List.length
                                       (SimpleEmbedder.vocab (fitted_on docs))))
                          (snd iv), fst iv))
                  (enumerate (doc_vectors docs))
              = map (fun i => (0, i)) (seq 0 (List.length docs))).
  { unfold enumerate.
    rewrite <- (doc_vectors_length docs), <- (enumerate_from_map_fst 0).
    rewrite map_map. apply map_ext. intros iv. now rewrite dot_zero_l. }
  rewrite E. apply sort_desc_sorted_id. apply StronglySorted_all.
  intros a b Ha Hb. apply in_map_iff in Ha, Hb.
  destruct Ha as [i [<- _]], Hb as [j [<- _]]. unfold desc. simpl. lra.
Qed.

(** X17. On the vector store indexed with [docs], a query none of whose
    tokens occurs in the corpus (the empty query among them) is not
    rejected: for [top_k >= 0] it gets the first [top_k] documents of the
    corpus, in corpus order, each with relevance score 0. *)
Theorem vector_search_unknown_query (vs : FAISSVectorStore.t SimpleEmbedder.t)
    (docs : list Document) (query : string) (top_k : Z) :
  (forall t doc, In t (tokenize query) -> In doc docs ->
                 ~ In t (tokenize (content_of doc))) ->
  (0 <= top_k)%Z ->
  snd (FAISSVectorStore.search (fst (FAISSVectorStore.add_documents vs docs))
         query top_k)
  = Ok (map (fun doc => {| vr_document := doc; vr_relevance_score := 0 |})
            (firstn (Z.to_nat top_k) docs)).
Proof.
  intros Hno Hk. rewrite vs_add_documents_indexed. simpl fst.
  rewrite vs_search_indexed. simpl snd. f_equal. unfold vector_results.
  rewrite (semantic_scores_unknown docs query Hno).
  rewrite py_slice_to_nonneg by exact Hk.
  rewrite <- firstn_map, map_map. simpl. rewrite round4_0.
  rewrite <- (map_nth_seq docs no_document) at 2.
  rewrite <- firstn_map, map_map. reflexivity.
Qed.

Lemma vector_search_unknown_query_witness :
  snd (FAISSVectorStore.search
         (fst (FAISSVectorStore.add_documents
                 (FAISSVectorStore.init get_embedder_simple) fruit_docs))
         "cherry" 1)
  = Ok (map (fun doc => {| vr_document := doc; vr_relevance_score := 0 |})
            (firstn (Z.to_nat 1) fruit_docs)).
Proof.
  apply (vector_search_unknown_query
           (FAISSVectorStore.init get_embedder_simple) fruit_docs "cherry" 1).
  - intros t doc Ht Hd. vm_compute in Ht. destruct Ht as [<-|[]].
    destruct Hd as [<-|[<-|[]]]; vm_compute; intros [H|[]]; discriminate H.
  - lia.
Defined.

Lemma keyword_scores_unknown (docs : list Document) (query : string) :
  (forall t doc, In t (tokenize query) -> In doc docs ->
                 ~ In t (tokenize (content_of doc))) ->
  keyword_scores docs query = [].
Proof.
  intros Hno. unfold keyword_scores, accumulated_scores.
  replace (fold_left (keyword_token docs) (tokenize query) [])
    with (@nil (nat * R)); [reflexivity|].
  revert Hno. generalize (tokenize query) as ts.
  induction ts as [|t ts IH]; intros Hno; [reflexivity|].
  simpl fold_left. unfold keyword_token at 2.
  rewrite build_inverted_index_lookup.
  destruct (positions_with t docs) as [|i p] eqn:E.
  - apply IH. intros t' doc Ht'. apply Hno. now right.
  - exfalso.
    assert (Hi : In i (positions_with t docs)) by (rewrite E; now left).
    apply positions_with_In in Hi. destruct Hi as [Hi Ht].
    apply (Hno t (nth i docs no_document)); [now left| |exact Ht].
    now apply nth_In.
Qed.

(** X18. When every document has its own id, the hybrid search does not
    reject a query none of whose tokens occurs in the corpus (the empty
    query among them): for [top_k >= 0] it returns the first [top_k]
    documents of the corpus, in corpus order, with all three scores 0,
    whatever the weights. *)
Theorem hybrid_search_unknown_query (e0 : HybridSearchEngine.t)
    (docs : list Document) (query : string) (top_k : Z) :
  Forall (fun d => doc_id d <> None) docs ->
  NoDup (map doc_id docs) ->
  (forall t doc, In t (tokenize query) -> In doc docs ->
                 ~ In t (tokenize (content_of doc))) ->
  (0 <= top_k)%Z ->
  snd (HybridSearchEngine.search
         (fst (HybridSearchEngine.add_documents e0 docs)) query top_k)
  = Ok (map (fun doc => {| document := doc;
                           relevance_score := 0;
                           semantic_score := 0;
                           keyword_score := 0 |})
            (firstn (Z.to_nat top_k) docs)).
Proof.
  intros Hex Hnd Hno Hk. rewrite add_documents_indexed. simpl fst.
  rewrite search_indexed. simpl snd. f_equal.
  unfold search_results, HybridSearchEngine.rank, merged_dict.
  rewrite (keyword_scores_unknown docs query Hno). simpl fold_left.
  rewrite (merged_semantic_eq docs Hex Hnd).
  rewrite (semantic_scores_unknown docs query Hno).
  rewrite !py_slice_to_nonneg by lia.
  rewrite firstn_map, !map_map.
  assert (E : map (fun i : nat =>
                     HybridSearchEngine.combine_scores (indexed_from e0 docs)
                       (snd (entry_of_score docs (0, i))))
                  (firstn (Z.to_nat (top_k * 2)) (seq 0 (List.length docs)))
              = map (fun i => {| document := nth i docs no_document;
                                 relevance_score := 0;
                                 semantic_score := 0;
                                 keyword_score := 0 |})
                    (firstn (Z.to_nat (top_k * 2))
                            (seq 0 (List.length docs)))).
  { apply map_ext. intros i.
    unfold HybridSearchEngine.combine_scores, entry_of_score, doc_at.
    simpl. rewrite !round4_0.
    replace (HybridSearchEngine.semantic_weight e0 * 0
             + HybridSearchEngine.keyword_weight e0 * 0) with 0 by lra.
    now rewrite round4_0. }
  rewrite E. clear E.
  rewrite sort_desc_sorted_id.
  - rewrite firstn_map, firstn_firstn_le by lia.
    rewrite <- (map_nth_seq docs no_document) at 2.
    rewrite (firstn_map (fun i : nat => nth i docs no_document)), map_map.
    reflexivity.
  - apply StronglySorted_all. intros a b Ha Hb.
    apply in_map_iff in Ha, Hb.
    destruct Ha as [i [<- _]], Hb as [j [<- _]]. unfold desc. simpl. lra.
Qed.

Lemma hybrid_search_unknown_query_witness :
  snd (HybridSearchEngine.search
         (fst (HybridSearchEngine.add_documents
                 (HybridSearchEngine.init (7 / 10)) xy_docs)) "" 1)
  = Ok (map (fun doc => {| document := doc;
                           relevance_score := 0;
                           semantic_score := 0;
                           keyword_score := 0 |})
            (firstn (Z.to_nat 1) xy_docs)).
Proof.
  apply (hybrid_search_unknown_query (HybridSearchEngine.init (7 / 10)) xy_docs
           "" 1).
  - repeat constructor; discriminate.
  - repeat constructor; simpl; intuition discriminate.
  - intros t doc Ht. vm_compute in Ht. contradiction.
  - lia.
Defined.
